(** * worm-scan: the normalisation and matching core of [bin/worm-scan.mjs]

    A shallow embedding of [parseSemver], [cmpVer], [normalizeMalwareList],
    [flattenPackages] and [scan], together with the fragment of the
    ECMAScript run time they rely on (string trimming and splitting,
    [Number] applied to a string, [String] applied to a decoded JSON value,
    truthiness, [Array.prototype.sort]). *)

From Stdlib Require Import ZArith NArith List Bool Lia String Ascii.
From Stdlib Require Import Sorting.Sorted Sorting.Permutation.
Import ListNotations.

Open Scope Z_scope.

(* ================================================================== *)
(** * Strings *)

(** A JavaScript string is a finite sequence of UTF-16 code units. *)
Definition char := N.
Definition jsstring := list char.

(** Literals are written [str "..."], with ASCII text only. *)
Definition str (s : string) : jsstring :=
  List.map N_of_ascii (list_ascii_of_string s).

Fixpoint str_eqb (a b : jsstring) : bool :=
  match a, b with
  | [], [] => true
  | x :: a', y :: b' => N.eqb x y && str_eqb a' b'
  | _, _ => false
  end.

(** [WhiteSpace] and [LineTerminator] code points of ECMA-262, the set that
    [String.prototype.trim] and [Number] strip. *)
Definition isWhiteSpace (c : char) : bool :=
  (existsb (N.eqb c)
     [9; 10; 11; 12; 13; 32; 160; 5760; 8232; 8233; 8239; 8287; 12288; 65279]
   || ((8192 <=? c) && (c <=? 8202)))%N.

Fixpoint trimStart (s : jsstring) : jsstring :=
  match s with
  | c :: s' => if isWhiteSpace c then trimStart s' else s
  | [] => []
  end.

Definition trimEnd (s : jsstring) : jsstring := rev (trimStart (rev s)).

Definition trim (s : jsstring) : jsstring := trimEnd (trimStart s).

(** [s.replace(/^v/, '')]: one leading lower-case [v] is dropped. *)
Definition replaceLeadingV (s : jsstring) : jsstring :=
  match s with
  | c :: s' => if N.eqb c 118 then s' else s
  | [] => []
  end.

(** [s.split(sep)] for a one-character separator: the pieces between the
    separators, at least one piece. *)
Fixpoint split (sep : char) (s : jsstring) : list jsstring :=
  match s with
  | [] => [[]]
  | c :: s' =>
      if N.eqb c sep then [] :: split sep s'
      else match split sep s' with
           | piece :: pieces => (c :: piece) :: pieces
           | [] => [[c]]
           end
  end.

Definition toLowerCaseChar (c : char) : char :=
  if ((65 <=? c) && (c <=? 90))%N then (c + 32)%N else c.

(** [s.toLowerCase()] on the ASCII letters. Code units outside ASCII are left
    as they are; the only use below compares the result with ["npm"], and no
    code unit outside ASCII has [n], [p] or [m] as its lower-case form. *)
Definition toLowerCase (s : jsstring) : jsstring := List.map toLowerCaseChar s.

Definition isDigit (c : char) : bool := ((48 <=? c) && (c <=? 57))%N.

(** Decimal text of a natural number, as [String(i)] gives for an array index. *)
Definition digitChar (d : N) : char := (48 + d)%N.

Fixpoint natToStringAux (fuel : nat) (n : N) (acc : jsstring) : jsstring :=
  match fuel with
  | O => acc
  | S fuel' =>
      let acc' := digitChar (n mod 10) :: acc in
      if (n <? 10)%N then acc' else natToStringAux fuel' (n / 10) acc'
  end.

Definition natToString (n : nat) : jsstring :=
  natToStringAux (S n) (N.of_nat n) [].

(* ================================================================== *)
(** * Numbers *)

(** An IEEE 754 binary64 value: not-a-number, an infinity, or the finite
    value [m * 2^e]. The sign of zero is not tracked: nothing in the
    program observes it. *)
Inductive number : Type :=
| NaN
| Infinity (negative : bool)
| Finite (m e : Z).

Definition zero : number := Finite 0 0.
Definition ofZ (z : Z) : number := Finite z 0.

(** [floor (log2 (n / d))] for positive [n] and [d]. *)
Definition floorLog2Ratio (n d : Z) : Z :=
  let g := Z.log2 n - Z.log2 d in
  if d * 2 ^ Z.max 0 g <=? n * 2 ^ Z.max 0 (- g) then g else g - 1.

(** The integer nearest to [n / d], ties to even. *)
Definition roundNearestEven (n d : Z) : Z :=
  let q := n / d in
  let r := n mod d in
  if 2 * r <? d then q
  else if d <? 2 * r then q + 1
  else if Z.even q then q else q + 1.

(** The binary64 value nearest to [n / d] ([0 <= n], [0 < d]): a 53-bit
    significand, exponents down to [-1074], overflow to infinity. *)
Definition roundToDouble (n d : Z) : number :=
  if n =? 0 then zero
  else
    let e := Z.max (floorLog2Ratio n d - 52) (-1074) in
    let m := if 0 <=? e then roundNearestEven n (d * 2 ^ e)
             else roundNearestEven (n * 2 ^ (- e)) d in
    if (0 <=? e) && (2 ^ 1024 <=? m * 2 ^ e) then Infinity false
    else Finite m e.

Definition negate (x : number) : number :=
  match x with
  | NaN => NaN
  | Infinity s => Infinity (negb s)
  | Finite m e => Finite (- m) e
  end.

Definition Math_abs (x : number) : number :=
  match x with
  | NaN => NaN
  | Infinity _ => Infinity false
  | Finite m e => Finite (Z.abs m) e
  end.

(** The double nearest to the integer [z]. *)
Definition roundZ (z : Z) : number :=
  if z <? 0 then negate (roundToDouble (- z) 1) else roundToDouble z 1.

(** [Number.isInteger(x)] together with the integer: [Some z] when [x] is
    finite and integral. *)
Definition toInteger (x : number) : option Z :=
  match x with
  | Finite m e =>
      if 0 <=? e then Some (m * 2 ^ e)
      else if m mod 2 ^ (- e) =? 0 then Some (m / 2 ^ (- e)) else None
  | _ => None
  end.

(** The sign of a number, [-1], [0] or [1]; [0] for NaN, which [sort] takes
    for [+0]. *)
Definition sign (x : number) : Z :=
  match x with
  | NaN => 0
  | Infinity s => if s then -1 else 1
  | Finite m _ => Z.sgn m
  end.

(** [x <= y] on numbers; false when either is NaN. *)
Definition number_leb (x y : number) : bool :=
  match x, y with
  | NaN, _ | _, NaN => false
  | Infinity true, _ => true
  | _, Infinity false => true
  | Infinity false, _ => false
  | _, Infinity true => false
  | Finite m1 e1, Finite m2 e2 =>
      let e := Z.min e1 e2 in
      m1 * 2 ^ (e1 - e) <=? m2 * 2 ^ (e2 - e)
  end.

(** [x === y] on numbers. *)
Definition number_eqb (x y : number) : bool :=
  number_leb x y && number_leb y x.

(** [a - b] for two integer-valued doubles given by their values. *)
Definition sub (a b : Z) : number := roundZ (a - b).

(** ** [Number] applied to a string (StringToNumber) *)

Definition digitValue (radix : Z) (c : char) : option Z :=
  let v :=
    if isDigit c then Z.of_N c - 48
    else if ((97 <=? c) && (c <=? 102))%N then Z.of_N c - 87
    else if ((65 <=? c) && (c <=? 70))%N then Z.of_N c - 55
    else radix in
  if v <? radix then Some v else None.

(** The longest prefix of digits in the radix, as its value and length, and
    what follows it. *)
Fixpoint spanDigits (radix : Z) (s : jsstring) (acc : Z) (len : Z)
  : Z * Z * jsstring :=
  match s with
  | c :: s' =>
      match digitValue radix c with
      | Some v => spanDigits radix s' (acc * radix + v) (len + 1)
      | None => (acc, len, s)
      end
  | [] => (acc, len, [])
  end.

(** [ExponentPart]: [e] or [E], an optional sign, digits to the end. *)
Definition exponentPart (s : jsstring) : option Z :=
  match s with
  | [] => Some 0
  | c :: s' =>
      if (N.eqb c 101 || N.eqb c 69)%bool then
        let '(neg, ds) :=
          match s' with
          | 43%N :: r => (false, r)
          | 45%N :: r => (true, r)
          | _ => (false, s')
          end in
        match spanDigits 10 ds 0 0 with
        | (v, len, []) => if 0 <? len then Some (if neg then - v else v) else None
        | _ => None
        end
      else None
  end.

(** [StrUnsignedDecimalLiteral]: [Infinity], or digits with an optional
    fraction and exponent, rounded to the nearest double (engines round
    correctly whatever the number of digits). *)
Definition strUnsignedDecimalLiteral (s : jsstring) : number :=
  if str_eqb s (str "Infinity") then Infinity false
  else
    let '(ip, ilen, r1) := spanDigits 10 s 0 0 in
    let '(mant, flen, r2) :=
      match r1 with
      | 46%N :: r => spanDigits 10 r ip 0
      | _ => (ip, 0, r1)
      end in
    if 0 <? ilen + flen then
      match exponentPart r2 with
      | Some ex =>
          let scale := ex - flen in
          if 0 <=? scale then roundToDouble (mant * 10 ^ scale) 1
          else roundToDouble mant (10 ^ (- scale))
      | None => NaN
      end
    else NaN.

(** [NonDecimalIntegerLiteral]: [0b], [0o] or [0x] and digits to the end. *)
Definition nonDecimalIntegerLiteral (s : jsstring) : option number :=
  match s with
  | 48%N :: c :: ds =>
      let radix :=
        if (N.eqb c 98 || N.eqb c 66)%bool then Some 2
        else if (N.eqb c 111 || N.eqb c 79)%bool then Some 8
        else if (N.eqb c 120 || N.eqb c 88)%bool then Some 16
        else None in
      match radix with
      | Some r =>
          match spanDigits r ds 0 0 with
          | (v, len, []) => Some (if 0 <? len then roundToDouble v 1 else NaN)
          | _ => Some NaN
          end
      | None => None
      end
  | _ => None
  end.

Definition StringToNumber (s : jsstring) : number :=
  match trim s with
  | [] => zero
  | (c :: r) as t =>
      match nonDecimalIntegerLiteral t with
      | Some x => x
      | None =>
          if N.eqb c 43 then strUnsignedDecimalLiteral r
          else if N.eqb c 45 then negate (strUnsignedDecimalLiteral r)
          else strUnsignedDecimalLiteral t
      end
  end.

(* ================================================================== *)
(** * Values *)

(** The values the program handles: [undefined] (a missing property) and the
    decoded JSON values. An object is the list of its own properties in the
    order [Object.entries] enumerates them. *)
Unset Elimination Schemes.
Inductive value : Type :=
| Undefined
| JNull
| JBool (b : bool)
| JNum (n : number)
| JStr (s : jsstring)
| JArr (items : list value)
| JObj (fields : list (jsstring * value)).
Set Elimination Schemes.

(** Induction on values, with the hypothesis on every element of an array
    and every field of an object. *)
Fixpoint value_ind (P : value -> Prop)
  (HUndefined : P Undefined) (HNull : P JNull)
  (HBool : forall b, P (JBool b)) (HNum : forall n, P (JNum n))
  (HStr : forall s, P (JStr s))
  (HArr : forall items, Forall P items -> P (JArr items))
  (HObj : forall fields, Forall (fun kv => P (snd kv)) fields -> P (JObj fields))
  (v : value) {struct v} : P v :=
  let rec := value_ind P HUndefined HNull HBool HNum HStr HArr HObj in
  match v with
  | Undefined => HUndefined
  | JNull => HNull
  | JBool b => HBool b
  | JNum n => HNum n
  | JStr s => HStr s
  | JArr items =>
      HArr items
        ((fix all (l : list value) : Forall P l :=
            match l with
            | [] => Forall_nil P
            | x :: l' => Forall_cons x (rec x) (all l')
            end) items)
  | JObj fields =>
      HObj fields
        ((fix all (l : list (jsstring * value)) : Forall (fun kv => P (snd kv)) l :=
            match l with
            | [] => Forall_nil _
            | kv :: l' => Forall_cons kv (rec (snd kv)) (all l')
            end) fields)
  end.

(** What the host supplies and the program does not define: the decimal text
    of a number and the collation behind [String.prototype.localeCompare]. *)
Class Host : Type := {
  numberToString : number -> jsstring;
  localeCompare : jsstring -> jsstring -> Z
}.

(** ECMA-262 requires [localeCompare] to be a consistent comparator: the
    signs of [localeCompare a b] and [localeCompare b a] are opposite, and
    "not after" is transitive. *)
Class ConsistentCollation (H : Host) : Prop := {
  localeCompare_antisym :
    forall a b, Z.sgn (localeCompare a b) = - Z.sgn (localeCompare b a);
  localeCompare_trans :
    forall a b c, localeCompare a b <= 0 -> localeCompare b c <= 0 ->
                  localeCompare a c <= 0
}.

(** A collation that tells any two different strings apart. *)
Definition SeparatingCollation (H : Host) : Prop :=
  forall a b, localeCompare a b = 0 -> a = b.

(** Exceptions: a TypeError of a conversion or a call, and the RangeError of
    a call stack that ran out. *)
Inductive exn : Type := TypeError | RangeError.

Inductive result (A : Type) : Type :=
| Ok (a : A)
| Throw (e : exn).
Arguments Ok {A} a.
Arguments Throw {A} e.

Definition bind {A B : Type} (m : result A) (k : A -> result B) : result B :=
  match m with
  | Ok a => k a
  | Throw e => Throw e
  end.

Notation "x <- m ;; k" := (bind m (fun x => k))
  (at level 61, m at next level, right associativity).

(** [for (const x of l) body(x)] over a state, stopping at the first throw. *)
Definition forOf {A S : Type} (l : list A) (body : A -> S -> result S)
  : S -> result S :=
  (fix loop (l : list A) (s : S) : result S :=
     match l with
     | [] => Ok s
     | x :: l' => s' <- body x s ;; loop l' s'
     end) l.

Definition ToBoolean (v : value) : bool :=
  match v with
  | Undefined | JNull => false
  | JBool b => b
  | JNum (Finite m _) => negb (m =? 0)
  | JNum NaN => false
  | JNum (Infinity _) => true
  | JStr s => match s with [] => false | _ => true end
  | JArr _ | JObj _ => true
  end.

(** [a || b]. *)
Definition orElse (a b : value) : value := if ToBoolean a then a else b.

Inductive jstype : Type :=
| TUndefined | TObject | TBoolean | TNumber | TString.

Definition typeof (v : value) : jstype :=
  match v with
  | Undefined => TUndefined
  | JNull | JArr _ | JObj _ => TObject
  | JBool _ => TBoolean
  | JNum _ => TNumber
  | JStr _ => TString
  end.

Definition isObjectType (v : value) : bool :=
  match typeof v with TObject => true | _ => false end.

Definition isStringType (v : value) : bool :=
  match typeof v with TString => true | _ => false end.

Definition Array_isArray (v : value) : bool :=
  match v with JArr _ => true | _ => false end.

Fixpoint lookup (k : jsstring) (fields : list (jsstring * value)) : option value :=
  match fields with
  | [] => None
  | (k', v) :: fields' => if str_eqb k k' then Some v else lookup k fields'
  end.

(** [k in v]: an own property of a plain object. None of the property names
    the program asks for exists on [Object.prototype] or [Array.prototype]. *)
Definition hasProperty (k : jsstring) (v : value) : bool :=
  match v with
  | JObj fields => match lookup k fields with Some _ => true | None => false end
  | _ => false
  end.

(** [v.k] (also [v?.k]), for the same property names. *)
Definition get (v : value) (k : jsstring) : value :=
  match v with
  | JObj fields => match lookup k fields with Some x => x | None => Undefined end
  | _ => Undefined
  end.

(** The elements of an array, for [for...of]. *)
Definition elements (v : value) : list value :=
  match v with JArr items => items | _ => [] end.

Fixpoint indexed (i : nat) (items : list value) : list (jsstring * value) :=
  match items with
  | [] => []
  | x :: items' => (natToString i, x) :: indexed (S i) items'
  end.

(** [Object.entries(v)] of an object or an array. *)
Definition Object_entries (v : value) : list (jsstring * value) :=
  match v with
  | JObj fields => fields
  | JArr items => indexed 0 items
  | _ => []
  end.

(* ================================================================== *)
(** * Data model *)

(** The three fields hold integer-valued doubles, kept as their values. *)
Record ParsedVersion : Type := { major : Z; minor : Z; patch : Z }.

(** A [Set] of strings and a [Map] from strings to such sets, both in
    insertion order, as JavaScript iterates them. *)
Definition VersionSet := list jsstring.
Definition AdvisoryMap := list (jsstring * VersionSet).

Record InstalledPackage : Type := { name : value; version : value }.

Inductive Level : Type := critical | warning.

Module Finding.
Record t : Type :=
  { level : Level; name : value; version : value; against : value }.
End Finding.

Definition Level_eqb (a b : Level) : bool :=
  match a, b with
  | critical, critical | warning, warning => true
  | _, _ => false
  end.

Section WithHost.
Context {H : Host}.

(** [String(v)]. An array is joined with commas, [null] and [undefined]
    elements giving the empty string. A plain object gives
    ["[object Object]"], unless it has an own property [toString]: a decoded
    value is never callable, [Object.prototype.valueOf] returns the object
    itself, and the conversion throws a TypeError. *)
Fixpoint ToString (v : value) : result jsstring :=
  match v with
  | Undefined => Ok (str "undefined")
  | JNull => Ok (str "null")
  | JBool b => Ok (if b then str "true" else str "false")
  | JNum n => Ok (numberToString n)
  | JStr s => Ok s
  | JArr items =>
      (fix join (l : list value) : result jsstring :=
         match l with
         | [] => Ok []
         | x :: l' =>
             s <- match x with
                  | Undefined | JNull => Ok []
                  | _ => ToString x
                  end ;;
             match l' with
             | [] => Ok s
             | _ => r <- join l' ;; Ok (s ++ str "," ++ r)
             end
         end) items
  | JObj fields =>
      match lookup (str "toString") fields with
      | Some _ => Throw TypeError
      | None => Ok (str "[object Object]")
      end
  end.

(** [a === b]. Arrays and objects are compared by reference; the two sides
    are always taken from two different places of a decoded document, which
    shares nothing. *)
Definition strictEquals (a b : value) : bool :=
  match a, b with
  | Undefined, Undefined | JNull, JNull => true
  | JBool x, JBool y => Bool.eqb x y
  | JNum x, JNum y => number_eqb x y
  | JStr x, JStr y => str_eqb x y
  | _, _ => false
  end.

(** [a.localeCompare(b)]: [a] must be a string, since no other value has
    a callable property of this name; [b] is converted to a string. *)
Definition callLocaleCompare (a b : value) : result number :=
  match a with
  | JStr s => t <- ToString b ;; Ok (ofZ (localeCompare s t))
  | _ => Throw TypeError
  end.

(* ================================================================== *)
(** * [parseSemver] and [cmpVer] *)

(** [parseSemver(v)]: [None] is [null]. The three calls of
    [Number.isInteger] are the three [toInteger], which also give the
    integers kept in the record. *)
Definition parseSemver (v : value) : option ParsedVersion :=
  match v with
  | JStr v =>
      let s := replaceLeadingV (trim v) in
      match split 46%N s with
      | maj :: min :: rest :: _ =>
          let patchStr := hd [] (split 45%N rest) in
          match toInteger (StringToNumber maj),
                toInteger (StringToNumber min),
                toInteger (StringToNumber patchStr) with
          | Some M, Some m, Some p => Some {| major := M; minor := m; patch := p |}
          | _, _, _ => None
          end
      | _ => None
      end
  | _ => None
  end.

(** [cmpVer(a, b)]; it throws only when [String(a)] or [String(b)] does. *)
Definition cmpVer (a b : value) : result number :=
  match parseSemver a, parseSemver b with
  | Some pa, Some pb =>
      if negb (major pa =? major pb) then Ok (sub (major pa) (major pb))
      else if negb (minor pa =? minor pb) then Ok (sub (minor pa) (minor pb))
      else Ok (sub (patch pa) (patch pb))
  | Some _, None => Ok (ofZ (-1))
  | None, Some _ => Ok (ofZ 1)
  | None, None =>
      sa <- ToString a ;; sb <- ToString b ;; Ok (ofZ (localeCompare sa sb))
  end.

(* ================================================================== *)
(** * [Array.prototype.sort] *)

(** The standard fixes the outcome of [sort] only for a consistent
    comparator: the stable arrangement in its order. Which pairs are handed
    to the comparator is left to the engine; this is a stable insertion sort,
    each element placed before the first one the comparator puts it strictly
    before. A throw of the comparator ends the sort. *)
Section Sort.
Context {A : Type} (comparefn : A -> A -> result number).

Fixpoint insert (x : A) (sorted : list A) : result (list A) :=
  match sorted with
  | [] => Ok [x]
  | y :: rest =>
      c <- comparefn x y ;;
      if sign c <? 0 then Ok (x :: sorted)
      else r <- insert x rest ;; Ok (y :: r)
  end.

Fixpoint sortInto (acc : list A) (l : list A) : result (list A) :=
  match l with
  | [] => Ok acc
  | x :: l' => acc' <- insert x acc ;; sortInto acc' l'
  end.

Definition sort (l : list A) : result (list A) := sortInto [] l.
End Sort.

(* ================================================================== *)
(** * [normalizeMalwareList] *)


(** [set.has(v)], [map.get(k)] and [map.has(k)] compare the argument with
    the stored strings: a value that is not a string is never found. *)
Definition Set_has (s : VersionSet) (v : value) : bool :=
  match v with
  | JStr t => existsb (str_eqb t) s
  | _ => false
  end.

Definition Set_add (s : VersionSet) (v : jsstring) : VersionSet :=
  if Set_has s (JStr v) then s else s ++ [v].

Fixpoint assoc (n : jsstring) (map : AdvisoryMap) : option VersionSet :=
  match map with
  | [] => None
  | (k, s) :: map' => if str_eqb n k then Some s else assoc n map'
  end.

Definition Map_get (map : AdvisoryMap) (key : value) : option VersionSet :=
  match key with
  | JStr n => assoc n map
  | _ => None
  end.

Definition Map_has (map : AdvisoryMap) (key : value) : bool :=
  match Map_get map key with Some _ => true | None => false end.

(** [map.get(n).add(v)] for a key that is present. *)
Fixpoint Map_addTo (map : AdvisoryMap) (n v : jsstring) : AdvisoryMap :=
  match map with
  | [] => []
  | (k, s) :: map' =>
      if str_eqb n k then (k, Set_add s v) :: map'
      else (k, s) :: Map_addTo map' n v
  end.

Definition add (name version : value) (map : AdvisoryMap) : result AdvisoryMap :=
  if negb (ToBoolean name) || negb (ToBoolean version) then Ok map
  else
    n <- ToString name ;;
    v <- ToString version ;;
    let map1 := if negb (Map_has map (JStr n)) then map ++ [(n, [])] else map in
    Ok (Map_addTo map1 n v).

Definition addMany (name arr : value) (map : AdvisoryMap) : result AdvisoryMap :=
  if negb (ToBoolean name) || negb (Array_isArray arr) then Ok map
  else forOf (elements arr) (fun v => add name v) map.

(** [/\d+\.\d+\.\d+/.test(s)]. A run of digits has to be followed by a dot,
    so the only run that can match is the whole run. *)
Fixpoint skipDigits (s : jsstring) : jsstring :=
  match s with
  | c :: s' => if isDigit c then skipDigits s' else s
  | [] => []
  end.

Definition digitsDot (s : jsstring) : option jsstring :=
  match s with
  | c :: s' =>
      if isDigit c then
        match skipDigits s' with
        | 46%N :: r => Some r
        | _ => None
        end
      else None
  | [] => None
  end.

Definition semverAt (s : jsstring) : bool :=
  match digitsDot s with
  | Some r1 =>
      match digitsDot r1 with
      | Some (c :: _) => isDigit c
      | _ => false
      end
  | None => false
  end.

Fixpoint semverRegexTest (s : jsstring) : bool :=
  semverAt s || match s with
                | [] => false
                | _ :: s' => semverRegexTest s'
                end.

Definition isSemverish (s : value) : bool :=
  match s with
  | JStr t => semverRegexTest t
  | _ => false
  end.

(** [v.length && v.every(isSemverish)] for an array [v]. *)
Definition nonEmptyAllSemverish (v : value) : bool :=
  match elements v with
  | [] => false
  | l => forallb isSemverish l
  end.

(** [if (cond) step], for the five consecutive steps of [considerEntry]. *)
Definition when (cond : bool) (step : AdvisoryMap -> result AdvisoryMap)
  (map : AdvisoryMap) : result AdvisoryMap :=
  if cond then step map else Ok map.

Definition entryName (entry : value) : value :=
  orElse (get entry (str "name"))
    (orElse (get entry (str "package"))
       (orElse (get entry (str "package_name"))
          (orElse (get entry (str "pkg"))
             (orElse (get entry (str "module")) JNull)))).

Definition considerEntry (entry : value) (map : AdvisoryMap) : result AdvisoryMap :=
  if negb (ToBoolean entry) || negb (isObjectType entry) then Ok map
  else
    skip <- (if hasProperty (str "ecosystem") entry then
               e <- ToString (get entry (str "ecosystem")) ;;
               Ok (negb (str_eqb (toLowerCase e) (str "npm")))
             else Ok false) ;;
    if skip : bool then Ok map
    else
      let name := entryName entry in
      if ToBoolean name then
        m1 <- when (Array_isArray (get entry (str "versions")))
                (addMany name (get entry (str "versions"))) map ;;
        m2 <- when (Array_isArray (get entry (str "affected_versions")))
                (addMany name (get entry (str "affected_versions"))) m1 ;;
        m3 <- when (Array_isArray (get entry (str "affected")))
                (addMany name (get entry (str "affected"))) m2 ;;
        m4 <- when (isStringType (get entry (str "version")))
                (add name (get entry (str "version"))) m3 ;;
        when (isStringType (get entry (str "affected_version")))
          (add name (get entry (str "affected_version"))) m4
      else Ok map.

Definition containerKeys : list jsstring :=
  [str "npm"; str "packages"; str "package"; str "data"; str "malware";
   str "malware_predictions"].

(** The heuristic for an object under another key: its keys that hold
    non-empty arrays of version-like strings. *)
Definition nestedMapping (v : value) (map : AdvisoryMap) : result AdvisoryMap :=
  forOf (Object_entries v)
    (fun '(nk, nv) m =>
       if Array_isArray nv && nonEmptyAllSemverish nv then addMany (JStr nk) nv m
       else Ok m) map.

(** [walkObject(obj)]; [obj] is always a plain object, whose entries are its
    fields. This is the run on a call stack that has room for every level
    of containers; [walkObjectWithin], below, is the run on a given
    stack. *)
Fixpoint walkObject (obj : value) (map : AdvisoryMap) {struct obj}
  : result AdvisoryMap :=
  match obj with
  | JObj fields =>
      forOf fields
        (fun '(k, v) m =>
           if Array_isArray v then
             if nonEmptyAllSemverish v then addMany (JStr k) v m
             else forOf (elements v) considerEntry m
           else if ToBoolean v && isObjectType v then
             if existsb (str_eqb k) containerKeys then walkObject v m
             else nestedMapping v m
           else if isStringType v && isSemverish v then add (JStr k) v m
           else Ok m) map
  | _ => Ok map
  end.

Definition normalizeMalwareList (data : value) : result AdvisoryMap :=
  if Array_isArray data then forOf (elements data) considerEntry []
  else if ToBoolean data && isObjectType data then walkObject data []
  else Ok [].

(* ================================================================== *)
(** * [flattenPackages] *)


(** The set [seen] of keys and the array [results]. *)
Definition FlattenState : Type := (VersionSet * list InstalledPackage)%type.

(** The key [`${name}@${version}`]. *)
Definition packageKey (name version : value) : result jsstring :=
  n <- ToString name ;;
  v <- ToString version ;;
  Ok (n ++ str "@" ++ v).

Definition record (name version : value) (st : FlattenState) : result FlattenState :=
  if ToBoolean name && ToBoolean version then
    key <- packageKey name version ;;
    let '(seen, results) := st in
    if negb (Set_has seen (JStr key)) then
      Ok (Set_add seen key, results ++ [{| name := name; version := version |}])
    else Ok st
  else Ok st.

(** [present v] for the first field named [k], [absent] when there is none:
    the property read [obj.k], with the value handed to what uses it. *)
Definition withField {B : Type} (k : jsstring) (fields : list (jsstring * value))
  (absent : B) (present : value -> B) : B :=
  (fix find (fs : list (jsstring * value)) : B :=
     match fs with
     | [] => absent
     | (k', v) :: fs' => if str_eqb k k' then present v else find fs'
     end) fields.

(** [for (const [k, x] of Object.entries(v)) body(k, x)], an array being
    enumerated under its indices. *)
Definition forEntries {St : Type} (v : value)
  (body : jsstring -> value -> St -> result St) : St -> result St :=
  match v with
  | JObj fields => forOf fields (fun '(k, x) => body k x)
  | JArr items =>
      (fix loop (i : nat) (l : list value) (s : St) : result St :=
         match l with
         | [] => Ok s
         | x :: l' => s' <- body (natToString i) x s ;; loop (S i) l' s'
         end) 0%nat items
  | _ => fun s => Ok s
  end.

(** [visit(node, inferredName)]. A missing or falsy [dependencies] stands for
    the empty object; a truthy one that is not an object is passed over.
    This is the run on a call stack that has room for every level of
    dependencies; [visitWithin], below, is the run on a given stack. *)
Fixpoint visit (node : value) (inferredName : value) (st : FlattenState)
  {struct node} : result FlattenState :=
  if negb (ToBoolean node) || negb (isObjectType node) then Ok st
  else
    let name := orElse (get node (str "name")) inferredName in
    let version := get node (str "version") in
    st1 <- record name version st ;;
    match node with
    | JObj fields =>
        withField (str "dependencies") fields (Ok st1)
          (fun deps =>
             if ToBoolean deps && isObjectType deps then
               forEntries deps (fun depName child => visit child (JStr depName)) st1
             else Ok st1)
    | _ => Ok st1
    end.

(** The comparator of [results.sort]. *)
Definition cmpPackage (a b : InstalledPackage) : result number :=
  if strictEquals a.(name) b.(name) then cmpVer a.(version) b.(version)
  else callLocaleCompare a.(name) b.(name).

Definition flattenPackages (tree : value) : result (list InstalledPackage) :=
  st <- visit tree (get tree (str "name")) ([], []) ;;
  sort cmpPackage (snd st).

(* ================================================================== *)
(** * [scan] *)


(** The loop over [blocked], giving [isCritical] and [warnedAgainst]
    ([null] when no entry was taken). *)
Fixpoint scanBlocked (version : value) (pv : ParsedVersion)
  (patchDistance : number) (blocked : VersionSet) : bool * value :=
  match blocked with
  | [] => (false, JNull)
  | bver :: rest =>
      if strictEquals (JStr bver) version then (true, JNull)
      else
        match parseSemver (JStr bver) with
        | None => scanBlocked version pv patchDistance rest
        | Some bv =>
            if (major pv =? major bv) && (minor pv =? minor bv) then
              let delta := Math_abs (sub (patch pv) (patch bv)) in
              if number_leb delta patchDistance then (false, JStr bver)
              else scanBlocked version pv patchDistance rest
            else scanBlocked version pv patchDistance rest
        end
  end.

(** One turn of the loop over [installed]. *)
Definition scanPackage (malwareMap : AdvisoryMap) (patchDistance : number)
  (pkg : InstalledPackage) (findings : list Finding.t) : list Finding.t :=
  let name := pkg.(name) in
  let version := pkg.(version) in
  match Map_get malwareMap name with
  | None => findings
  | Some blocked =>
      let '(isCritical, warnedAgainst) :=
        if Set_has blocked version then (true, JNull)
        else
          match parseSemver version with
          | Some pv => scanBlocked version pv patchDistance blocked
          | None => (false, JNull)
          end in
      if isCritical then
        findings ++ [{| Finding.level := critical; Finding.name := name;
                        Finding.version := version; Finding.against := version |}]
      else if ToBoolean warnedAgainst then
        findings ++ [{| Finding.level := warning; Finding.name := name;
                        Finding.version := version; Finding.against := warnedAgainst |}]
      else findings
  end.

(** The comparator of [findings.sort]. *)
Definition cmpFinding (a b : Finding.t) : result number :=
  if negb (Level_eqb a.(Finding.level) b.(Finding.level)) then
    Ok (ofZ (match a.(Finding.level) with critical => -1 | warning => 1 end))
  else if negb (strictEquals a.(Finding.name) b.(Finding.name)) then
    callLocaleCompare a.(Finding.name) b.(Finding.name)
  else cmpVer a.(Finding.version) b.(Finding.version).

Definition scan (installed : list InstalledPackage) (malwareMap : AdvisoryMap)
  (patchDistance : number) : result (list Finding.t) :=
  let findings :=
    fold_left (fun fs pkg => scanPackage malwareMap patchDistance pkg fs)
      installed [] in
  sort cmpFinding findings.

End WithHost.

(* ================================================================== *)
(** * The call stack *)

(** [walkObject] and [visit] call themselves once for every level of nesting
    of their argument, and the engine throws a RangeError when a call finds
    the call stack full. [stack] is the number of nested activations of the
    function for which the stack has room; what an activation calls besides
    nests to a fixed depth and is taken to fit with it. *)
Section Stack.
Context {H : Host}.

Fixpoint walkObjectWithin (stack : nat) (obj : value) (map : AdvisoryMap)
  {struct stack} : result AdvisoryMap :=
  match stack with
  | O => Throw RangeError
  | S stack' =>
      match obj with
      | JObj fields =>
          forOf fields
            (fun '(k, v) m =>
               if Array_isArray v then
                 if nonEmptyAllSemverish v then addMany (JStr k) v m
                 else forOf (elements v) considerEntry m
               else if ToBoolean v && isObjectType v then
                 if existsb (str_eqb k) containerKeys then walkObjectWithin stack' v m
                 else nestedMapping v m
               else if isStringType v && isSemverish v then add (JStr k) v m
               else Ok m) map
      | _ => Ok map
      end
  end.

Definition normalizeMalwareListWithin (stack : nat) (data : value)
  : result AdvisoryMap :=
  if Array_isArray data then forOf (elements data) considerEntry []
  else if ToBoolean data && isObjectType data then walkObjectWithin stack data []
  else Ok [].

Fixpoint visitWithin (stack : nat) (node : value) (inferredName : value)
  (st : FlattenState) {struct stack} : result FlattenState :=
  match stack with
  | O => Throw RangeError
  | S stack' =>
      if negb (ToBoolean node) || negb (isObjectType node) then Ok st
      else
        let name := orElse (get node (str "name")) inferredName in
        let version := get node (str "version") in
        st1 <- record name version st ;;
        let deps := orElse (get node (str "dependencies")) (JObj []) in
        if ToBoolean deps && isObjectType deps then
          forEntries deps
            (fun depName child => visitWithin stack' child (JStr depName)) st1
        else Ok st1
  end.

Definition flattenPackagesWithin (stack : nat) (tree : value)
  : result (list InstalledPackage) :=
  st <- visitWithin stack tree (get tree (str "name")) ([], []) ;;
  sort cmpPackage (snd st).

End Stack.

(* ================================================================== *)
(** * A reference host *)

(** Strings ordered by their code units. *)
Fixpoint codeUnitCompare (a b : jsstring) : Z :=
  match a, b with
  | [], [] => 0
  | [], _ :: _ => -1
  | _ :: _, [] => 1
  | x :: a', y :: b' =>
      if (x <? y)%N then -1
      else if (y <? x)%N then 1
      else codeUnitCompare a' b'
  end.

(** Decimal text of an integer-valued number; other numbers are not
    formatted by this host. *)
Definition integerToString (x : number) : jsstring :=
  match toInteger x with
  | Some z =>
      (if z <? 0 then str "-" else []) ++ natToString (Z.to_nat (Z.abs z))
  | None => str "NaN"
  end.

#[export] Instance codeUnitHost : Host :=
  {| numberToString := integerToString; localeCompare := codeUnitCompare |}.

(** Strings ordered by their code units once ASCII letters are put in lower
    case: a collation that ignores case, as [localeCompare] does at base
    sensitivity. It gives 0 on the different strings [a] and [A]. *)
Definition caseFoldingCompare (a b : jsstring) : Z :=
  codeUnitCompare (toLowerCase a) (toLowerCase b).

Definition caseFoldingHost : Host :=
  {| numberToString := integerToString; localeCompare := caseFoldingCompare |}.

(* ================================================================== *)
(** * [printFindings] and [main] *)

(** ** Standard output *)

(** A computation that writes lines to standard output and then returns
    or throws; the lines written before a throw stay written. What goes to
    standard error is left out. *)
Definition console (A : Type) : Type := (list jsstring * result A)%type.

Definition pure {A : Type} (a : A) : console A := ([], Ok a).

Definition lift {A : Type} (r : result A) : console A := ([], r).

Definition console_log (line : jsstring) : console unit := ([line], Ok tt).

Definition bindConsole {A B : Type} (m : console A) (k : A -> console B)
  : console B :=
  match m with
  | (out, Ok a) => let '(out', r) := k a in (out ++ out', r)
  | (out, Throw e) => (out, Throw e)
  end.

Notation "x <~ m ;; k" := (bindConsole m (fun x => k))
  (at level 61, m at next level, right associativity).

Definition forOfConsole {A St : Type} (l : list A) (body : A -> St -> console St)
  : St -> console St :=
  (fix loop (l : list A) (s : St) : console St :=
     match l with
     | [] => pure s
     | x :: l' => s' <~ body x s ;; loop l' s'
     end) l.

(** ** [colors] *)

(** [wrap(codeStart)(s)] for a string [s]; [noColor] is [!!process.env.NO_COLOR]. *)
Definition wrap (noColor : bool) (codeStart : jsstring) (s : jsstring) : jsstring :=
  if noColor then s
  else [27%N] ++ str "[" ++ codeStart ++ str "m" ++ s ++ [27%N] ++ str "[0m".

Definition red (noColor : bool) : jsstring -> jsstring := wrap noColor (str "31").
Definition yellow (noColor : bool) : jsstring -> jsstring := wrap noColor (str "33").
Definition green (noColor : bool) : jsstring -> jsstring := wrap noColor (str "32").
Definition bold (noColor : bool) : jsstring -> jsstring := wrap noColor (str "1").

(** ** The statistics *)

(** A [Set] of values in insertion order, under SameValueZero. Arrays and
    objects are compared by reference, and the values added come from
    different places of a decoded document. *)
Definition sameValueZero (a b : value) : bool :=
  match a, b with
  | JNum NaN, JNum NaN => true
  | _, _ => strictEquals a b
  end.

Definition ValueSet := list value.

Definition ValueSet_has (s : ValueSet) (v : value) : bool :=
  existsb (sameValueZero v) s.

Definition ValueSet_add (s : ValueSet) (v : value) : ValueSet :=
  if ValueSet_has s v then s else s ++ [v].

Module Present.
Record info : Type := { installed : ValueSet; affected : VersionSet }.
End Present.

(** The [Map] [present], its keys being strings. *)
Definition PresentMap := list (jsstring * Present.info).

Fixpoint Present_get (n : jsstring) (present : PresentMap) : option Present.info :=
  match present with
  | [] => None
  | (k, i) :: present' => if str_eqb n k then Some i else Present_get n present'
  end.

(** [present.get(n).installed.add(v)]. *)
Fixpoint Present_addInstalled (present : PresentMap) (n : jsstring) (v : value)
  : PresentMap :=
  match present with
  | [] => []
  | (k, i) :: present' =>
      if str_eqb n k then
        (k, {| Present.installed := ValueSet_add i.(Present.installed) v;
               Present.affected := i.(Present.affected) |}) :: present'
      else (k, i) :: Present_addInstalled present' n v
  end.

(** The object [stats]; a field is [None] when it does not pass the test
    [printFindings] makes on it (a number, a [Map]). *)
Module Stats.
Record t : Type :=
  { totalPackages : option number;
    uniqueNames : option number;
    present : option PresentMap;
    dbNames : option number }.
End Stats.

Section Report.
Context {H : Host}.

(** ** Arrays *)

(** [arr.join(sep)]. *)
Fixpoint Array_join (sep : jsstring) (l : list value) : result jsstring :=
  match l with
  | [] => Ok []
  | x :: l' =>
      s <- match x with
           | Undefined | JNull => Ok []
           | _ => ToString x
           end ;;
      match l' with
      | [] => Ok s
      | _ => r <- Array_join sep l' ;; Ok (s ++ sep ++ r)
      end
  end.

Definition isUndefined (v : value) : bool :=
  match v with Undefined => true | _ => false end.

(** [arr.sort(comparefn)] on an array of values: the comparator is not
    called on [undefined], which goes to the end. *)
Definition Array_sort (comparefn : value -> value -> result number)
  (l : list value) : result (list value) :=
  r <- sort comparefn (filter (fun v => negb (isUndefined v)) l) ;;
  Ok (r ++ filter isUndefined l).

(** The comparator of [sort()] without an argument, on strings: by code
    units. *)
Definition defaultCompare (a b : jsstring) : result number :=
  Ok (ofZ (codeUnitCompare a b)).

(** ** [printFindings] *)

(** A counter, as the text a template puts in. *)
Definition countText (n : nat) : jsstring := numberToString (ofZ (Z.of_nat n)).

(** One turn of the loop over [findings], on the counters
    [(criticals, warnings)]. *)
Definition printFinding (noColor : bool) (patchDistance : number)
  (f : Finding.t) (counts : nat * nat) : console (nat * nat) :=
  let '(criticals, warnings) := counts in
  match f.(Finding.level) with
  | critical =>
      line <~ lift (n <- ToString f.(Finding.name) ;;
                    v <- ToString f.(Finding.version) ;;
                    a <- ToString f.(Finding.against) ;;
                    Ok (red noColor (str "CRITICAL") ++ str ": " ++ n ++ str "@" ++ v
                        ++ str " matches blocked " ++ a)) ;;
      _ <~ console_log line ;;
      pure (S criticals, warnings)
  | warning =>
      line <~ lift (n <- ToString f.(Finding.name) ;;
                    v <- ToString f.(Finding.version) ;;
                    a <- ToString f.(Finding.against) ;;
                    Ok (yellow noColor (str "WARNING") ++ str ": " ++ n ++ str "@" ++ v
                        ++ str " adjacent to blocked " ++ a
                        ++ str " (patch distance " ++ numberToString patchDistance
                        ++ str ")")) ;;
      _ <~ console_log line ;;
      pure (criticals, S warnings)
  end.

Definition printSummary (noColor : bool) (counts : nat * nat) : console unit :=
  let '(criticals, warnings) := counts in
  if Nat.eqb criticals 0 && Nat.eqb warnings 0 then
    console_log (green noColor (str "No critical or adjacent versions found."))
  else
    let summary :=
      str "Summary: " ++ countText criticals ++ str " critical, "
      ++ countText warnings ++ str " warning"
      ++ (if Nat.eqb warnings 1 then [] else str "s") in
    console_log (if Nat.ltb 0 criticals then red noColor summary
                 else yellow noColor summary).

(** The line [INFO ...] of one name of [present]. *)
Definition printPresentName (present : PresentMap) (name : jsstring)
  : console unit :=
  match Present_get name present with
  | Some info =>
      installed <~ lift (Array_sort cmpVer info.(Present.installed)) ;;
      affected <~ lift (Array_sort cmpVer (List.map JStr info.(Present.affected))) ;;
      installedStr <~ lift (Array_join (str ", ") installed) ;;
      affectedHead <~ lift (Array_join (str ", ") (firstn 5 affected)) ;;
      let affectedStr :=
        affectedHead
        ++ (if Nat.ltb 5 (List.length affected) then str ", " ++ [8230%N] else []) in
      console_log (str "INFO " ++ name ++ str " installed " ++ installedStr
                   ++ str "; affected: " ++ affectedStr)
  | None => lift (Throw TypeError)
  end.

Definition printPresent (present : PresentMap) : console unit :=
  presentNames <~ lift (sort defaultCompare (List.map fst present)) ;;
  _ <~ console_log (str "DB packages present: "
                    ++ countText (List.length presentNames)) ;;
  forOfConsole presentNames (fun name _ => printPresentName present name) tt.

Definition printStats (stats : option Stats.t) : console unit :=
  match stats with
  | Some st =>
      _ <~ match st.(Stats.totalPackages), st.(Stats.uniqueNames) with
           | Some total, Some names =>
               console_log (str "Scanned " ++ numberToString total
                            ++ str " packages (" ++ numberToString names
                            ++ str " names).")
           | _, _ => pure tt
           end ;;
      _ <~ match st.(Stats.dbNames) with
           | Some names => console_log (str "DB package names: " ++ numberToString names)
           | None => pure tt
           end ;;
      match st.(Stats.present) with
      | Some present => printPresent present
      | None => pure tt
      end
  | None => pure tt
  end.

(** [printFindings(findings, patchDistance, stats)], returning
    [(criticals, warnings)]. *)
Definition printFindings (noColor : bool) (findings : list Finding.t)
  (patchDistance : number) (stats : option Stats.t) : console (nat * nat) :=
  counts <~ forOfConsole findings (printFinding noColor patchDistance) (0%nat, 0%nat) ;;
  _ <~ printSummary noColor counts ;;
  _ <~ printStats stats ;;
  pure counts.

(** ** [main] *)

(** The loop of [main] that fills [present]. *)
Definition presentStep (malwareMap : AdvisoryMap) (present : PresentMap)
  (pkg : InstalledPackage) : PresentMap :=
  match pkg.(name), Map_get malwareMap pkg.(name) with
  | JStr n, Some blocked =>
      let present1 :=
        match Present_get n present with
        | Some _ => present
        | None => present ++ [(n, {| Present.installed := [];
                                     Present.affected := blocked |})]
        end in
      Present_addInstalled present1 n pkg.(version)
  | _, _ => present
  end.

(** [new Set(installed.map(p => p.name)).size]. *)
Definition countNames (installed : list InstalledPackage) : nat :=
  List.length (fold_left ValueSet_add (List.map name installed) []).

(** The body of the [try] block once the feed and the tree are loaded; it
    returns [criticals]. *)
Definition scanAndReport (noColor : bool) (patchDistance : number)
  (malwareRaw tree : value) : console nat :=
  malwareMap <~ lift (normalizeMalwareList malwareRaw) ;;
  installed <~ lift (flattenPackages tree) ;;
  findings <~ lift (scan installed malwareMap patchDistance) ;;
  let present := fold_left (presentStep malwareMap) installed [] in
  let stats :=
    {| Stats.totalPackages := Some (ofZ (Z.of_nat (List.length installed)));
       Stats.uniqueNames := Some (ofZ (Z.of_nat (countNames installed)));
       Stats.present := Some present;
       Stats.dbNames := Some (ofZ (Z.of_nat (List.length malwareMap))) |} in
  counts <~ printFindings noColor findings patchDistance (Some stats) ;;
  pure (fst counts).

End Report.

(** The two environment variables [main] and [colors] read; [None] is a
    variable that is not set. *)
Record Env : Type :=
  { WORMSCAN_PATCH_DISTANCE : option jsstring;
    NO_COLOR : option jsstring }.

(** The threshold [main] computes from [WORMSCAN_PATCH_DISTANCE]. *)
Definition patchDistanceFromEnv (raw : option jsstring) : number :=
  match raw with
  | None => ofZ 1
  | Some raw =>
      if str_eqb raw [] then ofZ 1
      else
        let n := StringToNumber raw in
        match toInteger n with
        | Some _ => if number_leb zero n then n else ofZ 1
        | None => ofZ 1
        end
  end.

(** [!!process.env.NO_COLOR]. *)
Definition noColorFromEnv (raw : option jsstring) : bool :=
  match raw with
  | Some (_ :: _) => true
  | _ => false
  end.

(** [main], given what [fetchMalwareList()] and [readNpmTree()] resolved to
    ([None] for a load that failed): the lines on standard output and the
    exit code. *)
Definition main {H : Host} (env : Env) (malwareRaw tree : option value)
  : list jsstring * Z :=
  let patchDistance := patchDistanceFromEnv env.(WORMSCAN_PATCH_DISTANCE) in
  let noColor := noColorFromEnv env.(NO_COLOR) in
  match malwareRaw, tree with
  | Some malwareRaw, Some tree =>
      match scanAndReport noColor patchDistance malwareRaw tree with
      | (out, Ok criticals) => (out, if Nat.ltb 0 criticals then 2 else 0)
      | (out, Throw _) => (out, 1)
      end
  | _, _ => ([], 1)
  end.

(* ================================================================== *)
(** * Vocabulary of the specification *)

(** The sign of what a comparator returned, when it returned. *)
Definition resultSign (r : result number) : option Z :=
  match r with
  | Ok c => Some (sign c)
  | Throw _ => None
  end.

(** Major, then minor, then patch, the first unequal field deciding. *)
Definition compareParsed (pa pb : ParsedVersion) : Z :=
  if negb (major pa =? major pb) then Z.sgn (major pa - major pb)
  else if negb (minor pa =? minor pb) then Z.sgn (minor pa - minor pb)
  else Z.sgn (patch pa - patch pb).

(** The comparator of the specification on two version strings: parsed
    versions by their fields, a parsed one before an unparsed one, unparsed
    ones by string comparison. *)
Definition versionOrder {H : Host} (a b : jsstring) : Z :=
  match parseSemver (JStr a), parseSemver (JStr b) with
  | Some pa, Some pb => compareParsed pa pb
  | Some _, None => -1
  | None, Some _ => 1
  | None, None => Z.sgn (localeCompare a b)
  end.

(** A number that is not negative. *)
Definition nonNegative (x : number) : Prop :=
  match x with
  | NaN => True
  | Infinity s => s = false
  | Finite m _ => 0 <= m
  end.

(** Whether the advisory version [bver] parses, has the major and the minor
    of [pv], and a patch at most [patchDistance] away from the patch of [pv]. *)
Definition adjacent (pv : ParsedVersion) (patchDistance : number)
  (bver : jsstring) : bool :=
  match parseSemver (JStr bver) with
  | Some bv =>
      (major pv =? major bv) && (minor pv =? minor bv)
      && number_leb (Math_abs (sub (patch pv) (patch bv))) patchDistance
  | None => false
  end.

(** The matching rule of the specification for one installed version and
    the advisory set of its name: the level and the matched version. *)
Definition classify (blocked : VersionSet) (version : value)
  (patchDistance : number) : option (Level * value) :=
  if Set_has blocked version then Some (critical, version)
  else
    match parseSemver version with
    | Some pv =>
        match find (fun bver => strictEquals (JStr bver) version
                                || adjacent pv patchDistance bver) blocked with
        | Some bver =>
            if strictEquals (JStr bver) version then Some (critical, version)
            else Some (warning, JStr bver)
        | None => None
        end
    | None => None
    end.

(** The findings one installed package gives rise to: none or one. *)
Definition packageFindings (malwareMap : AdvisoryMap) (patchDistance : number)
  (pkg : InstalledPackage) : list Finding.t :=
  match Map_get malwareMap pkg.(name) with
  | Some blocked =>
      match classify blocked pkg.(version) patchDistance with
      | Some (lvl, ag) =>
          [{| Finding.level := lvl; Finding.name := pkg.(name);
              Finding.version := pkg.(version); Finding.against := ag |}]
      | None => []
      end
  | None => []
  end.

(** A finding whose name and version are strings. *)
Definition stringFinding (f : Finding.t) : Prop :=
  isStringType f.(Finding.name) = true /\ isStringType f.(Finding.version) = true.

(** [x] is not after [y] for a comparator: it returns, and not a positive
    number. *)
Definition notAfter {A : Type} (comparefn : A -> A -> result number)
  (x y : A) : Prop :=
  exists c, comparefn x y = Ok c /\ sign c <= 0.




(** The package names an advisory map has. *)
Definition Map_keys (map : AdvisoryMap) : list jsstring := List.map fst map.

(** The lists [f k x] for the entries of an object or an array, in order. *)
Definition entriesFlatMap {B : Type} (v : value)
  (f : jsstring -> value -> list B) : list B :=
  match v with
  | JObj fields => flat_map (fun '(k, x) => f k x) fields
  | JArr items =>
      (fix loop (i : nat) (l : list value) : list B :=
         match l with
         | [] => []
         | x :: l' => f (natToString i) x ++ loop (S i) l'
         end) 0%nat items
  | _ => []
  end.

(** The (name, version) pairs observed in a dependency graph, in the order
    of the traversal: at every node reached through [dependencies], its own
    name or else the key it was reached under, and its version, when both
    are truthy. *)
Fixpoint observed (node inferredName : value) {struct node}
  : list InstalledPackage :=
  if negb (ToBoolean node) || negb (isObjectType node) then []
  else
    let name := orElse (get node (str "name")) inferredName in
    let version := get node (str "version") in
    (if ToBoolean name && ToBoolean version
     then [{| name := name; version := version |}] else [])
    ++ match node with
       | JObj fields =>
           withField (str "dependencies") fields []
             (fun deps =>
                if ToBoolean deps && isObjectType deps then
                  entriesFlatMap deps
                    (fun depName child => observed child (JStr depName))
                else [])
       | _ => []
       end.

(** The pairs observed from the root. *)
Definition observedIn (tree : value) : list InstalledPackage :=
  observed tree (get tree (str "name")).

(** Recording one pair, as [visit] does at a node. *)
Definition recordPair {H : Host} (p : InstalledPackage) (st : FlattenState)
  : result FlattenState :=
  record p.(name) p.(version) st.

(** The key of a pair, when its name and version convert to strings. *)
Definition keyOf {H : Host} (p : InstalledPackage) : jsstring :=
  match packageKey p.(name) p.(version) with
  | Ok k => k
  | Throw _ => []
  end.

(** A pair the flattener can handle: the name is a string and the version
    converts to a string. *)
Definition stringNamed {H : Host} (p : InstalledPackage) : Prop :=
  isStringType p.(name) = true /\ exists s, ToString p.(version) = Ok s.

(** The order of the specification on two values taken as versions. *)
Definition valueOrder {H : Host} (a b : value) : Z :=
  match parseSemver a, parseSemver b with
  | Some pa, Some pb => compareParsed pa pb
  | Some _, None => -1
  | None, Some _ => 1
  | None, None =>
      match ToString a, ToString b with
      | Ok sa, Ok sb => Z.sgn (localeCompare sa sb)
      | _, _ => 0
      end
  end.

(** The order of the specification on two installed packages with string
    names: by name, and for one name by version. *)
Definition packageOrder {H : Host} (a b : InstalledPackage) : Z :=
  match a.(name), b.(name) with
  | JStr an, JStr bn =>
      if str_eqb an bn then valueOrder a.(version) b.(version)
      else Z.sgn (localeCompare an bn)
  | _, _ => 0
  end.

(** The collation tells the names of the given packages apart. *)
Definition namesSeparated {H : Host} (l : list InstalledPackage) : Prop :=
  forall p q an bn,
    In p l -> In q l -> p.(name) = JStr an -> q.(name) = JStr bn ->
    localeCompare an bn = 0 -> an = bn.

(** The set [seen] holds the keys of [results], each once. *)
Definition seenIsKeys {H : Host} (st : FlattenState) : Prop :=
  fst st = List.map keyOf (snd st) /\ NoDup (fst st).

(** By name, and for one name by version. *)
Definition byNameThenVersion {H : Host} (a b : InstalledPackage) : Prop :=
  exists an bn,
    a.(name) = JStr an /\ b.(name) = JStr bn /\
    (localeCompare an bn < 0
     \/ (an = bn /\ notAfter cmpVer a.(version) b.(version))).

(** The values directly inside a value. *)
Definition children (v : value) : list value :=
  match v with
  | JArr items => items
  | JObj fields => List.map snd fields
  | _ => []
  end.

(** Example inputs. *)
Definition collidingTree : value :=
  JObj [(str "dependencies",
         JObj [(str "x", JObj [(str "name", JStr (str "a"));
                               (str "version", JStr (str "b@1"))]);
               (str "y", JObj [(str "name", JStr (str "a@b"));
                               (str "version", JStr (str "1"))])])].

Definition numericNamesTree : value :=
  JObj [(str "dependencies",
         JObj [(str "x", JObj [(str "name", JNum (ofZ 1));
                               (str "version", JStr (str "1.0.0"))]);
               (str "y", JObj [(str "name", JNum (ofZ 2));
                               (str "version", JStr (str "1.0.0"))])])].

Definition toStringNameFeed : value :=
  JArr [JObj [(str "name", JObj [(str "toString", JNum (ofZ 1))]);
              (str "version", JStr (str "1.0.0"))]].

Definition sampleTree : value :=
  JObj [(str "name", JStr (str "root")); (str "version", JStr (str "0.1.0"));
        (str "dependencies",
         JObj [(str "b", JObj [(str "version", JStr (str "1.10.0"))]);
               (str "a", JObj [(str "name", JStr (str "a"));
                               (str "version", JStr (str "1.0.0"));
                               (str "dependencies",
                                JObj [(str "b", JObj [(str "version",
                                                       JStr (str "1.9.0"))])])]);
               (str "c", JObj [(str "name", JStr (str "b"));
                               (str "version", JStr (str "1.10.0"))])])].

(** The fact (package name, version) is in the map. *)
Definition hasFact (map : AdvisoryMap) (n v : jsstring) : bool :=
  match Map_get map (JStr n) with
  | Some s => Set_has s (JStr v)
  | None => false
  end.

(** A map as [Map] and [Set] keep it: every key once, and under every key a
    set that is not empty and holds every version once. *)
Definition wellFormedMap (map : AdvisoryMap) : Prop :=
  NoDup (Map_keys map) /\
  Forall (fun kv => snd kv <> [] /\ NoDup (snd kv)) map.

(** The installed package a finding reports. *)
Definition reported (f : Finding.t) : InstalledPackage :=
  {| name := f.(Finding.name); version := f.(Finding.version) |}.

(** Criticals first; within a level by name, and for one name by version. *)
Definition byLevelNameVersion {H : Host} (a b : Finding.t) : Prop :=
  (a.(Finding.level) = critical /\ b.(Finding.level) = warning)
  \/ (a.(Finding.level) = b.(Finding.level)
      /\ byNameThenVersion (reported a) (reported b)).

(** The order of the comparator of [findings.sort] on findings with string
    names and versions. *)
Definition findingOrder {H : Host} (a b : Finding.t) : Z :=
  if negb (Level_eqb a.(Finding.level) b.(Finding.level)) then
    match a.(Finding.level) with critical => -1 | warning => 1 end
  else packageOrder (reported a) (reported b).

(** Criticals, then warnings. *)
Definition leveled (l : list Finding.t) : Prop :=
  exists criticals warnings,
    l = criticals ++ warnings /\
    Forall (fun f => f.(Finding.level) = critical) criticals /\
    Forall (fun f => f.(Finding.level) = warning) warnings.

(** How often a code unit occurs in a string. *)
Definition occurrences (c : char) (s : jsstring) : nat :=
  List.length (filter (N.eqb c) s).

(** The text [M.m.p] of three natural numbers. *)
Definition formatVersion (M m p : nat) : jsstring :=
  natToString M ++ 46%N :: natToString m ++ 46%N :: natToString p.

(** Reading back, with [spanDigits], the digits of a number. *)
Definition readsAs (ds : jsstring) (n : Z) : Prop :=
  forall r a l,
    spanDigits 10 (ds ++ r) a l
    = spanDigits 10 r (a * 10 ^ Z.of_nat (List.length ds) + n)
        (l + Z.of_nat (List.length ds)).

(** How many findings have the level. *)
Definition countLevel (lvl : Level) (findings : list Finding.t) : nat :=
  List.length (filter (fun f => Level_eqb f.(Finding.level) lvl) findings).

(** A value that [String] converts without a throw. *)
Definition convertible {H : Host} (v : value) : Prop :=
  exists s, ToString v = Ok s.

(** A finding whose three fields are strings, as [scan] makes them. *)
Definition printable (f : Finding.t) : Prop :=
  isStringType f.(Finding.name) = true /\
  isStringType f.(Finding.version) = true /\
  isStringType f.(Finding.against) = true.

(** An installed package whose name and version [String] converts. *)
Definition convertiblePackage {H : Host} (p : InstalledPackage) : Prop :=
  convertible p.(name) /\ convertible p.(version).

(** The versions kept in [present] all convert to strings. *)
Definition presentConvertible {H : Host} (present : PresentMap) : Prop :=
  Forall (fun kv => Forall convertible (snd kv).(Present.installed)) present.

(** Both loads succeeded, and the feed and the tree were taken in without
    a throw, giving the advisory map and the installed packages. *)
Definition analysed {H : Host} (malwareRaw tree : option value)
  (malwareMap : AdvisoryMap) (installed : list InstalledPackage) : Prop :=
  exists raw t,
    malwareRaw = Some raw /\ tree = Some t /\
    normalizeMalwareList raw = Ok malwareMap /\ flattenPackages t = Ok installed.

(** The version of the package is in the advisory set of its name. *)
Definition exactMatch (malwareMap : AdvisoryMap) (pkg : InstalledPackage) : bool :=
  match Map_get malwareMap pkg.(name) with
  | Some blocked => Set_has blocked pkg.(version)
  | None => false
  end.

(** Example inputs of [main]. *)
Definition evilFeed : value :=
  JArr [JObj [(str "name", JStr (str "evil"));
              (str "versions", JArr [JStr (str "1.2.3")])]].

Definition evilTree : value :=
  JObj [(str "name", JStr (str "root")); (str "version", JStr (str "0.1.0"));
        (str "dependencies",
         JObj [(str "evil", JObj [(str "version", JStr (str "1.2.3"))])])].

Definition plainEnv : Env :=
  {| WORMSCAN_PATCH_DISTANCE := None; NO_COLOR := None |}.

(** A step on the map whose outcome on any map is its outcome on the empty
    map, joined to that map: it throws exactly when it throws on the empty
    map, and otherwise it adds the facts it puts into the empty map. *)
Definition additive (step : AdvisoryMap -> result AdvisoryMap) : Prop :=
  forall m,
    match step [] with
    | Ok m0 =>
        exists m1, step m = Ok m1 /\
                   forall k x, hasFact m1 k x = hasFact m k x || hasFact m0 k x
    | Throw e => step m = Throw e
    end.

(** The depth of nesting of a value: 1 for a value that holds no other. *)
Fixpoint height (v : value) : nat :=
  match v with
  | JArr items => S (fold_right (fun x n => Nat.max (height x) n) 0%nat items)
  | JObj fields => S (fold_right (fun kv n => Nat.max (height (snd kv)) n) 0%nat fields)
  | _ => 1%nat
  end.

(** The values a record hands to [add] as versions, in order: the elements
    of [versions], [affected_versions] and [affected] where these are
    arrays, then [version] and [affected_version] where these are strings. *)
Definition candidateVersions (entry : value) : list value :=
  elements (get entry (str "versions"))
  ++ elements (get entry (str "affected_versions"))
  ++ elements (get entry (str "affected"))
  ++ (if isStringType (get entry (str "version"))
      then [get entry (str "version")] else [])
  ++ (if isStringType (get entry (str "affected_version"))
      then [get entry (str "affected_version")] else []).

(** The record is passed over for its ecosystem tag. *)
Definition filteredOut {H : Host} (entry : value) : bool :=
  if hasProperty (str "ecosystem") entry then
    match ToString (get entry (str "ecosystem")) with
    | Ok e => negb (str_eqb (toLowerCase e) (str "npm"))
    | Throw _ => false
    end
  else false.

(** Every conversion [considerEntry] makes on the record succeeds: that of
    the ecosystem tag when there is one, and, when the record is not passed
    over and has a name, those of the name and of each truthy version
    handed to [add]. *)
Definition recordConverts {H : Host} (entry : value) : Prop :=
  ToBoolean entry && isObjectType entry = true ->
  (hasProperty (str "ecosystem") entry = true ->
   convertible (get entry (str "ecosystem"))) /\
  (filteredOut entry = false -> ToBoolean (entryName entry) = true ->
   Forall (fun v => ToBoolean v = true ->
                    convertible (entryName entry) /\ convertible v)
     (candidateVersions entry)).

(** The records [walkObject] hands to [considerEntry]: the elements of the
    arrays that are not arrays of versions, under any key, at any depth of
    containers. *)
Fixpoint walkRecords (obj : value) : list value :=
  match obj with
  | JObj fields =>
      flat_map (fun '(k, v) =>
                  if Array_isArray v then
                    if nonEmptyAllSemverish v then [] else elements v
                  else if ToBoolean v && isObjectType v then
                    if existsb (str_eqb k) containerKeys then walkRecords v else []
                  else []) fields
  | _ => []
  end.

(** The records [normalizeMalwareList] hands to [considerEntry]. *)
Definition records (data : value) : list value :=
  if Array_isArray data then elements data
  else if ToBoolean data && isObjectType data then walkRecords data
  else [].

(** The comparator of [results.sort] finds a string wherever it calls
    [localeCompare]: of two different pairs whose names differ, the name
    on the left is a string. *)
Definition comparableNames (l : list InstalledPackage) : Prop :=
  forall p q, In p l -> In q l -> p <> q ->
              strictEquals p.(name) q.(name) = true \/ isStringType p.(name) = true.

(** A feed whose top-level object has a key [toString]. *)
Definition toStringKeyFeed : value :=
  JObj [(str "toString", JArr [JStr (str "1.0.0")])].

(** A tree of one package, whose name is a number. *)
Definition numericNameTree : value :=
  JObj [(str "name", JNum (ofZ 1)); (str "version", JStr (str "1.0.0"))].

(** The line of a finding whose three fields are strings. *)
Definition findingLine {H : Host} (noColor : bool) (patchDistance : number)
  (f : Finding.t) : jsstring :=
  match f.(Finding.name), f.(Finding.version), f.(Finding.against) with
  | JStr n, JStr v, JStr a =>
      match f.(Finding.level) with
      | critical =>
          red noColor (str "CRITICAL") ++ str ": " ++ n ++ str "@" ++ v
          ++ str " matches blocked " ++ a
      | warning =>
          yellow noColor (str "WARNING") ++ str ": " ++ n ++ str "@" ++ v
          ++ str " adjacent to blocked " ++ a
          ++ str " (patch distance " ++ numberToString patchDistance ++ str ")"
      end
  | _, _, _ => []
  end.

(** The line after the findings: that nothing was found, in green, or the
    two counts, in red when there is a critical finding and in yellow when
    there is none. *)
Definition summaryLine {H : Host} (noColor : bool) (criticals warnings : nat)
  : jsstring :=
  if Nat.eqb criticals 0 && Nat.eqb warnings 0 then
    green noColor (str "No critical or adjacent versions found.")
  else
    (if Nat.ltb 0 criticals then red noColor else yellow noColor)
      (str "Summary: " ++ countText criticals ++ str " critical, "
       ++ countText warnings ++ str " warning"
       ++ (if Nat.eqb warnings 1 then [] else str "s")).

Definition scannedLine {H : Host} (packages names : nat) : jsstring :=
  str "Scanned " ++ countText packages ++ str " packages ("
  ++ countText names ++ str " names).".

Definition dbNamesLine {H : Host} (names : nat) : jsstring :=
  str "DB package names: " ++ countText names.

Definition presentLine {H : Host} (names : nat) : jsstring :=
  str "DB packages present: " ++ countText names.

(** [line] is the line [INFO] of the name: its installed versions as
    [sort(cmpVer)] arranges them, joined by a comma and a space, and the
    first five of its affected versions, arranged and joined in the same
    way, with an ellipsis when there are more. *)
Definition infoLineOf {H : Host} (present : PresentMap) (name : jsstring)
  (line : jsstring) : Prop :=
  exists info installed affected installedStr affectedStr,
    Present_get name present = Some info /\
    Array_sort cmpVer info.(Present.installed) = Ok installed /\
    Permutation info.(Present.installed) installed /\
    Array_sort cmpVer (List.map JStr info.(Present.affected)) = Ok affected /\
    Permutation (List.map JStr info.(Present.affected)) affected /\
    Array_join (str ", ") installed = Ok installedStr /\
    Array_join (str ", ") (firstn 5 affected) = Ok affectedStr /\
    line = str "INFO " ++ name ++ str " installed " ++ installedStr
           ++ str "; affected: " ++ affectedStr
           ++ (if Nat.ltb 5 (List.length affected) then str ", " ++ [8230%N] else []).

(** Strings in ascending order of their code units. *)
Definition ascending (names : list jsstring) : Prop :=
  StronglySorted (fun a b => codeUnitCompare a b <= 0) names.

(* ================================================================== *)
(** * Theorems *)

(** ** Strings *)

Lemma str_eqb_eq (a b : jsstring) : str_eqb a b = true <-> a = b.
Proof.
  revert b; induction a as [|x a IH]; intros [|y b]; simpl;
    try (split; [discriminate | discriminate]); try tauto.
  rewrite andb_true_iff, N.eqb_eq, IH.
  split; [intros [-> ->]; reflexivity | intros E; injection E; auto].
Qed.

Lemma str_eqb_refl (a : jsstring) : str_eqb a a = true.
Proof. apply str_eqb_eq; reflexivity. Qed.

Lemma str_eqb_neq (a b : jsstring) : str_eqb a b = false <-> a <> b.
Proof.
  rewrite <- str_eqb_eq. destruct (str_eqb a b); split; congruence.
Qed.

Lemma str_eqb_sym (a b : jsstring) : str_eqb a b = str_eqb b a.
Proof.
  destruct (str_eqb a b) eqn:E.
  - apply str_eqb_eq in E; subst; symmetry; apply str_eqb_refl.
  - symmetry; apply str_eqb_neq; apply str_eqb_neq in E; congruence.
Qed.



Lemma split_nonempty (sep : char) (s : jsstring) : split sep s <> [].
Proof.
  induction s as [|c s IH]; simpl; [discriminate|].
  destruct (N.eqb c sep); [discriminate|].
  destruct (split sep s); [contradiction | discriminate].
Qed.


(** ** Numbers *)

Lemma roundNearestEven_lower (n d : Z) : n / d <= roundNearestEven n d.
Proof.
  unfold roundNearestEven.
  destruct (2 * (n mod d) <? d); [lia|].
  destruct (d <? 2 * (n mod d)); [lia|].
  destruct (Z.even (n / d)); lia.
Qed.


Lemma floorLog2Ratio_one (n : Z) : 0 < n -> floorLog2Ratio n 1 = Z.log2 n.
Proof.
  intros Hn. unfold floorLog2Ratio.
  change (Z.log2 1) with 0. rewrite Z.sub_0_r.
  pose proof (Z.log2_nonneg n) as Hl.
  rewrite (Z.max_r 0 (Z.log2 n)) by lia.
  rewrite (Z.max_l 0 (- Z.log2 n)) by lia.
  pose proof (Z.log2_spec n Hn) as [Hlo _].
  destruct (1 * 2 ^ Z.log2 n <=? n * 2 ^ 0) eqn:E; [reflexivity|].
  apply Z.leb_gt in E. change (2 ^ 0) with 1 in E. lia.
Qed.

(** Rounding a positive integer gives a positive double or infinity. *)
Lemma roundToDouble_positive (n : Z) :
  0 < n -> sign (roundToDouble n 1) = 1.
Proof.
  intros Hn. unfold roundToDouble.
  destruct (n =? 0) eqn:E0; [apply Z.eqb_eq in E0; lia|].
  rewrite floorLog2Ratio_one by assumption.
  set (e := Z.max (Z.log2 n - 52) (-1074)).
  destruct ((0 <=? e) && (2 ^ 1024 <=? _)); [reflexivity|].
  cbn [sign]. apply Z.sgn_pos.
  destruct (0 <=? e) eqn:He.
  - apply Z.leb_le in He.
    eapply Z.lt_le_trans; [|apply roundNearestEven_lower].
    rewrite Z.mul_1_l.
    apply Z.div_str_pos. split; [apply Z.pow_pos_nonneg; lia|].
    pose proof (Z.log2_spec n Hn) as [Hlo _].
    etransitivity; [|exact Hlo].
    apply Z.pow_le_mono_r; lia.
  - apply Z.leb_gt in He.
    eapply Z.lt_le_trans; [|apply roundNearestEven_lower].
    rewrite Z.div_1_r. apply Z.mul_pos_pos; [lia|]. apply Z.pow_pos_nonneg; lia.
Qed.

Lemma sign_roundZ (z : Z) : sign (roundZ z) = Z.sgn z.
Proof.
  unfold roundZ. destruct (z <? 0) eqn:E.
  - apply Z.ltb_lt in E.
    pose proof (roundToDouble_positive (- z) ltac:(lia)) as Hp.
    destruct (roundToDouble (- z) 1) as [|s|m e]; simpl in *; try discriminate.
    + destruct s; simpl; lia.
    + rewrite Z.sgn_opp, Hp. lia.
  - apply Z.ltb_ge in E.
    destruct (Z.eq_dec z 0) as [->|Hz]; [reflexivity|].
    rewrite roundToDouble_positive by lia. lia.
Qed.

(** The sign of a difference of two integer-valued doubles is exact. *)
Lemma sign_sub (a b : Z) : sign (sub a b) = Z.sgn (a - b).
Proof. apply sign_roundZ. Qed.

Lemma roundZ_not_NaN (z : Z) : roundZ z <> NaN.
Proof.
  unfold roundZ, roundToDouble.
  destruct (z <? 0).
  - destruct (- z =? 0); [discriminate|].
    match goal with |- context [if ?c then Infinity false else _] => destruct c end;
      discriminate.
  - destruct (z =? 0); [discriminate|].
    match goal with |- context [if ?c then Infinity false else _] => destruct c end;
      discriminate.
Qed.

(** Integers below [2^53] are doubles: rounding keeps them. *)
Lemma roundToDouble_exact (n : Z) :
  0 < n < 2 ^ 53 ->
  exists m e, roundToDouble n 1 = Finite m e /\ e <= 0 /\ m = n * 2 ^ (- e).
Proof.
  intros [Hpos Hlt]. unfold roundToDouble.
  destruct (n =? 0) eqn:E0; [apply Z.eqb_eq in E0; lia|].
  rewrite floorLog2Ratio_one by assumption.
  assert (Hlog : 0 <= Z.log2 n < 53).
  { split; [apply Z.log2_nonneg|]. apply Z.log2_lt_pow2; assumption. }
  rewrite Z.max_l by lia.
  set (e := Z.log2 n - 52).
  assert (Hrne : forall x, roundNearestEven x 1 = x).
  { intros x. unfold roundNearestEven. rewrite Z.mod_1_r, Z.div_1_r. reflexivity. }
  destruct (0 <=? e) eqn:He.
  - apply Z.leb_le in He. assert (e = 0) as -> by lia.
    change (1 * 2 ^ 0) with 1. rewrite Hrne.
    assert (Hov : (2 ^ 1024 <=? n * 2 ^ 0) = false).
    { apply Z.leb_gt. change (2 ^ 0) with 1.
      assert (2 ^ 53 < 2 ^ 1024) by (apply Z.pow_lt_mono_r; lia). lia. }
    rewrite Hov. cbn [andb]. exists n, 0. repeat split; [lia|].
    change (2 ^ (- 0)) with 1. lia.
  - cbn [andb]. rewrite Hrne. apply Z.leb_gt in He.
    exists (n * 2 ^ (- e)), e. repeat split. lia.
Qed.

(** Below [2^53] the patch distance of the program is the distance of the
    integers. *)
Lemma patch_distance_exact (a b t : Z) :
  Z.abs (a - b) < 2 ^ 53 ->
  number_leb (Math_abs (sub a b)) (ofZ t) = (Z.abs (a - b) <=? t).
Proof.
  intros Hlt. unfold sub, roundZ.
  assert (Hle : forall n m e, 0 < n -> e <= 0 -> m = n * 2 ^ (- e) ->
                              number_leb (Finite (Z.abs m) e) (ofZ t) = (n <=? t)).
  { intros n m e Hn He ->. unfold number_leb, ofZ. cbv zeta.
    replace (Z.min e 0) with e by lia. rewrite Z.sub_diag.
    change (0 - e) with (- e).
    change (2 ^ 0) with 1. rewrite Z.mul_1_r.
    assert (Hp : 0 < 2 ^ (- e)) by (apply Z.pow_pos_nonneg; lia).
    rewrite Z.abs_eq by nia.
    destruct (Z.leb_spec n t), (Z.leb_spec (n * 2 ^ (- e)) (t * 2 ^ (- e)));
      try reflexivity; nia. }
  destruct (a - b <? 0) eqn:En.
  - apply Z.ltb_lt in En.
    destruct (roundToDouble_exact (- (a - b))) as (m & e & -> & He & Hm); [lia|].
    cbn [negate Math_abs]. rewrite Z.abs_opp, (Z.abs_neq (a - b)) by lia.
    apply (Hle (- (a - b)) m e); [lia | assumption | assumption].
  - apply Z.ltb_ge in En.
    destruct (Z.eq_dec (a - b) 0) as [E0|Hne].
    + rewrite E0. cbn. destruct (0 <=? t * 1) eqn:E1, (Z.leb_spec 0 t);
        try reflexivity; [apply Z.leb_le in E1 | apply Z.leb_gt in E1]; lia.
    + destruct (roundToDouble_exact (a - b)) as (m & e & -> & He & Hm); [lia|].
      cbn [Math_abs]. rewrite (Z.abs_eq (a - b)) by lia.
      apply (Hle (a - b) m e); [lia | assumption | assumption].
Qed.






Lemma toInteger_nonNegative (x : number) (z : Z) :
  nonNegative x -> toInteger x = Some z -> 0 <= z.
Proof.
  destruct x as [|s|m e]; simpl; try discriminate.
  intros Hm. destruct (0 <=? e) eqn:He.
  - intros [= <-]. apply Z.mul_nonneg_nonneg; [assumption|]. apply Z.pow_nonneg; lia.
  - destruct (_ =? 0); [|discriminate]. intros [= <-].
    apply Z.div_pos; [assumption|]. apply Z.pow_pos_nonneg; [lia|].
    apply Z.leb_gt in He; lia.
Qed.

(** ** [parseSemver] *)

Lemma parseSemver_not_string (v : value) :
  isStringType v = false -> parseSemver v = None.
Proof. destruct v; simpl; try reflexivity; discriminate. Qed.




(** ** [cmpVer] *)

Lemma compareParsed_antisym (pa pb : ParsedVersion) :
  compareParsed pa pb = - compareParsed pb pa.
Proof.
  unfold compareParsed.
  destruct (Z.eqb_spec (major pa) (major pb)), (Z.eqb_spec (major pb) (major pa));
    simpl; try lia;
  destruct (Z.eqb_spec (minor pa) (minor pb)), (Z.eqb_spec (minor pb) (minor pa));
    simpl; lia.
Qed.

Lemma compareParsed_trans (pa pb pc : ParsedVersion) :
  compareParsed pa pb <= 0 -> compareParsed pb pc <= 0 -> compareParsed pa pc <= 0.
Proof.
  unfold compareParsed.
  destruct (Z.eqb_spec (major pa) (major pb)), (Z.eqb_spec (major pb) (major pc)),
    (Z.eqb_spec (major pa) (major pc)); simpl; try lia;
  destruct (Z.eqb_spec (minor pa) (minor pb)), (Z.eqb_spec (minor pb) (minor pc)),
    (Z.eqb_spec (minor pa) (minor pc)); simpl; lia.
Qed.

Section CmpVer.
Context {H : Host}.

Lemma sign_ofZ (z : Z) : sign (ofZ z) = Z.sgn z.
Proof. reflexivity. Qed.

(** On two strings [cmpVer] returns a number whose sign is the order of the
    specification. *)
Lemma cmpVer_strings (a b : jsstring) :
  exists c, cmpVer (JStr a) (JStr b) = Ok c /\ c <> NaN /\ sign c = versionOrder a b.
Proof.
  unfold cmpVer, versionOrder, compareParsed.
  destruct (parseSemver (JStr a)) as [pa|], (parseSemver (JStr b)) as [pb|].
  - destruct (negb (major pa =? major pb));
      [|destruct (negb (minor pa =? minor pb))];
      eexists; (split; [reflexivity|]); (split; [apply roundZ_not_NaN|apply sign_sub]).
  - eexists; split; [reflexivity|]. split; [discriminate|reflexivity].
  - eexists; split; [reflexivity|]. split; [discriminate|reflexivity].
  - simpl. eexists; split; [reflexivity|]. split; [discriminate|reflexivity].
Qed.

Lemma resultSign_cmpVer (a b : jsstring) :
  resultSign (cmpVer (JStr a) (JStr b)) = Some (versionOrder a b).
Proof.
  destruct (cmpVer_strings a b) as (c & -> & _ & Hs). simpl. rewrite Hs. reflexivity.
Qed.

Context {HC : ConsistentCollation H}.

Lemma versionOrder_antisym (a b : jsstring) :
  versionOrder a b = - versionOrder b a.
Proof.
  unfold versionOrder.
  destruct (parseSemver (JStr a)) as [pa|], (parseSemver (JStr b)) as [pb|];
    try reflexivity.
  - apply compareParsed_antisym.
  - rewrite localeCompare_antisym. lia.
Qed.

Lemma versionOrder_trans (a b c : jsstring) :
  versionOrder a b <= 0 -> versionOrder b c <= 0 -> versionOrder a c <= 0.
Proof.
  unfold versionOrder.
  destruct (parseSemver (JStr a)) as [pa|], (parseSemver (JStr b)) as [pb|],
    (parseSemver (JStr c)) as [pc|]; try lia.
  - apply compareParsed_trans.
  - intros Hab Hbc.
    pose proof (localeCompare_trans a b c) as Ht.
    lia.
Qed.

Lemma versionOrder_refl (a : jsstring) : versionOrder a a = 0.
Proof. pose proof (versionOrder_antisym a a). lia. Qed.

End CmpVer.

(** C5: on version strings [cmpVer] always returns a number; the sign of
    [cmpVer(a, b)] is the opposite of the sign of [cmpVer(b, a)]; "not after"
    is transitive over any three strings; two parsed versions are compared
    by major, then minor, then patch, the first unequal field deciding; a
    parsed version sorts before an unparsed one; two unparsed ones are
    compared as strings, by [localeCompare]. *)
Theorem cmpVer_total_order {H : Host} {HC : ConsistentCollation H} :
  (forall a b : jsstring,
      exists c, cmpVer (JStr a) (JStr b) = Ok c /\ c <> NaN) /\
  (forall (a b : jsstring) (x y : number),
      cmpVer (JStr a) (JStr b) = Ok x -> cmpVer (JStr b) (JStr a) = Ok y ->
      sign x = - sign y) /\
  (forall (a b c : jsstring) (x y z : number),
      cmpVer (JStr a) (JStr b) = Ok x -> cmpVer (JStr b) (JStr c) = Ok y ->
      cmpVer (JStr a) (JStr c) = Ok z ->
      sign x <= 0 -> sign y <= 0 -> sign z <= 0) /\
  (forall (a b : jsstring) (pa pb : ParsedVersion),
      parseSemver (JStr a) = Some pa -> parseSemver (JStr b) = Some pb ->
      resultSign (cmpVer (JStr a) (JStr b)) = Some (compareParsed pa pb)) /\
  (forall (a b : jsstring) (pa : ParsedVersion),
      parseSemver (JStr a) = Some pa -> parseSemver (JStr b) = None ->
      cmpVer (JStr a) (JStr b) = Ok (ofZ (-1)) /\
      cmpVer (JStr b) (JStr a) = Ok (ofZ 1)) /\
  (forall a b : jsstring,
      parseSemver (JStr a) = None -> parseSemver (JStr b) = None ->
      cmpVer (JStr a) (JStr b) = Ok (ofZ (localeCompare a b))).
Proof.
  split; [|split; [|split; [|split; [|split]]]].
  - intros a b. destruct (cmpVer_strings a b) as (c & Hc & Hn & _). exists c; auto.
  - intros a b x y Hx Hy.
    pose proof (resultSign_cmpVer a b) as Hab. pose proof (resultSign_cmpVer b a) as Hba.
    rewrite Hx in Hab. rewrite Hy in Hba. simpl in Hab, Hba.
    injection Hab as ->. injection Hba as ->. apply versionOrder_antisym.
  - intros a b c x y z Hx Hy Hz.
    pose proof (resultSign_cmpVer a b) as Hab. pose proof (resultSign_cmpVer b c) as Hbc.
    pose proof (resultSign_cmpVer a c) as Hac.
    rewrite Hx in Hab. rewrite Hy in Hbc. rewrite Hz in Hac. simpl in Hab, Hbc, Hac.
    injection Hab as ->. injection Hbc as ->. injection Hac as ->.
    apply versionOrder_trans.
  - intros a b pa pb Ha Hb. rewrite resultSign_cmpVer. unfold versionOrder.
    rewrite Ha, Hb. reflexivity.
  - intros a b pa Ha Hb. unfold cmpVer. rewrite Ha, Hb. split; reflexivity.
  - intros a b Ha Hb. unfold cmpVer. rewrite Ha, Hb. reflexivity.
Qed.

(** ** The reference host is a consistent, separating collation *)

Lemma codeUnitCompare_sgn (a b : jsstring) :
  codeUnitCompare a b = -1 \/ codeUnitCompare a b = 0 \/ codeUnitCompare a b = 1.
Proof.
  revert b; induction a as [|x a IH]; intros [|y b]; simpl; auto.
  destruct (x <? y)%N; auto. destruct (y <? x)%N; auto.
Qed.

Lemma codeUnitCompare_antisym (a b : jsstring) :
  codeUnitCompare a b = - codeUnitCompare b a.
Proof.
  revert b; induction a as [|x a IH]; intros [|y b]; simpl; auto.
  destruct (N.ltb_spec x y), (N.ltb_spec y x); try lia. apply IH.
Qed.

Lemma codeUnitCompare_eq (a b : jsstring) : codeUnitCompare a b = 0 -> a = b.
Proof.
  revert b; induction a as [|x a IH]; intros [|y b]; simpl; auto; try discriminate.
  destruct (N.ltb_spec x y); [discriminate|].
  destruct (N.ltb_spec y x); [discriminate|].
  intros E. f_equal; [lia | auto].
Qed.

Lemma codeUnitCompare_trans (a b c : jsstring) :
  codeUnitCompare a b <= 0 -> codeUnitCompare b c <= 0 -> codeUnitCompare a c <= 0.
Proof.
  revert b c; induction a as [|x a IH]; intros [|y b] [|z c]; simpl; try lia.
  destruct (N.ltb_spec x y), (N.ltb_spec y x), (N.ltb_spec y z), (N.ltb_spec z y),
    (N.ltb_spec x z), (N.ltb_spec z x); try lia.
  apply IH.
Qed.

#[export] Instance codeUnitHost_consistent : ConsistentCollation codeUnitHost.
Proof.
  split; simpl.
  - intros a b. rewrite codeUnitCompare_antisym. apply Z.sgn_opp.
  - apply codeUnitCompare_trans.
Qed.

Lemma codeUnitHost_separating : SeparatingCollation codeUnitHost.
Proof. intros a b. apply codeUnitCompare_eq. Qed.

(** C5 at the reference host, on an unparsed and a parsed version. *)
Lemma cmpVer_total_order_witness :
  ConsistentCollation codeUnitHost /\
  exists c, cmpVer (JStr (str "abc")) (JStr (str "1.2.3")) = Ok c /\ c <> NaN.
Proof.
  split; [exact codeUnitHost_consistent|].
  exact (proj1 (@cmpVer_total_order codeUnitHost codeUnitHost_consistent)
           (str "abc") (str "1.2.3")).
Defined.

(** ** [Array.prototype.sort] *)

Section SortFacts.
Context {A : Type} (comparefn : A -> A -> result number).

Lemma insert_Permutation (x : A) (l l' : list A) :
  insert comparefn x l = Ok l' -> Permutation (x :: l) l'.
Proof.
  revert l'; induction l as [|y l IH]; simpl; intros l'.
  - intros [= <-]. apply Permutation_refl.
  - destruct (comparefn x y) as [c|e]; simpl; [|discriminate].
    destruct (sign c <? 0); [intros [= <-]; apply Permutation_refl|].
    destruct (insert comparefn x l) as [r|e]; simpl; [|discriminate].
    intros [= <-]. rewrite perm_swap. apply perm_skip. apply IH. reflexivity.
Qed.

Lemma sortInto_Permutation (l acc r : list A) :
  sortInto comparefn acc l = Ok r -> Permutation (acc ++ l) r.
Proof.
  revert acc r; induction l as [|x l IH]; simpl; intros acc r.
  - intros [= <-]. rewrite app_nil_r. apply Permutation_refl.
  - destruct (insert comparefn x acc) as [acc'|e] eqn:E; simpl; [|discriminate].
    intros Hs. apply IH in Hs. apply insert_Permutation in E.
    rewrite <- Hs. rewrite <- E.
    rewrite <- Permutation_middle. apply Permutation_refl.
Qed.

Lemma sort_Permutation (l r : list A) :
  sort comparefn l = Ok r -> Permutation l r.
Proof. apply (sortInto_Permutation l []). Qed.

(** The sort returns when the comparator returns on the elements. *)
Variable P : A -> Prop.
Hypothesis comparefn_returns :
  forall x y, P x -> P y -> exists c, comparefn x y = Ok c.

Lemma insert_returns (x : A) (l : list A) :
  P x -> Forall P l -> exists l', insert comparefn x l = Ok l'.
Proof.
  intros Hx Hl; induction Hl as [|y l Hy Hl IH]; simpl.
  - eexists; reflexivity.
  - destruct (comparefn_returns x y Hx Hy) as [c ->]; simpl.
    destruct (sign c <? 0); [eexists; reflexivity|].
    destruct IH as [r ->]; simpl. eexists; reflexivity.
Qed.

Lemma sortInto_returns (l acc : list A) :
  Forall P acc -> Forall P l -> exists r, sortInto comparefn acc l = Ok r.
Proof.
  revert acc; induction l as [|x l IH]; simpl; intros acc Hacc Hl.
  - eexists; reflexivity.
  - inversion Hl as [|? ? Hx Hl']; subst.
    destruct (insert_returns x acc Hx Hacc) as [acc' E]. rewrite E; simpl.
    apply IH; [|assumption].
    apply insert_Permutation in E.
    eapply Permutation_Forall; [exact E|]. constructor; assumption.
Qed.

Lemma sort_returns (l : list A) :
  Forall P l -> exists r, sort comparefn l = Ok r /\ Permutation l r.
Proof.
  intros Hl. destruct (sortInto_returns l [] (Forall_nil _) Hl) as [r E].
  exists r; split; [exact E | apply sort_Permutation; exact E].
Qed.

(** With a consistent comparator the outcome is in order. *)
Hypothesis comparefn_antisym :
  forall x y c c', P x -> P y ->
    comparefn x y = Ok c -> comparefn y x = Ok c' -> sign c = - sign c'.
Hypothesis comparefn_trans :
  forall x y z, P x -> P y -> P z ->
    notAfter comparefn x y -> notAfter comparefn y z -> notAfter comparefn x z.

Lemma insert_sorted (x : A) (l l' : list A) :
  P x -> Forall P l -> StronglySorted (notAfter comparefn) l ->
  insert comparefn x l = Ok l' -> StronglySorted (notAfter comparefn) l'.
Proof.
  intros Hx Hl Hs; revert l'.
  induction Hs as [|y l Hs IH Hy]; simpl; intros l'.
  - intros [= <-]. constructor; constructor.
  - inversion Hl as [|? ? Py Pl]; subst.
    destruct (comparefn x y) as [c|e] eqn:Exy; simpl; [|discriminate].
    destruct (Z.ltb_spec (sign c) 0) as [Hlt|Hge].
    + intros [= <-].
      assert (Hxy : notAfter comparefn x y) by (exists c; split; [assumption|lia]).
      constructor; [constructor; assumption|].
      constructor; [assumption|].
      rewrite Forall_forall in Hy, Pl |- *. intros z Hz.
      apply (comparefn_trans x y z); auto.
    + destruct (insert comparefn x l) as [r|e] eqn:Ei; simpl; [|discriminate].
      intros [= <-].
      constructor; [apply IH; auto|].
      apply insert_Permutation in Ei.
      eapply Permutation_Forall; [exact Ei|].
      constructor; [|assumption].
      destruct (comparefn_returns y x Py Hx) as [c' Eyx].
      exists c'; split; [assumption|].
      pose proof (comparefn_antisym x y c c' Hx Py Exy Eyx). lia.
Qed.

Lemma sortInto_sorted (l acc r : list A) :
  Forall P acc -> Forall P l -> StronglySorted (notAfter comparefn) acc ->
  sortInto comparefn acc l = Ok r -> StronglySorted (notAfter comparefn) r.
Proof.
  revert acc r; induction l as [|x l IH]; simpl; intros acc r Hacc Hl Hs.
  - intros [= <-]. assumption.
  - inversion Hl as [|? ? Hx Hl']; subst.
    destruct (insert comparefn x acc) as [acc'|e] eqn:E; simpl; [|discriminate].
    apply IH; [|assumption|exact (insert_sorted x acc acc' Hx Hacc Hs E)].
    apply insert_Permutation in E.
    eapply Permutation_Forall; [exact E|]. constructor; assumption.
Qed.

Lemma sort_sorted (l r : list A) :
  Forall P l -> sort comparefn l = Ok r -> StronglySorted (notAfter comparefn) r.
Proof.
  intros Hl. apply sortInto_sorted; [constructor | assumption | constructor].
Qed.

End SortFacts.

(** ** [scan] *)

Section Scan.
Context {H : Host}.

Lemma strictEquals_strings (a b : jsstring) :
  strictEquals (JStr a) (JStr b) = str_eqb a b.
Proof. reflexivity. Qed.

(** A version that is not in the set equals none of its elements. *)
Lemma Set_has_false_strictEquals (blocked : VersionSet) (version : value) :
  Set_has blocked version = false ->
  forall bver, In bver blocked -> strictEquals (JStr bver) version = false.
Proof.
  intros Hh bver Hin. destruct version; try reflexivity.
  simpl in *. rewrite str_eqb_sym.
  destruct (str_eqb s bver) eqn:E; [|reflexivity].
  rewrite <- Hh. symmetry. apply existsb_exists. exists bver; auto.
Qed.

(** The loop over the advisory set stops at the first entry that equals the
    installed version or is adjacent to it. *)
Lemma scanBlocked_find (version : value) (pv : ParsedVersion)
  (patchDistance : number) (blocked : VersionSet) :
  scanBlocked version pv patchDistance blocked =
  match find (fun bver => strictEquals (JStr bver) version
                          || adjacent pv patchDistance bver) blocked with
  | Some bver =>
      if strictEquals (JStr bver) version then (true, JNull) else (false, JStr bver)
  | None => (false, JNull)
  end.
Proof.
  induction blocked as [|bver rest IH]; [reflexivity|].
  cbn [scanBlocked find]. unfold adjacent at 1.
  destruct (strictEquals (JStr bver) version) eqn:Eeq;
    [cbn [orb]; rewrite Eeq; reflexivity|].
  cbn [orb].
  destruct (parseSemver (JStr bver)) as [bv|]; [|exact IH].
  destruct ((major pv =? major bv) && (minor pv =? minor bv)); cbn [andb]; [|exact IH].
  destruct (number_leb _ patchDistance); [|exact IH].
  rewrite Eeq. reflexivity.
Qed.

(** The promotion inside the loop never fires after the membership test
    has failed. *)
Lemma scanBlocked_not_critical (version : value) (pv : ParsedVersion)
  (patchDistance : number) (blocked : VersionSet) :
  Set_has blocked version = false ->
  fst (scanBlocked version pv patchDistance blocked) = false.
Proof.
  intros Hh. rewrite scanBlocked_find.
  destruct (find _ blocked) as [bver|] eqn:Ef; [|reflexivity].
  apply find_some in Ef as [Hin _].
  rewrite (Set_has_false_strictEquals _ _ Hh _ Hin). reflexivity.
Qed.

Lemma adjacent_nonempty (pv : ParsedVersion) (patchDistance : number)
  (bver : jsstring) :
  adjacent pv patchDistance bver = true -> ToBoolean (JStr bver) = true.
Proof.
  destruct bver; [|reflexivity]. unfold adjacent.
  change (parseSemver (JStr [])) with (@None ParsedVersion). discriminate.
Qed.

(** One turn of the loop appends what the rule of the specification gives. *)
Lemma scanPackage_packageFindings (malwareMap : AdvisoryMap)
  (patchDistance : number) (pkg : InstalledPackage) (findings : list Finding.t) :
  scanPackage malwareMap patchDistance pkg findings =
  findings ++ packageFindings malwareMap patchDistance pkg.
Proof.
  unfold scanPackage, packageFindings, classify.
  destruct (Map_get malwareMap (name pkg)) as [blocked|]; [|symmetry; apply app_nil_r].
  destruct (Set_has blocked (version pkg)) eqn:Eh; [reflexivity|].
  destruct (parseSemver (version pkg)) as [pv|]; [|symmetry; apply app_nil_r].
  rewrite scanBlocked_find.
  destruct (find _ blocked) as [bver|] eqn:Ef; [|symmetry; apply app_nil_r].
  apply find_some in Ef as [Hin Hq].
  rewrite (Set_has_false_strictEquals _ _ Eh _ Hin) in Hq |- *.
  cbn [orb] in Hq. rewrite (adjacent_nonempty _ _ _ Hq). reflexivity.
Qed.

Lemma scan_fold (malwareMap : AdvisoryMap) (patchDistance : number)
  (installed : list InstalledPackage) (acc : list Finding.t) :
  fold_left (fun fs pkg => scanPackage malwareMap patchDistance pkg fs) installed acc
  = acc ++ flat_map (packageFindings malwareMap patchDistance) installed.
Proof.
  revert acc; induction installed as [|pkg installed IH]; intros acc; simpl.
  - symmetry; apply app_nil_r.
  - rewrite IH, scanPackage_packageFindings, app_assoc. reflexivity.
Qed.

Lemma Map_get_string (malwareMap : AdvisoryMap) (key : value) (blocked : VersionSet) :
  Map_get malwareMap key = Some blocked -> isStringType key = true.
Proof. destruct key; simpl; try discriminate; reflexivity. Qed.

Lemma Set_has_string (blocked : VersionSet) (v : value) :
  Set_has blocked v = true -> isStringType v = true.
Proof. destruct v; simpl; try discriminate; reflexivity. Qed.

Lemma parseSemver_string (v : value) (pv : ParsedVersion) :
  parseSemver v = Some pv -> isStringType v = true.
Proof. destruct v; simpl; try discriminate; reflexivity. Qed.

Lemma packageFindings_strings (malwareMap : AdvisoryMap) (patchDistance : number)
  (pkg : InstalledPackage) :
  Forall stringFinding (packageFindings malwareMap patchDistance pkg).
Proof.
  unfold packageFindings, classify.
  destruct (Map_get malwareMap (name pkg)) as [blocked|] eqn:Eg; [|constructor].
  apply Map_get_string in Eg.
  destruct (Set_has blocked (version pkg)) eqn:Eh.
  - apply Set_has_string in Eh. repeat constructor; assumption.
  - destruct (parseSemver (version pkg)) as [pv|] eqn:Ep; [|constructor].
    apply parseSemver_string in Ep.
    destruct (find _ blocked) as [bver|]; [|constructor].
    destruct (strictEquals (JStr bver) (version pkg)); repeat constructor; assumption.
Qed.

Lemma cmpFinding_returns (a b : Finding.t) :
  stringFinding a -> stringFinding b -> exists c, cmpFinding a b = Ok c.
Proof.
  intros [Han Hav] [Hbn Hbv]. unfold cmpFinding.
  destruct (negb (Level_eqb _ _)); [eexists; reflexivity|].
  destruct a as [la na va ga], b as [lb nb vb gb]; simpl in *.
  destruct na; try discriminate. destruct nb; try discriminate.
  destruct va; try discriminate. destruct vb; try discriminate.
  destruct (negb (strictEquals _ _)).
  - simpl. eexists; reflexivity.
  - destruct (cmpVer_strings s1 s2) as (c & -> & _). eexists; reflexivity.
Qed.

(** [scan] returns, and returns the findings of the packages in some order. *)
Lemma scan_returns (installed : list InstalledPackage) (malwareMap : AdvisoryMap)
  (patchDistance : number) :
  exists findings,
    scan installed malwareMap patchDistance = Ok findings /\
    Permutation (flat_map (packageFindings malwareMap patchDistance) installed) findings.
Proof.
  unfold scan. rewrite scan_fold. cbn [app].
  apply (sort_returns cmpFinding stringFinding cmpFinding_returns).
  apply Forall_flat_map. apply Forall_forall. intros pkg _.
  apply packageFindings_strings.
Qed.

End Scan.

(** C1: [scan] returns the findings that the matching rule gives for the
    installed packages, one package at a time ([packageFindings], [classify]):
    for a package whose name is a key of the map, critical against its own
    version when that version is in the advisory set; otherwise, when the
    version parses, a warning against the first advisory entry that equals
    the version or has its major and minor and a patch within the
    threshold, the distance of two patches being that of the integers as
    long as it is below [2^53]. With [pkg@2.5.6] and [{pkg: {2.5.7}}] at
    threshold 1 the result is one warning against [2.5.7]; with [pkg@2.5.8]
    also; with [pkg@2.5.9] there is no finding. *)
Theorem scan_classifies {H : Host} :
  (forall installed malwareMap patchDistance,
      exists findings,
        scan installed malwareMap patchDistance = Ok findings /\
        Permutation
          (flat_map (packageFindings malwareMap patchDistance) installed) findings) /\
  (forall (pv bv : ParsedVersion) (t : Z) (bver : jsstring),
      parseSemver (JStr bver) = Some bv ->
      Z.abs (patch pv - patch bv) < 2 ^ 53 ->
      adjacent pv (ofZ t) bver
      = (major pv =? major bv) && (minor pv =? minor bv)
        && (Z.abs (patch pv - patch bv) <=? t)) /\
  scan [{| name := JStr (str "pkg"); version := JStr (str "2.5.6") |}]
       [(str "pkg", [str "2.5.7"])] (ofZ 1)
  = Ok [{| Finding.level := warning; Finding.name := JStr (str "pkg");
           Finding.version := JStr (str "2.5.6");
           Finding.against := JStr (str "2.5.7") |}] /\
  scan [{| name := JStr (str "pkg"); version := JStr (str "2.5.8") |}]
       [(str "pkg", [str "2.5.7"])] (ofZ 1)
  = Ok [{| Finding.level := warning; Finding.name := JStr (str "pkg");
           Finding.version := JStr (str "2.5.8");
           Finding.against := JStr (str "2.5.7") |}] /\
  scan [{| name := JStr (str "pkg"); version := JStr (str "2.5.9") |}]
       [(str "pkg", [str "2.5.7"])] (ofZ 1)
  = Ok [].
Proof.
  split; [intros; apply scan_returns|].
  split.
  - intros pv bv t bver Hb Hlt. unfold adjacent. rewrite Hb.
    rewrite patch_distance_exact by assumption. reflexivity.
  - repeat split; vm_compute; reflexivity.
Qed.

(** C1 at the installed patch 6 against the advisory version [2.5.7]. *)
Lemma scan_classifies_witness :
  parseSemver (JStr (str "2.5.7")) = Some {| major := 2; minor := 5; patch := 7 |} /\
  Z.abs (6 - 7) < 2 ^ 53 /\
  adjacent {| major := 2; minor := 5; patch := 6 |} (ofZ 1) (str "2.5.7")
  = (2 =? 2) && (5 =? 5) && (Z.abs (6 - 7) <=? 1).
Proof.
  split; [vm_compute; reflexivity|].
  split; [vm_compute; reflexivity|].
  apply (proj1 (proj2 (@scan_classifies codeUnitHost))
           {| major := 2; minor := 5; patch := 6 |}
           {| major := 2; minor := 5; patch := 7 |} 1 (str "2.5.7")).
  - vm_compute; reflexivity.
  - vm_compute; reflexivity.
Defined.

(** C9: a package whose version does not parse and is not in the advisory
    set of its name has no finding in what [scan] returns, whatever that
    set holds. *)
Theorem scan_unparsable_clean {H : Host} (installed : list InstalledPackage)
  (malwareMap : AdvisoryMap) (patchDistance : number) (pkgName pkgVersion : value) :
  parseSemver pkgVersion = None ->
  match Map_get malwareMap pkgName with
  | Some blocked => Set_has blocked pkgVersion
  | None => false
  end = false ->
  exists findings,
    scan installed malwareMap patchDistance = Ok findings /\
    forall f, In f findings ->
              ~ (f.(Finding.name) = pkgName /\ f.(Finding.version) = pkgVersion).
Proof.
  intros Hp Hm.
  destruct (scan_returns installed malwareMap patchDistance) as (findings & Hs & Hperm).
  exists findings; split; [exact Hs|].
  intros f Hf [Hn Hv].
  apply (Permutation_in _ (Permutation_sym Hperm)) in Hf.
  apply in_flat_map in Hf as (pkg & _ & Hf).
  unfold packageFindings, classify in Hf.
  destruct (Map_get malwareMap (name pkg)) as [blocked|] eqn:Eg; [|contradiction].
  assert (Hpkg : name pkg = pkgName /\ version pkg = pkgVersion).
  { destruct (Set_has blocked (version pkg)).
    - destruct Hf as [<- | []]. auto.
    - destruct (parseSemver (version pkg)); [|contradiction].
      destruct (find _ blocked) as [bver|]; [|contradiction].
      destruct (strictEquals _ _); destruct Hf as [<- | []]; auto. }
  destruct Hpkg as [En Ev]. rewrite En in Eg. rewrite Ev in Hf.
  rewrite Eg in Hm. rewrite Hm, Hp in Hf. contradiction.
Qed.

(** C9 at [pkg@latest] against [{pkg: {2.5.7, 1.0.0}}]. *)
Lemma scan_unparsable_clean_witness :
  parseSemver (JStr (str "latest")) = None /\
  match Map_get [(str "pkg", [str "2.5.7"; str "1.0.0"])] (JStr (str "pkg")) with
  | Some blocked => Set_has blocked (JStr (str "latest"))
  | None => false
  end = false /\
  exists findings,
    @scan codeUnitHost
      [{| name := JStr (str "pkg"); version := JStr (str "latest") |}]
      [(str "pkg", [str "2.5.7"; str "1.0.0"])] (ofZ 1) = Ok findings /\
    forall f, In f findings ->
              ~ (f.(Finding.name) = JStr (str "pkg")
                 /\ f.(Finding.version) = JStr (str "latest")).
Proof.
  split; [vm_compute; reflexivity|].
  split; [vm_compute; reflexivity|].
  apply (@scan_unparsable_clean codeUnitHost); vm_compute; reflexivity.
Defined.

(** C10: [scan] reports a package as critical exactly when its version
    string is an element of the advisory set of its name, and the promotion
    to critical inside the loop over the set cannot fire, since the loop
    runs only after the membership test on the same string has failed. *)
Theorem scan_critical_iff_member {H : Host} :
  (forall installed malwareMap patchDistance,
      exists findings,
        scan installed malwareMap patchDistance = Ok findings /\
        forall f,
          (In f findings /\ f.(Finding.level) = critical) <->
          (exists pkg blocked,
              In pkg installed /\
              Map_get malwareMap pkg.(name) = Some blocked /\
              Set_has blocked pkg.(version) = true /\
              f = {| Finding.level := critical; Finding.name := pkg.(name);
                     Finding.version := pkg.(version);
                     Finding.against := pkg.(version) |})) /\
  (forall version pv patchDistance blocked,
      Set_has blocked version = false ->
      fst (scanBlocked version pv patchDistance blocked) = false).
Proof.
  split; [|intros; apply scanBlocked_not_critical; assumption].
  intros installed malwareMap patchDistance.
  destruct (scan_returns installed malwareMap patchDistance) as (findings & Hs & Hperm).
  exists findings; split; [exact Hs|].
  intros f; split.
  - intros [Hf Hl].
    apply (Permutation_in _ (Permutation_sym Hperm)) in Hf.
    apply in_flat_map in Hf as (pkg & Hin & Hf).
    unfold packageFindings, classify in Hf.
    destruct (Map_get malwareMap (name pkg)) as [blocked|] eqn:Eg; [|contradiction].
    exists pkg, blocked.
    destruct (Set_has blocked (version pkg)) eqn:Eh.
    + destruct Hf as [<- | []]. auto.
    + exfalso.
      destruct (parseSemver (version pkg)); [|contradiction].
      destruct (find _ blocked) as [bver|] eqn:Ef; [|contradiction].
      apply find_some in Ef as [Hb _].
      rewrite (Set_has_false_strictEquals _ _ Eh _ Hb) in Hf.
      destruct Hf as [<- | []]. discriminate.
  - intros (pkg & blocked & Hin & Eg & Eh & ->). split; [|reflexivity].
    apply (Permutation_in _ Hperm). apply in_flat_map.
    exists pkg; split; [assumption|].
    unfold packageFindings, classify. rewrite Eg, Eh. left; reflexivity.
Qed.

(** C10 at [evil@1.2.3] against [{evil: {1.2.3}}], and the loop on the
    set [{1.2.4}]. *)
Lemma scan_critical_iff_member_witness :
  Set_has [str "1.2.4"] (JStr (str "1.2.3")) = false /\
  fst (scanBlocked (JStr (str "1.2.3"))
         {| major := 1; minor := 2; patch := 3 |} (ofZ 1) [str "1.2.4"]) = false.
Proof.
  split; [vm_compute; reflexivity|].
  apply (proj2 (@scan_critical_iff_member codeUnitHost)). vm_compute; reflexivity.
Defined.

(** ** [normalizeMalwareList] *)

Section Normalize.
Context {H : Host}.

Lemma forOf_app {A St : Type} (l1 l2 : list A) (body : A -> St -> result St) (s : St) :
  forOf (l1 ++ l2) body s = (s' <- forOf l1 body s ;; forOf l2 body s').
Proof.
  revert s; induction l1 as [|x l1 IH]; intros s; [reflexivity|].
  cbn [app forOf]. destruct (body x s) as [s'|e]; [apply IH | reflexivity].
Qed.

Lemma forOf_cons {A St : Type} (x : A) (l : list A) (body : A -> St -> result St)
  (s : St) :
  forOf (x :: l) body s = (s' <- body x s ;; forOf l body s').
Proof. reflexivity. Qed.

(** A record whose ecosystem is not npm leaves the map as it is. *)
Lemma considerEntry_skips (entry : value) (map : AdvisoryMap) (e : jsstring) :
  hasProperty (str "ecosystem") entry = true ->
  ToString (get entry (str "ecosystem")) = Ok e ->
  toLowerCase e <> str "npm" ->
  considerEntry entry map = Ok map.
Proof.
  intros Hp He Hne. unfold considerEntry.
  destruct (negb (ToBoolean entry) || negb (isObjectType entry)); [reflexivity|].
  rewrite Hp, He. cbn [bind].
  apply str_eqb_neq in Hne. rewrite Hne. reflexivity.
Qed.

Lemma considerEntry_skips_or_throws (entry : value) (map map' : AdvisoryMap) :
  hasProperty (str "ecosystem") entry = true ->
  (forall e, ToString (get entry (str "ecosystem")) = Ok e ->
             toLowerCase e <> str "npm") ->
  considerEntry entry map = Ok map' -> map' = map.
Proof.
  intros Hp Hne.
  destruct (ToString (get entry (str "ecosystem"))) as [e|x] eqn:He.
  - rewrite (considerEntry_skips entry map e Hp He (Hne e eq_refl)).
    intros [= <-]; reflexivity.
  - unfold considerEntry.
    destruct (negb (ToBoolean entry) || negb (isObjectType entry));
      [intros [= <-]; reflexivity|].
    rewrite Hp, He. discriminate.
Qed.

End Normalize.

(** C6: the map-shaped feed, the name and version records and the package
    and versions records with the npm tag all normalise to the map with the
    one key [evil] whose set is [{1.2.3}]. *)
Theorem normalizeMalwareList_three_shapes {H : Host} :
  normalizeMalwareList (JObj [(str "evil", JArr [JStr (str "1.2.3")])])
  = Ok [(str "evil", [str "1.2.3"])] /\
  normalizeMalwareList
    (JArr [JObj [(str "name", JStr (str "evil"));
                 (str "version", JStr (str "1.2.3"))]])
  = Ok [(str "evil", [str "1.2.3"])] /\
  normalizeMalwareList
    (JArr [JObj [(str "package", JStr (str "evil"));
                 (str "versions", JArr [JStr (str "1.2.3")]);
                 (str "ecosystem", JStr (str "npm"))]])
  = Ok [(str "evil", [str "1.2.3"])].
Proof. repeat split; vm_compute; reflexivity. Qed.

(** C7: a record that carries an ecosystem tag whose text is not, letter
    case aside, [npm] adds nothing to the map: [considerEntry] returns the
    map unchanged, and an array feed normalises as it does without the
    record; [[{name: x, version: 1.0.0, ecosystem: pypi}]] gives the empty
    map. *)
Theorem ecosystem_filter {H : Host} :
  (forall (entry : value) (map : AdvisoryMap),
      hasProperty (str "ecosystem") entry = true ->
      (forall e, ToString (get entry (str "ecosystem")) = Ok e ->
                 toLowerCase e <> str "npm") ->
      (forall map', considerEntry entry map = Ok map' -> map' = map) /\
      (forall e, ToString (get entry (str "ecosystem")) = Ok e ->
                 considerEntry entry map = Ok map /\
                 forall before after,
                   normalizeMalwareList (JArr (before ++ entry :: after))
                   = normalizeMalwareList (JArr (before ++ after)))) /\
  normalizeMalwareList
    (JArr [JObj [(str "name", JStr (str "x"));
                 (str "version", JStr (str "1.0.0"));
                 (str "ecosystem", JStr (str "pypi"))]])
  = Ok [].
Proof.
  split; [|vm_compute; reflexivity].
  intros entry map Hp Hne. split.
  - intros map'. apply considerEntry_skips_or_throws; assumption.
  - intros e He. split.
    + apply (considerEntry_skips entry map e Hp He (Hne e He)).
    + intros before after. unfold normalizeMalwareList.
      cbn [Array_isArray elements].
      rewrite !forOf_app.
      destruct (forOf before considerEntry []) as [m|x]; [|reflexivity].
      cbn [bind]. rewrite forOf_cons.
      rewrite (considerEntry_skips entry m e Hp He (Hne e He)). reflexivity.
Qed.

(** C7 at a record tagged [PyPI]. *)
Lemma ecosystem_filter_witness :
  hasProperty (str "ecosystem")
    (JObj [(str "name", JStr (str "x")); (str "version", JStr (str "1.0.0"));
           (str "ecosystem", JStr (str "PyPI"))]) = true /\
  forall map',
    @considerEntry codeUnitHost
      (JObj [(str "name", JStr (str "x")); (str "version", JStr (str "1.0.0"));
             (str "ecosystem", JStr (str "PyPI"))]) [(str "evil", [str "1.2.3"])]
    = Ok map' -> map' = [(str "evil", [str "1.2.3"])].
Proof.
  split; [vm_compute; reflexivity|].
  apply (proj1 (@ecosystem_filter codeUnitHost)).
  - vm_compute; reflexivity.
  - intros e He. vm_compute in He. injection He as <-. vm_compute. discriminate.
Defined.

(** ** The name of a feed record *)

Section EntryName.
Context {H : Host}.










End EntryName.




(** ** Induction on values *)

(** A property of every value, given that it holds of a value whenever it
    holds of the values inside it and inside those. *)
Lemma value_ind2 (P : value -> Prop) :
  (forall v,
      Forall P (children v) ->
      Forall (fun c => Forall P (children c)) (children v) -> P v) ->
  forall v, P v.
Proof.
  intros Hstep.
  assert (Hall : forall v, P v /\ Forall P (children v)).
  { induction v as [| | | | |items IH|fields IH] using value_ind; simpl.
    1-5: split; [apply Hstep; constructor | constructor].
    - assert (Hc : Forall P items).
      { eapply Forall_impl; [|exact IH]. intros a Ha; apply Ha. }
      split; [|assumption].
      apply Hstep; simpl; [assumption|].
      eapply Forall_impl; [|exact IH]. intros a Ha; apply Ha.
    - assert (Hc : Forall P (List.map snd fields)).
      { apply Forall_map. eapply Forall_impl; [|exact IH]. intros a Ha; apply Ha. }
      split; [|assumption].
      apply Hstep; simpl; [assumption|].
      apply Forall_map. eapply Forall_impl; [|exact IH]. intros a Ha; apply Ha. }
  intros v; apply Hall.
Qed.

(** ** [flattenPackages]: the traversal *)

Section Flatten.
Context {H : Host}.

Lemma bind_Ok_r {A : Type} (m : result A) : (x <- m ;; Ok x) = m.
Proof. destruct m; reflexivity. Qed.

Lemma forOf_ext_in {A St : Type} (l : list A) (f g : A -> St -> result St) :
  (forall x, In x l -> forall s, f x s = g x s) ->
  forall s, forOf l f s = forOf l g s.
Proof.
  induction l as [|x l IH]; intros Hfg s; [reflexivity|].
  rewrite !forOf_cons, (Hfg x (or_introl eq_refl)).
  destruct (g x s) as [s'|e]; [|reflexivity].
  apply IH. intros y Hy. apply Hfg. right; assumption.
Qed.

Lemma forOf_flat_map {A B St : Type} (g : A -> list B) (l : list A)
  (body : B -> St -> result St) (s : St) :
  forOf (flat_map g l) body s = forOf l (fun x => forOf (g x) body) s.
Proof.
  revert s; induction l as [|x l IH]; intros s; [reflexivity|].
  cbn [flat_map]. rewrite forOf_app, forOf_cons.
  destruct (forOf (g x) body s) as [s'|e]; [apply IH | reflexivity].
Qed.

Lemma withField_cons {B : Type} (k k' : jsstring) (v : value)
  (fields : list (jsstring * value)) (absent : B) (present : value -> B) :
  withField k ((k', v) :: fields) absent present
  = if str_eqb k k' then present v else withField k fields absent present.
Proof. reflexivity. Qed.

Lemma withField_forOf (k : jsstring) (fields : list (jsstring * value))
  (A : value -> FlattenState -> result FlattenState)
  (B : value -> list InstalledPackage) :
  (forall deps, In deps (List.map snd fields) ->
                forall st, A deps st = forOf (B deps) recordPair st) ->
  forall st,
    withField k fields (Ok st) (fun deps => A deps st)
    = forOf (withField k fields [] B) recordPair st.
Proof.
  induction fields as [|[k' v] fields IH]; intros HAB st; [reflexivity|].
  rewrite !withField_cons. destruct (str_eqb k k').
  - apply HAB. left; reflexivity.
  - apply IH. intros deps Hd. apply HAB. right; assumption.
Qed.

Lemma forEntries_entriesFlatMap (deps : value)
  (f : jsstring -> value -> FlattenState -> result FlattenState)
  (g : jsstring -> value -> list InstalledPackage) :
  (forall child, In child (children deps) ->
                 forall k st, f k child st = forOf (g k child) recordPair st) ->
  forall st, forEntries deps f st = forOf (entriesFlatMap deps g) recordPair st.
Proof.
  intros Hfg. destruct deps as [| | | | |items|fields]; try reflexivity.
  - simpl in Hfg |- *.
    generalize 0%nat. induction items as [|x items IH]; intros i st; [reflexivity|].
    rewrite forOf_app, Hfg by (left; reflexivity).
    destruct (forOf (g (natToString i) x) recordPair st) as [s'|e]; [|reflexivity].
    cbn [bind]. apply IH. intros child Hc. apply Hfg. right; assumption.
  - simpl in Hfg |- *. intros st.
    rewrite forOf_flat_map. apply forOf_ext_in.
    intros [k x] Hin s. apply Hfg. apply in_map_iff. exists (k, x); auto.
Qed.

(** The traversal records the observed pairs, one after the other. *)
Lemma visit_observed (node : value) :
  forall inferredName st,
    visit node inferredName st = forOf (observed node inferredName) recordPair st.
Proof.
  induction node as [node Hc Hgc] using value_ind2.
  intros inferredName st.
  destruct node as [| | | | |items|fields]; try reflexivity.
  - destruct b; reflexivity.
  - cbn [visit observed isObjectType typeof negb]. rewrite orb_true_r. reflexivity.
  - cbn [visit observed isObjectType typeof negb]. rewrite orb_true_r. reflexivity.
  - cbn [visit observed ToBoolean isObjectType typeof negb orb get].
    unfold record. cbn [ToBoolean]. rewrite andb_false_r. reflexivity.
  - cbn [visit observed ToBoolean isObjectType typeof negb orb].
    rewrite forOf_app.
    set (nm := orElse (get (JObj fields) (str "name")) inferredName).
    set (ver := get (JObj fields) (str "version")).
    assert (Hrec : forOf (if ToBoolean nm && ToBoolean ver
                          then [{| name := nm; version := ver |}]
                          else []) recordPair st
                   = record nm ver st).
    { destruct (ToBoolean nm && ToBoolean ver) eqn:Et.
      - rewrite forOf_cons. unfold recordPair at 1. cbn [name version].
        apply bind_Ok_r.
      - unfold record. rewrite Et. reflexivity. }
    rewrite Hrec.
    destruct (record nm ver st) as [st1|e]; [|reflexivity].
    cbn [bind].
    apply (withField_forOf (str "dependencies") fields
             (fun deps st1 =>
                if ToBoolean deps && isObjectType deps
                then forEntries deps (fun depName child => visit child (JStr depName)) st1
                else Ok st1)
             (fun deps =>
                if ToBoolean deps && isObjectType deps
                then entriesFlatMap deps
                       (fun depName child => observed child (JStr depName))
                else [])).
    intros deps Hd s.
    destruct (ToBoolean deps && isObjectType deps); [|reflexivity].
    apply forEntries_entriesFlatMap.
    intros child Hchild k s'.
    simpl in Hgc. rewrite Forall_forall in Hgc.
    specialize (Hgc deps Hd). rewrite Forall_forall in Hgc.
    apply Hgc. assumption.
Qed.

End Flatten.

(** ** [flattenPackages]: the pairs observed and the pairs kept *)

Section Observed.
Context {H : Host}.

Lemma withField_Forall {B : Type} (Q : B -> Prop) (k : jsstring)
  (fields : list (jsstring * value)) (f : value -> list B) :
  (forall deps, In deps (List.map snd fields) -> Forall Q (f deps)) ->
  Forall Q (withField k fields [] f).
Proof.
  induction fields as [|[k' v] fields IH]; intros Hf; [constructor|].
  rewrite withField_cons. destruct (str_eqb k k').
  - apply Hf. left; reflexivity.
  - apply IH. intros deps Hd. apply Hf. right; assumption.
Qed.

Lemma entriesFlatMap_Forall {B : Type} (Q : B -> Prop) (deps : value)
  (g : jsstring -> value -> list B) :
  (forall child, In child (children deps) -> forall k, Forall Q (g k child)) ->
  Forall Q (entriesFlatMap deps g).
Proof.
  intros Hg. destruct deps as [| | | | |items|fields]; try constructor.
  - simpl in Hg |- *. generalize 0%nat.
    induction items as [|x items IH]; intros i; [constructor|].
    apply Forall_app; split; [apply Hg; left; reflexivity|].
    apply IH. intros child Hc. apply Hg. right; assumption.
  - simpl in Hg |- *. apply Forall_flat_map. apply Forall_forall.
    intros [k x] Hin. apply Hg. apply in_map_iff. exists (k, x); auto.
Qed.

(** Every observed pair has a truthy name and a truthy version. *)
Lemma observed_truthy (node : value) :
  forall inferredName,
    Forall (fun p => ToBoolean p.(name) && ToBoolean p.(version) = true)
      (observed node inferredName).
Proof.
  induction node as [node Hc Hgc] using value_ind2.
  intros inferredName.
  destruct node as [| | | | |items|fields]; try constructor.
  - destruct b; constructor.
  - cbn [observed isObjectType typeof negb]. rewrite orb_true_r. constructor.
  - cbn [observed isObjectType typeof negb]. rewrite orb_true_r. constructor.
  - cbn [observed ToBoolean isObjectType typeof negb orb get].
    rewrite andb_false_r. constructor.
  - cbn [observed ToBoolean isObjectType typeof negb orb].
    apply Forall_app; split.
    + destruct (ToBoolean _ && ToBoolean _) eqn:Et; repeat constructor. exact Et.
    + apply withField_Forall. intros deps Hd.
      destruct (ToBoolean deps && isObjectType deps); [|constructor].
      apply entriesFlatMap_Forall. intros child Hchild k.
      simpl in Hgc. rewrite Forall_forall in Hgc.
      specialize (Hgc deps Hd). rewrite Forall_forall in Hgc.
      apply Hgc. assumption.
Qed.

Lemma Set_has_In (seen : VersionSet) (k : jsstring) :
  Set_has seen (JStr k) = true <-> In k seen.
Proof.
  simpl. rewrite existsb_exists. split.
  - intros (x & Hx & E). apply str_eqb_eq in E. subst; assumption.
  - intros Hk. exists k; split; [assumption | apply str_eqb_refl].
Qed.

Lemma stringNamed_key (p : InstalledPackage) :
  stringNamed p -> packageKey p.(name) p.(version) = Ok (keyOf p).
Proof.
  intros [Hn [s Hs]]. unfold keyOf, packageKey.
  destruct (name p); try discriminate. simpl. rewrite Hs. reflexivity.
Qed.

Lemma stringNamed_convertible (p : InstalledPackage) :
  stringNamed p -> convertiblePackage p.
Proof.
  intros [Hn Hv]. split; [|exact Hv].
  destruct (name p); try discriminate. eexists; reflexivity.
Qed.

Lemma convertible_key (p : InstalledPackage) :
  convertiblePackage p -> packageKey p.(name) p.(version) = Ok (keyOf p).
Proof.
  intros [[n Hn] [v Hv]]. unfold keyOf, packageKey. rewrite Hn, Hv. reflexivity.
Qed.

(** Recording a pair keeps [seen] the keys of [results], puts the key of the
    pair among them, and adds at most the pair. *)
Lemma recordPair_spec (p : InstalledPackage) (st : FlattenState) :
  ToBoolean p.(name) && ToBoolean p.(version) = true ->
  convertiblePackage p -> seenIsKeys st ->
  exists st',
    recordPair p st = Ok st' /\ seenIsKeys st' /\
    incl (snd st) (snd st') /\
    (forall q, In q (snd st') -> In q (snd st) \/ q = p) /\
    In (keyOf p) (fst st').
Proof.
  intros Ht Hp [Hk Hnd]. destruct st as [seen results]. simpl in Hk, Hnd.
  unfold recordPair, record. rewrite Ht, (convertible_key p Hp). cbn [bind].
  assert (Heta : {| name := name p; version := version p |} = p)
    by (destruct p; reflexivity).
  rewrite Heta.
  destruct (Set_has seen (JStr (keyOf p))) eqn:Eh; cbn [negb].
  - exists (seen, results). split; [reflexivity|].
    split; [split; assumption|].
    split; [apply incl_refl|].
    split; [auto|]. apply Set_has_In; assumption.
  - unfold Set_add. rewrite Eh.
    exists (seen ++ [keyOf p], results ++ [p]). split; [reflexivity|].
    split.
    { split; simpl.
      - rewrite map_app, Hk. reflexivity.
      - apply NoDup_app; [assumption | repeat constructor; intros [] |].
        intros k Hin [<- | []].
        apply Set_has_In in Hin. congruence. }
    split; [apply incl_appl, incl_refl|].
    split.
    { simpl. intros q Hq. apply in_app_iff in Hq as [Hq | [<- | []]]; auto. }
    simpl. apply in_app_iff. right; left; reflexivity.
Qed.

Lemma seenIsKeys_incl (st st' : FlattenState) :
  seenIsKeys st -> seenIsKeys st' -> incl (snd st) (snd st') ->
  incl (fst st) (fst st').
Proof.
  intros [Hk _] [Hk' _] Hi k. rewrite Hk, Hk', !in_map_iff.
  intros (q & E & Hq). exists q; split; [assumption | apply Hi; assumption].
Qed.

Lemma forOf_recordPair (obs : list InstalledPackage) :
  Forall (fun p => ToBoolean p.(name) && ToBoolean p.(version) = true) obs ->
  Forall convertiblePackage obs ->
  forall st, seenIsKeys st ->
  exists st',
    forOf obs recordPair st = Ok st' /\ seenIsKeys st' /\
    incl (snd st) (snd st') /\
    (forall q, In q (snd st') -> In q (snd st) \/ In q obs) /\
    (forall p, In p obs -> In (keyOf p) (fst st')).
Proof.
  induction obs as [|p obs IH]; intros Ht Hn st Hinv.
  - exists st. split; [reflexivity|]. split; [assumption|].
    split; [apply incl_refl|]. split; [auto | intros p []].
  - inversion Ht as [|? ? Htp Ht']; subst. inversion Hn as [|? ? Hnp Hn']; subst.
    destruct (recordPair_spec p st Htp Hnp Hinv)
      as (st1 & E1 & Hinv1 & Hincl1 & Hnew1 & Hkey1).
    destruct (IH Ht' Hn' st1 Hinv1) as (st' & E' & Hinv' & Hincl' & Hnew' & Hkeys').
    exists st'. rewrite forOf_cons, E1. cbn [bind].
    split; [exact E'|]. split; [exact Hinv'|].
    split; [eapply incl_tran; eassumption|].
    split.
    { intros q Hq. destruct (Hnew' q Hq) as [Hq1 | Hq1]; [|right; right; assumption].
      destruct (Hnew1 q Hq1) as [? | ->]; [left; assumption | right; left; reflexivity]. }
    intros q [<- | Hq]; [|apply Hkeys'; assumption].
    apply (seenIsKeys_incl st1 st' Hinv1 Hinv' Hincl'). assumption.
Qed.

End Observed.

(** ** [flattenPackages]: the order *)

Section PackageOrder.
Context {H : Host}.

Lemma cmpVer_values (a b : value) :
  (exists s, ToString a = Ok s) -> (exists s, ToString b = Ok s) ->
  exists c, cmpVer a b = Ok c /\ sign c = valueOrder a b.
Proof.
  intros [sa Ha] [sb Hb]. unfold cmpVer, valueOrder, compareParsed.
  destruct (parseSemver a) as [pa|], (parseSemver b) as [pb|].
  - destruct (negb (major pa =? major pb));
      [|destruct (negb (minor pa =? minor pb))];
      eexists; (split; [reflexivity | apply sign_sub]).
  - eexists; split; reflexivity.
  - eexists; split; reflexivity.
  - rewrite Ha, Hb. eexists; split; reflexivity.
Qed.

Lemma cmpPackage_order (a b : InstalledPackage) :
  stringNamed a -> stringNamed b ->
  exists c, cmpPackage a b = Ok c /\ sign c = packageOrder a b.
Proof.
  intros [Han Hav] [Hbn Hbv]. unfold cmpPackage, packageOrder.
  destruct (name a) as [| | | |an| |]; try discriminate.
  destruct (name b) as [| | | |bn| |]; try discriminate.
  rewrite strictEquals_strings. destruct (str_eqb an bn).
  - apply cmpVer_values; assumption.
  - simpl. eexists; split; reflexivity.
Qed.

Context {HC : ConsistentCollation H}.

Lemma valueOrder_antisym (a b : value) :
  (exists s, ToString a = Ok s) -> (exists s, ToString b = Ok s) ->
  valueOrder a b = - valueOrder b a.
Proof.
  intros [sa Ha] [sb Hb]. unfold valueOrder.
  destruct (parseSemver a) as [pa|], (parseSemver b) as [pb|]; try reflexivity.
  - apply compareParsed_antisym.
  - rewrite Ha, Hb. rewrite localeCompare_antisym. lia.
Qed.

Lemma valueOrder_trans (a b c : value) :
  (exists s, ToString a = Ok s) -> (exists s, ToString b = Ok s) ->
  (exists s, ToString c = Ok s) ->
  valueOrder a b <= 0 -> valueOrder b c <= 0 -> valueOrder a c <= 0.
Proof.
  intros [sa Ha] [sb Hb] [sc Hc]. unfold valueOrder.
  destruct (parseSemver a) as [pa|], (parseSemver b) as [pb|],
    (parseSemver c) as [pc|]; try lia.
  - apply compareParsed_trans.
  - rewrite Ha, Hb, Hc. intros Hab Hbc.
    pose proof (localeCompare_trans sa sb sc) as Ht. lia.
Qed.

Lemma packageOrder_antisym (a b : InstalledPackage) :
  stringNamed a -> stringNamed b -> packageOrder a b = - packageOrder b a.
Proof.
  intros [Han Hav] [Hbn Hbv]. unfold packageOrder.
  destruct (name a) as [| | | |an| |]; try discriminate.
  destruct (name b) as [| | | |bn| |]; try discriminate.
  rewrite (str_eqb_sym bn an). destruct (str_eqb an bn).
  - apply valueOrder_antisym; assumption.
  - rewrite localeCompare_antisym. lia.
Qed.

Lemma packageOrder_trans (l : list InstalledPackage) (a b c : InstalledPackage) :
  namesSeparated l -> In a l -> In b l -> In c l ->
  stringNamed a -> stringNamed b -> stringNamed c ->
  packageOrder a b <= 0 -> packageOrder b c <= 0 -> packageOrder a c <= 0.
Proof.
  intros Hsep Ia Ib Ic [Han Hav] [Hbn Hbv] [Hcn Hcv]. unfold packageOrder.
  destruct (name a) as [| | | |an| |] eqn:Ea; try discriminate.
  destruct (name b) as [| | | |bn| |] eqn:Eb; try discriminate.
  destruct (name c) as [| | | |cn| |] eqn:Ec; try discriminate.
  destruct (str_eqb an bn) eqn:Eab, (str_eqb bn cn) eqn:Ebc.
  - apply str_eqb_eq in Eab, Ebc. subst. rewrite str_eqb_refl.
    apply valueOrder_trans; assumption.
  - apply str_eqb_eq in Eab. subst. rewrite Ebc. lia.
  - apply str_eqb_eq in Ebc. subst. rewrite Eab. lia.
  - intros Hab Hbc.
    pose proof (localeCompare_trans an bn cn) as Ht.
    destruct (str_eqb an cn) eqn:Eac; [|lia].
    apply str_eqb_eq in Eac. subst cn. exfalso.
    pose proof (localeCompare_antisym an bn) as Has.
    assert (E0 : localeCompare an bn = 0) by lia.
    apply (Hsep a b an bn Ia Ib Ea Eb) in E0. subst.
    rewrite str_eqb_refl in Eab. discriminate.
Qed.

Lemma notAfter_cmpPackage (a b : InstalledPackage) :
  stringNamed a -> stringNamed b ->
  (notAfter cmpPackage a b <-> packageOrder a b <= 0).
Proof.
  intros Ha Hb. destruct (cmpPackage_order a b Ha Hb) as (c & Ec & Hs).
  unfold notAfter. rewrite Ec, <- Hs. split.
  - intros (c' & [= <-] & Hle). assumption.
  - intros Hle. exists c; auto.
Qed.

(** In order for the comparator means by name, then by version. *)
Lemma notAfter_byNameThenVersion (l : list InstalledPackage)
  (a b : InstalledPackage) :
  namesSeparated l -> In a l -> In b l -> stringNamed a -> stringNamed b ->
  notAfter cmpPackage a b -> byNameThenVersion a b.
Proof.
  intros Hsep Ia Ib [Han Hav] [Hbn Hbv] (c & Ec & Hle).
  unfold cmpPackage in Ec. unfold byNameThenVersion.
  destruct (name a) as [| | | |an| |] eqn:Ea; try discriminate.
  destruct (name b) as [| | | |bn| |] eqn:Eb; try discriminate.
  exists an, bn. split; [reflexivity|]. split; [reflexivity|].
  rewrite strictEquals_strings in Ec. destruct (str_eqb an bn) eqn:Eab.
  - right. apply str_eqb_eq in Eab. split; [assumption|]. exists c; auto.
  - left. simpl in Ec. injection Ec as <-. rewrite sign_ofZ in Hle.
    destruct (Z.eq_dec (localeCompare an bn) 0) as [E0|]; [|lia].
    apply (Hsep a b an bn Ia Ib Ea Eb) in E0. subst.
    rewrite str_eqb_refl in Eab. discriminate.
Qed.

End PackageOrder.

Lemma StronglySorted_impl_in {A : Type} (R R' : A -> A -> Prop) (l : list A) :
  (forall x y, In x l -> In y l -> R x y -> R' x y) ->
  StronglySorted R l -> StronglySorted R' l.
Proof.
  intros Himp Hs. induction Hs as [|x l Hs IH Hx]; constructor.
  - apply IH. intros a b Ia Ib. apply Himp; right; assumption.
  - rewrite Forall_forall in Hx |- *. intros y Hy.
    apply Himp; [left; reflexivity | right; assumption | apply Hx; assumption].
Qed.

(** C3, as stated, fails: in [collidingTree] the pairs [(a, b@1)] and
    [(a@b, 1)] are both observed and have the one key [a@b@1]; the list
    returned holds the first and not the second. *)
Lemma flattenPackages_key_collision :
  In {| name := JStr (str "a@b"); version := JStr (str "1") |}
    (observedIn collidingTree) /\
  @flattenPackages codeUnitHost collidingTree
  = Ok [{| name := JStr (str "a"); version := JStr (str "b@1") |}].
Proof.
  split.
  - vm_compute. right; left; reflexivity.
  - vm_compute. reflexivity.
Qed.

(** ** Throwing *)

(** The comparator of [flattenPackages] throws on two numeric names in
    whichever order the sort hands them over. *)
Lemma cmpPackage_throws_on_numeric_names :
  @cmpPackage codeUnitHost
    {| name := JNum (ofZ 1); version := JStr (str "1.0.0") |}
    {| name := JNum (ofZ 2); version := JStr (str "1.0.0") |} = Throw TypeError /\
  @cmpPackage codeUnitHost
    {| name := JNum (ofZ 2); version := JStr (str "1.0.0") |}
    {| name := JNum (ofZ 1); version := JStr (str "1.0.0") |} = Throw TypeError.
Proof. split; vm_compute; reflexivity. Qed.

(** C4, as stated, fails: [flattenPackages] throws a TypeError on a tree with
    two nodes whose names are the numbers 1 and 2, when the sort calls
    [localeCompare] on a number; [normalizeMalwareList] throws a TypeError on
    a record whose name is an object with an own property [toString], when
    it converts the name to a string. *)
Lemma flattenPackages_normalizeMalwareList_throw :
  @flattenPackages codeUnitHost numericNamesTree = Throw TypeError /\
  @normalizeMalwareList codeUnitHost toStringNameFeed = Throw TypeError.
Proof. split; vm_compute; reflexivity. Qed.

(* ================================================================== *)
(** * Further properties of the normaliser *)

Section MapFacts.
Context {H : Host}.

Lemma assoc_None (n : jsstring) (map : AdvisoryMap) :
  assoc n map = None <-> ~ In n (Map_keys map).
Proof.
  induction map as [|[k s] map IH]; simpl; [tauto|].
  destruct (str_eqb n k) eqn:E.
  - apply str_eqb_eq in E. subst. split; [discriminate | intros Hn; exfalso; auto].
  - apply str_eqb_neq in E. rewrite IH. split.
    + intros Hn [Hk | Hk]; [congruence | auto].
    + intros Hn Hk; auto.
Qed.

Lemma assoc_In (n : jsstring) (map : AdvisoryMap) (s : VersionSet) :
  assoc n map = Some s -> In (n, s) map.
Proof.
  induction map as [|[k s'] map IH]; simpl; [discriminate|].
  destruct (str_eqb n k) eqn:E.
  - apply str_eqb_eq in E. intros [= <-]. subst. left; reflexivity.
  - intros Hs. right; auto.
Qed.

Lemma Set_add_In (s : VersionSet) (v x : jsstring) :
  In x (Set_add s v) <-> In x s \/ x = v.
Proof.
  unfold Set_add. destruct (Set_has s (JStr v)) eqn:E.
  - apply Set_has_In in E. split; [auto | intros [?| ->]; assumption].
  - rewrite in_app_iff. simpl. split; [intros [?|[<-|[]]]; auto | intros [?| ->]; auto].
Qed.

Lemma Set_add_NoDup (s : VersionSet) (v : jsstring) :
  NoDup s -> NoDup (Set_add s v).
Proof.
  intros Hs. unfold Set_add. destruct (Set_has s (JStr v)) eqn:E; [assumption|].
  apply NoDup_app; [assumption | repeat constructor; intros [] |].
  intros x Hx [<- | []]. apply Set_has_In in Hx. congruence.
Qed.

Lemma Set_add_nonempty (s : VersionSet) (v : jsstring) : Set_add s v <> [].
Proof.
  unfold Set_add. destruct (Set_has s (JStr v)) eqn:E.
  - destruct s; [discriminate E | discriminate].
  - destruct s; discriminate.
Qed.

(** What [map.get(n).add(v)] does to a lookup. *)
Lemma assoc_Map_addTo (map : AdvisoryMap) (n v k : jsstring) :
  assoc k (Map_addTo map n v)
  = if str_eqb k n then option_map (fun s => Set_add s v) (assoc n map)
    else assoc k map.
Proof.
  induction map as [|[k' s] map IH]; simpl.
  - destruct (str_eqb k n); reflexivity.
  - destruct (str_eqb n k') eqn:En; simpl.
    + apply str_eqb_eq in En. subst k'.
      destruct (str_eqb k n); reflexivity.
    + destruct (str_eqb k k') eqn:Ek.
      * apply str_eqb_eq in Ek. subst k'.
        rewrite (str_eqb_sym k n), En. reflexivity.
      * exact IH.
Qed.

Lemma assoc_app (k : jsstring) (m1 m2 : AdvisoryMap) :
  assoc k (m1 ++ m2) = match assoc k m1 with Some s => Some s | None => assoc k m2 end.
Proof.
  induction m1 as [|[k' s] m1 IH]; simpl; [reflexivity|].
  destruct (str_eqb k k'); [reflexivity | exact IH].
Qed.

(** The lookups after [add(name, version)] has put the fact (n, v) in. *)
Lemma add_assoc (name version : value) (map map' : AdvisoryMap) :
  ToBoolean name = true -> ToBoolean version = true ->
  add name version map = Ok map' ->
  exists n v,
    ToString name = Ok n /\ ToString version = Ok v /\
    forall k,
      assoc k map'
      = if str_eqb k n
        then Some (Set_add (match assoc n map with Some s => s | None => [] end) v)
        else assoc k map.
Proof.
  intros Hn Hv. unfold add. rewrite Hn, Hv. cbn [negb orb].
  destruct (ToString name) as [n|e]; [|discriminate].
  destruct (ToString version) as [v|e]; [|discriminate].
  cbn [bind]. intros [= <-]. exists n, v. split; [reflexivity|]. split; [reflexivity|].
  intros k. rewrite assoc_Map_addTo. unfold Map_has, Map_get.
  destruct (assoc n map) as [s|] eqn:En; cbn [negb]; cbv iota.
  - rewrite En. reflexivity.
  - rewrite !assoc_app, En. simpl. rewrite str_eqb_refl.
    destruct (str_eqb k n) eqn:Ek; [reflexivity|].
    destruct (assoc k map); reflexivity.
Qed.

Lemma Map_addTo_first (l1 l2 : AdvisoryMap) (n v : jsstring) (s : VersionSet) :
  ~ In n (Map_keys l1) ->
  Map_addTo (l1 ++ (n, s) :: l2) n v = l1 ++ (n, Set_add s v) :: l2.
Proof.
  induction l1 as [|[k s'] l1 IH]; simpl; intros Hn.
  - rewrite str_eqb_refl. reflexivity.
  - destruct (str_eqb n k) eqn:E.
    + apply str_eqb_eq in E. subst. exfalso; auto.
    + rewrite IH by auto. reflexivity.
Qed.

Lemma first_key_split (map : AdvisoryMap) (n : jsstring) :
  In n (Map_keys map) ->
  exists l1 s l2, map = l1 ++ (n, s) :: l2 /\ ~ In n (Map_keys l1).
Proof.
  induction map as [|[k s] map IH]; simpl; intros Hin; [contradiction|].
  destruct (str_eqb n k) eqn:E.
  - apply str_eqb_eq in E. subst. exists [], s, map. split; [reflexivity | auto].
  - apply str_eqb_neq in E. destruct Hin as [Hk | Hin]; [congruence|].
    destruct (IH Hin) as (l1 & s' & l2 & -> & Hn).
    exists ((k, s) :: l1), s', l2. split; [reflexivity|].
    simpl. intros [Hk | Hk]; [congruence | auto].
Qed.

Lemma wellFormedMap_update (l1 l2 : AdvisoryMap) (n v : jsstring) (s : VersionSet) :
  wellFormedMap (l1 ++ (n, s) :: l2) ->
  wellFormedMap (l1 ++ (n, Set_add s v) :: l2).
Proof.
  unfold wellFormedMap, Map_keys. rewrite !map_app, !Forall_app. simpl.
  intros [Hk [H1 H2]]. split; [assumption|]. split; [assumption|].
  inversion H2 as [|? ? [_ Hnd] H2']; subst. simpl in Hnd.
  constructor; [|assumption]. simpl.
  split; [apply Set_add_nonempty | apply Set_add_NoDup; assumption].
Qed.

Lemma wellFormedMap_new (map : AdvisoryMap) (n v : jsstring) :
  wellFormedMap map -> ~ In n (Map_keys map) ->
  wellFormedMap (map ++ [(n, Set_add [] v)]).
Proof.
  unfold wellFormedMap, Map_keys. rewrite !map_app, !Forall_app. simpl.
  intros [Hk Hf] Hn. split.
  - apply NoDup_app; [assumption | repeat constructor; intros [] |].
    intros x Hx [<- | []]. auto.
  - split; [assumption|]. repeat constructor; [discriminate | intros [] ].
Qed.

(** [add] keeps the map well formed. *)
Lemma add_wellFormed (name version : value) (map map' : AdvisoryMap) :
  wellFormedMap map -> add name version map = Ok map' -> wellFormedMap map'.
Proof.
  intros Hw. unfold add.
  destruct (negb (ToBoolean name) || negb (ToBoolean version));
    [intros [= <-]; assumption|].
  destruct (ToString name) as [n|e]; [|discriminate].
  destruct (ToString version) as [v|e]; [|discriminate].
  cbn [bind]. intros [= <-]. unfold Map_has, Map_get.
  destruct (assoc n map) as [s|] eqn:En; cbn [negb]; cbv iota.
  - assert (Hin : In n (Map_keys map)).
    { apply assoc_In in En. apply in_map_iff. exists (n, s); auto. }
    destruct (first_key_split map n Hin) as (l1 & s' & l2 & -> & Hn).
    rewrite Map_addTo_first by assumption.
    apply wellFormedMap_update. assumption.
  - apply assoc_None in En.
    match goal with
    | |- wellFormedMap ?x =>
        replace x with (map ++ [(n, Set_add [] v)])
        by (symmetry; exact (Map_addTo_first map [] n v [] En))
    end.
    apply wellFormedMap_new; assumption.
Qed.

(** A step kept by every turn of a loop is kept by the loop. *)
Lemma forOf_invariant {A St : Type} (Inv : St -> Prop) (l : list A)
  (body : A -> St -> result St) :
  (forall x s s', In x l -> Inv s -> body x s = Ok s' -> Inv s') ->
  forall s s', Inv s -> forOf l body s = Ok s' -> Inv s'.
Proof.
  induction l as [|x l IH]; intros Hb s s' Hs.
  - intros [= <-]; assumption.
  - rewrite forOf_cons. destruct (body x s) as [s1|e] eqn:E; [|discriminate].
    cbn [bind]. apply IH.
    + intros y t t' Hy. apply Hb. right; assumption.
    + eapply Hb; [left; reflexivity | eassumption | eassumption].
Qed.

Section Invariant.
Variable Inv : AdvisoryMap -> Prop.
Hypothesis add_Inv :
  forall name version map map', Inv map -> add name version map = Ok map' -> Inv map'.

Lemma addMany_invariant (name arr : value) (map map' : AdvisoryMap) :
  Inv map -> addMany name arr map = Ok map' -> Inv map'.
Proof.
  intros Hi. unfold addMany.
  destruct (negb (ToBoolean name) || negb (Array_isArray arr));
    [intros [= <-]; assumption|].
  apply (forOf_invariant Inv); [|assumption].
  intros x s s' _. apply add_Inv.
Qed.

Lemma when_invariant (cond : bool) (step : AdvisoryMap -> result AdvisoryMap)
  (map map' : AdvisoryMap) :
  (forall m m', Inv m -> step m = Ok m' -> Inv m') ->
  Inv map -> when cond step map = Ok map' -> Inv map'.
Proof.
  intros Hs Hi. unfold when. destruct cond; [apply Hs; assumption|].
  intros [= <-]; assumption.
Qed.

Lemma considerEntry_invariant (entry : value) (map map' : AdvisoryMap) :
  Inv map -> considerEntry entry map = Ok map' -> Inv map'.
Proof.
  intros Hi. unfold considerEntry.
  destruct (negb (ToBoolean entry) || negb (isObjectType entry));
    [intros [= <-]; assumption|].
  destruct (if hasProperty (str "ecosystem") entry then _ else _) as [skip|e];
    [|discriminate].
  cbn [bind]. destruct skip; [intros [= <-]; assumption|].
  destruct (ToBoolean (entryName entry)); [|intros [= <-]; assumption].
  destruct (when _ _ map) as [m1|e] eqn:E1; [|discriminate]. cbn [bind].
  destruct (when _ _ m1) as [m2|e] eqn:E2; [|discriminate]. cbn [bind].
  destruct (when _ _ m2) as [m3|e] eqn:E3; [|discriminate]. cbn [bind].
  destruct (when _ _ m3) as [m4|e] eqn:E4; [|discriminate]. cbn [bind].
  intros E5.
  pose proof (fun v => addMany_invariant (entryName entry) v) as HaddMany.
  pose proof (fun v => add_Inv (entryName entry) v) as Hadd.
  eapply when_invariant in E1; [|apply HaddMany|exact Hi].
  eapply when_invariant in E2; [|apply HaddMany|exact E1].
  eapply when_invariant in E3; [|apply HaddMany|exact E2].
  eapply when_invariant in E4; [|apply Hadd|exact E3].
  eapply when_invariant in E5; [|apply Hadd|exact E4].
  exact E5.
Qed.

Lemma nestedMapping_invariant (v : value) (map map' : AdvisoryMap) :
  Inv map -> nestedMapping v map = Ok map' -> Inv map'.
Proof.
  intros Hi. unfold nestedMapping. apply (forOf_invariant Inv); [|assumption].
  intros [nk nv] s s' _ Hs.
  destruct (Array_isArray nv && nonEmptyAllSemverish nv);
    [apply addMany_invariant; assumption | intros [= <-]; assumption].
Qed.

Lemma walkObject_invariant (obj : value) :
  forall map map', Inv map -> walkObject obj map = Ok map' -> Inv map'.
Proof.
  induction obj as [| |b|n|s|items IH|fields IH] using value_ind;
    intros map map' Hi; try (intros [= <-]; assumption).
  cbn [walkObject]. apply (forOf_invariant Inv); [|assumption].
  intros [k v] m m' Hin Hm.
  destruct (Array_isArray v).
  - destruct (nonEmptyAllSemverish v); [apply addMany_invariant; assumption|].
    apply (forOf_invariant Inv); [|assumption].
    intros x t t' _. apply considerEntry_invariant.
  - destruct (ToBoolean v && isObjectType v).
    + destruct (existsb (str_eqb k) containerKeys).
      * rewrite Forall_forall in IH. apply (IH (k, v) Hin). assumption.
      * apply nestedMapping_invariant; assumption.
    + destruct (isStringType v && isSemverish v); [|intros [= <-]; assumption].
      apply add_Inv; assumption.
Qed.

Lemma normalizeMalwareList_invariant (data : value) (map : AdvisoryMap) :
  Inv [] -> normalizeMalwareList data = Ok map -> Inv map.
Proof.
  intros Hi. unfold normalizeMalwareList.
  destruct (Array_isArray data).
  - apply (forOf_invariant Inv); [|assumption].
    intros x t t' _. apply considerEntry_invariant.
  - destruct (ToBoolean data && isObjectType data); [|intros [= <-]; assumption].
    apply walkObject_invariant; assumption.
Qed.

End Invariant.

End MapFacts.

(** X1: whatever the feed, the map [normalizeMalwareList] returns has every
    package name once, and under every name a set that is not empty and
    holds every version once. *)
Theorem normalizeMalwareList_wellFormed {H : Host} (data : value) (map : AdvisoryMap) :
  normalizeMalwareList data = Ok map -> wellFormedMap map.
Proof.
  apply (normalizeMalwareList_invariant wellFormedMap).
  - intros name version m m'. apply add_wellFormed.
  - split; constructor.
Qed.

(** X1 on a feed that names [evil] twice. *)
Lemma normalizeMalwareList_wellFormed_witness :
  @normalizeMalwareList codeUnitHost
    (JArr [JObj [(str "name", JStr (str "evil")); (str "version", JStr (str "1.2.3"))];
           JObj [(str "package", JStr (str "evil"));
                 (str "versions", JArr [JStr (str "1.2.3"); JStr (str "1.2.4")])]])
  = Ok [(str "evil", [str "1.2.3"; str "1.2.4"])] /\
  wellFormedMap [(str "evil", [str "1.2.3"; str "1.2.4"])].
Proof.
  split; [vm_compute; reflexivity|].
  apply (@normalizeMalwareList_wellFormed codeUnitHost
           (JArr [JObj [(str "name", JStr (str "evil"));
                        (str "version", JStr (str "1.2.3"))];
                  JObj [(str "package", JStr (str "evil"));
                        (str "versions", JArr [JStr (str "1.2.3"); JStr (str "1.2.4")])]])).
  vm_compute; reflexivity.
Defined.

Section FactsKept.
Context {H : Host}.

Lemma hasFact_iff (map : AdvisoryMap) (n v : jsstring) :
  hasFact map n v = true <-> exists s, assoc n map = Some s /\ In v s.
Proof.
  unfold hasFact, Map_get. destruct (assoc n map) as [s|].
  - rewrite Set_has_In. split; [intros Hv; exists s; auto | intros (s' & [= <-] & Hv); auto].
  - split; [discriminate | intros (s & E & _); discriminate].
Qed.

(** The facts after [add(name, version)]: those before, and (n, v). *)
Lemma add_facts (name version : value) (map map' : AdvisoryMap) :
  ToBoolean name = true -> ToBoolean version = true ->
  add name version map = Ok map' ->
  exists n v,
    ToString name = Ok n /\ ToString version = Ok v /\
    forall k x,
      hasFact map' k x = true <-> hasFact map k x = true \/ (k = n /\ x = v).
Proof.
  intros Hn Hv Ha.
  destruct (add_assoc name version map map' Hn Hv Ha) as (n & v & En & Ev & Hassoc).
  exists n, v. split; [assumption|]. split; [assumption|].
  intros k x. rewrite !hasFact_iff. rewrite Hassoc.
  destruct (str_eqb k n) eqn:Ek.
  - apply str_eqb_eq in Ek. subst k. split.
    + intros (s & [= <-] & Hx). apply Set_add_In in Hx as [Hx | ->]; [|auto].
      left. destruct (assoc n map) as [s0|]; [exists s0; auto | contradiction].
    + intros Hor. eexists; split; [reflexivity|]. apply Set_add_In.
      destruct Hor as [(s & -> & Hx) | [_ ->]]; auto.
  - apply str_eqb_neq in Ek. split; [auto|].
    intros [Hs | [-> _]]; [assumption | congruence].
Qed.

Lemma add_keeps (k x : jsstring) (name version : value) (map map' : AdvisoryMap) :
  hasFact map k x = true -> add name version map = Ok map' ->
  hasFact map' k x = true.
Proof.
  intros Hf Ha.
  destruct (ToBoolean name) eqn:Hn, (ToBoolean version) eqn:Hv;
    try (unfold add in Ha; rewrite Hn, Hv in Ha; cbn in Ha; injection Ha as <-;
         assumption).
  destruct (add_facts name version map map' Hn Hv Ha) as (n & v & _ & _ & Hiff).
  apply Hiff. left; assumption.
Qed.

Lemma forOf_add_fact (name : value) (n x : jsstring) (l : list value)
  (map map' : AdvisoryMap) :
  ToBoolean name = true -> ToString name = Ok n ->
  In (JStr x) l -> x <> [] ->
  forOf l (fun v => add name v) map = Ok map' -> hasFact map' n x = true.
Proof.
  intros Hn En. revert map. induction l as [|y l IH]; intros map Hin Hx; [contradiction|].
  rewrite forOf_cons. destruct (add name y map) as [m1|e] eqn:E1; [|discriminate].
  cbn [bind]. intros Hl. destruct Hin as [-> | Hin].
  - apply (forOf_invariant (fun m => hasFact m n x = true)) with (s := m1) in Hl;
      [assumption | |].
    + intros z s s' _ Hs. apply add_keeps; assumption.
    + assert (Hv : ToBoolean (JStr x) = true) by (destruct x; [contradiction|reflexivity]).
      destruct (add_facts name (JStr x) map m1 Hn Hv E1) as (n' & v' & En' & Ev' & Hiff).
      rewrite En in En'. injection En' as <-. simpl in Ev'. injection Ev' as <-.
      apply Hiff. right; split; reflexivity.
  - eapply IH; eassumption.
Qed.

(** A record with a string for [name], a string for [version], and no
    ecosystem tag or the tag npm, puts its fact in the map. *)
Lemma considerEntry_fact (entry : value) (n v : jsstring) (map map' : AdvisoryMap) :
  get entry (str "name") = JStr n -> n <> [] ->
  hasProperty (str "ecosystem") entry = false
  \/ (exists e, ToString (get entry (str "ecosystem")) = Ok e
                /\ toLowerCase e = str "npm") ->
  considerEntry entry map = Ok map' ->
  (get entry (str "version") = JStr v -> v <> [] -> hasFact map' n v = true) /\
  (In (JStr v) (elements (get entry (str "versions"))) -> v <> [] ->
   hasFact map' n v = true).
Proof.
  intros Hname Hn Heco. unfold considerEntry.
  destruct (negb (ToBoolean entry) || negb (isObjectType entry)) eqn:Eobj.
  { destruct entry; simpl in Hname, Eobj; discriminate. }
  assert (Hskip : (if hasProperty (str "ecosystem") entry
                   then e <- ToString (get entry (str "ecosystem")) ;;
                        Ok (negb (str_eqb (toLowerCase e) (str "npm")))
                   else Ok false) = Ok false).
  { destruct Heco as [-> | (e & He & Hl)]; [reflexivity|].
    destruct (hasProperty (str "ecosystem") entry); [|reflexivity].
    rewrite He. cbn [bind]. rewrite Hl, str_eqb_refl. reflexivity. }
  rewrite Hskip. cbn [bind].
  assert (Hen : entryName entry = JStr n).
  { unfold entryName, orElse. rewrite Hname.
    destruct n; [contradiction | reflexivity]. }
  rewrite Hen.
  assert (Ht : ToBoolean (JStr n) = true) by (destruct n; [contradiction | reflexivity]).
  rewrite Ht.
  destruct (when _ _ map) as [m1|e] eqn:E1; [|discriminate]. cbn [bind].
  destruct (when _ _ m1) as [m2|e] eqn:E2; [|discriminate]. cbn [bind].
  destruct (when _ _ m2) as [m3|e] eqn:E3; [|discriminate]. cbn [bind].
  destruct (when _ _ m3) as [m4|e] eqn:E4; [|discriminate]. cbn [bind].
  intros E5.
  pose proof (fun k x => addMany_invariant (fun m => hasFact m k x = true)
                           (add_keeps k x) (JStr n)) as HaddMany.
  pose proof (fun k x => add_keeps k x (JStr n)) as Hadd.
  split.
  - intros Hver Hv.
    assert (H4 : hasFact m4 n v = true).
    { unfold when in E4. rewrite Hver in E4. cbn in E4.
      assert (Htv : ToBoolean (JStr v) = true) by (destruct v; [contradiction | reflexivity]).
      destruct (add_facts (JStr n) (JStr v) m3 m4 Ht Htv E4)
        as (n' & v' & [= <-] & [= <-] & Hiff).
      apply Hiff. right; split; reflexivity. }
    apply (when_invariant (fun m => hasFact m n v = true)) with (map := m4) in E5;
      [exact E5 | intros m m'; apply Hadd | exact H4].
  - intros Hin Hv.
    assert (H1 : hasFact m1 n v = true).
    { destruct (get entry (str "versions")) as [| | | | |items|] eqn:Evs;
        simpl in Hin; try contradiction.
      unfold when in E1. cbn [Array_isArray] in E1. unfold addMany in E1.
      rewrite Ht in E1. cbn [negb orb Array_isArray elements] in E1.
      eapply forOf_add_fact; [exact Ht | reflexivity | exact Hin | exact Hv | exact E1]. }
    apply (when_invariant (fun m => hasFact m n v = true)) with (map := m1) in E2;
      [| intros m m'; apply HaddMany | exact H1].
    apply (when_invariant (fun m => hasFact m n v = true)) with (map := m2) in E3;
      [| intros m m'; apply HaddMany | exact E2].
    apply (when_invariant (fun m => hasFact m n v = true)) with (map := m3) in E4;
      [| intros m m'; apply Hadd | exact E3].
    apply (when_invariant (fun m => hasFact m n v = true)) with (map := m4) in E5;
      [| intros m m'; apply Hadd | exact E4].
    exact E5.
Qed.

End FactsKept.

(** X2: when [add(name, version)] returns for a truthy name and version, the
    map holds the fact made of their string forms, keeps every fact it had,
    and holds nothing else. *)
Theorem add_puts_exactly_one_fact {H : Host} (name version : value)
  (map map' : AdvisoryMap) :
  ToBoolean name = true -> ToBoolean version = true ->
  add name version map = Ok map' ->
  exists n v,
    ToString name = Ok n /\ ToString version = Ok v /\
    hasFact map' n v = true /\
    forall k x,
      hasFact map' k x = true <-> hasFact map k x = true \/ (k = n /\ x = v).
Proof.
  intros Hn Hv Ha.
  destruct (add_facts name version map map' Hn Hv Ha) as (n & v & En & Ev & Hiff).
  exists n, v. repeat split; try assumption; try apply Hiff; auto.
Qed.

(** X2 at a second version of a known package. *)
Lemma add_puts_exactly_one_fact_witness :
  ToBoolean (JStr (str "evil")) = true /\
  ToBoolean (JStr (str "1.2.4")) = true /\
  @add codeUnitHost (JStr (str "evil")) (JStr (str "1.2.4"))
    [(str "evil", [str "1.2.3"])]
  = Ok [(str "evil", [str "1.2.3"; str "1.2.4"])] /\
  exists n v,
    @ToString codeUnitHost (JStr (str "evil")) = Ok n /\
    @ToString codeUnitHost (JStr (str "1.2.4")) = Ok v /\
    hasFact [(str "evil", [str "1.2.3"; str "1.2.4"])] n v = true /\
    forall k x,
      hasFact [(str "evil", [str "1.2.3"; str "1.2.4"])] k x = true <->
      hasFact [(str "evil", [str "1.2.3"])] k x = true \/ (k = n /\ x = v).
Proof.
  split; [reflexivity|]. split; [reflexivity|].
  split; [vm_compute; reflexivity|].
  apply (@add_puts_exactly_one_fact codeUnitHost); vm_compute; reflexivity.
Defined.

(** X3: a feed never loses a fact by growing: what the normaliser finds in an
    array of records, or in the first entries of an object, it still finds
    when more records or entries follow. *)
Theorem normalizeMalwareList_monotone {H : Host} :
  (forall (l1 l2 : list value) (m1 m : AdvisoryMap) (k x : jsstring),
      normalizeMalwareList (JArr l1) = Ok m1 ->
      normalizeMalwareList (JArr (l1 ++ l2)) = Ok m ->
      hasFact m1 k x = true -> hasFact m k x = true) /\
  (forall (f1 f2 : list (jsstring * value)) (m1 m : AdvisoryMap) (k x : jsstring),
      normalizeMalwareList (JObj f1) = Ok m1 ->
      normalizeMalwareList (JObj (f1 ++ f2)) = Ok m ->
      hasFact m1 k x = true -> hasFact m k x = true).
Proof.
  split.
  - intros l1 l2 m1 m k x. unfold normalizeMalwareList. cbn [Array_isArray elements].
    rewrite forOf_app. intros ->. cbn [bind]. intros Hm Hf.
    apply (forOf_invariant (fun m => hasFact m k x = true)) with (s := m1) in Hm;
      [assumption | | assumption].
    intros y s s' _. apply (considerEntry_invariant _ (add_keeps k x)).
  - intros f1 f2 m1 m k x. unfold normalizeMalwareList.
    cbn [Array_isArray ToBoolean isObjectType typeof andb walkObject].
    rewrite forOf_app. intros ->. cbn [bind]. intros Hm Hf.
    change (walkObject (JObj f2) m1 = Ok m) in Hm.
    eapply (walkObject_invariant _ (add_keeps k x)); eassumption.
Qed.

(** X3 on a feed of one record followed by another. *)
Lemma normalizeMalwareList_monotone_witness :
  @normalizeMalwareList codeUnitHost
    (JArr [JObj [(str "name", JStr (str "evil")); (str "version", JStr (str "1.2.3"))]])
  = Ok [(str "evil", [str "1.2.3"])] /\
  @normalizeMalwareList codeUnitHost
    (JArr ([JObj [(str "name", JStr (str "evil")); (str "version", JStr (str "1.2.3"))]]
           ++ [JObj [(str "name", JStr (str "pkg")); (str "version", JStr (str "2.5.7"))]]))
  = Ok [(str "evil", [str "1.2.3"]); (str "pkg", [str "2.5.7"])] /\
  hasFact [(str "evil", [str "1.2.3"])] (str "evil") (str "1.2.3") = true /\
  hasFact [(str "evil", [str "1.2.3"]); (str "pkg", [str "2.5.7"])]
    (str "evil") (str "1.2.3") = true.
Proof.
  assert (E1 : @normalizeMalwareList codeUnitHost
                 (JArr [JObj [(str "name", JStr (str "evil"));
                              (str "version", JStr (str "1.2.3"))]])
               = Ok [(str "evil", [str "1.2.3"])]) by (vm_compute; reflexivity).
  assert (E2 : @normalizeMalwareList codeUnitHost
                 (JArr ([JObj [(str "name", JStr (str "evil"));
                               (str "version", JStr (str "1.2.3"))]]
                        ++ [JObj [(str "name", JStr (str "pkg"));
                                  (str "version", JStr (str "2.5.7"))]]))
               = Ok [(str "evil", [str "1.2.3"]); (str "pkg", [str "2.5.7"])])
    by (vm_compute; reflexivity).
  assert (E3 : hasFact [(str "evil", [str "1.2.3"])] (str "evil") (str "1.2.3") = true)
    by (vm_compute; reflexivity).
  split; [exact E1|]. split; [exact E2|]. split; [exact E3|].
  exact (proj1 (@normalizeMalwareList_monotone codeUnitHost) _ _ _ _ _ _ E1 E2 E3).
Defined.

(** X4: in an array feed, every record that has a non-empty string for [name]
    and no ecosystem tag, or the tag npm in any letter case, gets its
    [version] string and every string of its [versions] array into the map,
    wherever the record stands. *)
Theorem normalizeMalwareList_record_fact {H : Host} (feed : list value)
  (entry : value) (n v : jsstring) (map : AdvisoryMap) :
  In entry feed ->
  get entry (str "name") = JStr n -> n <> [] -> v <> [] ->
  hasProperty (str "ecosystem") entry = false
  \/ (exists e, ToString (get entry (str "ecosystem")) = Ok e
                /\ toLowerCase e = str "npm") ->
  get entry (str "version") = JStr v
  \/ In (JStr v) (elements (get entry (str "versions"))) ->
  normalizeMalwareList (JArr feed) = Ok map ->
  hasFact map n v = true.
Proof.
  intros Hin Hname Hn Hv Heco Hver.
  apply in_split in Hin as (l1 & l2 & ->).
  unfold normalizeMalwareList. cbn [Array_isArray elements].
  rewrite forOf_app.
  destruct (forOf l1 considerEntry []) as [m1|e]; [|discriminate]. cbn [bind].
  rewrite forOf_cons.
  destruct (considerEntry entry m1) as [m2|e] eqn:E2; [|discriminate]. cbn [bind].
  intros Hm.
  apply (forOf_invariant (fun m => hasFact m n v = true)) with (s := m2) in Hm;
    [assumption | |].
  - intros y s s' _. apply (considerEntry_invariant _ (add_keeps n v)).
  - destruct (considerEntry_fact entry n v m1 m2 Hname Hn Heco E2) as [Hone Hmany].
    destruct Hver as [Hver | Hver]; auto.
Qed.

(** X4 on a record tagged [NPM] between two others. *)
Lemma normalizeMalwareList_record_fact_witness :
  hasFact [(str "a", [str "1.0.0"]); (str "evil", [str "1.2.3"; str "1.2.4"])]
    (str "evil") (str "1.2.4") = true.
Proof.
  apply (@normalizeMalwareList_record_fact codeUnitHost
           [JObj [(str "name", JStr (str "a")); (str "version", JStr (str "1.0.0"))];
            JObj [(str "name", JStr (str "evil"));
                  (str "versions", JArr [JStr (str "1.2.3"); JStr (str "1.2.4")]);
                  (str "ecosystem", JStr (str "NPM"))];
            JNull]
           (JObj [(str "name", JStr (str "evil"));
                  (str "versions", JArr [JStr (str "1.2.3"); JStr (str "1.2.4")]);
                  (str "ecosystem", JStr (str "NPM"))])).
  - right; left; reflexivity.
  - reflexivity.
  - discriminate.
  - discriminate.
  - right. exists (str "NPM"). split; vm_compute; reflexivity.
  - right. vm_compute. right; left; reflexivity.
  - vm_compute; reflexivity.
Defined.

Section Containers.
Context {H : Host}.

Lemma bind_assoc {A B C : Type} (m : result A) (f : A -> result B) (g : B -> result C) :
  (y <- (x <- m ;; f x) ;; g y) = (x <- m ;; y <- f x ;; g y).
Proof. destruct m; reflexivity. Qed.

Lemma walkObject_app (f1 f2 : list (jsstring * value)) (map : AdvisoryMap) :
  walkObject (JObj (f1 ++ f2)) map
  = (m1 <- walkObject (JObj f1) map ;; walkObject (JObj f2) m1).
Proof. cbn [walkObject]. apply forOf_app. Qed.

Lemma walkObject_container (k : jsstring) (fs post : list (jsstring * value))
  (map : AdvisoryMap) :
  In k containerKeys ->
  walkObject (JObj ((k, JObj fs) :: post)) map
  = (m1 <- walkObject (JObj fs) map ;; walkObject (JObj post) m1).
Proof.
  intros Hk.
  assert (Hc : existsb (str_eqb k) containerKeys = true).
  { apply existsb_exists. exists k; split; [assumption | apply str_eqb_refl]. }
  change (walkObject (JObj ((k, JObj fs) :: post)) map)
    with (m1 <- (if existsb (str_eqb k) containerKeys
                 then walkObject (JObj fs) map
                 else nestedMapping (JObj fs) map) ;;
          walkObject (JObj post) m1).
  rewrite Hc. reflexivity.
Qed.

End Containers.

(** X5: an object under one of the keys [npm], [packages], [package], [data],
    [malware], [malware_predictions] is read as if its entries stood in its
    place: the feed normalises as the feed with the entries inlined. *)
Theorem normalizeMalwareList_container_inlined {H : Host} (k : jsstring)
  (before inner after : list (jsstring * value)) :
  In k containerKeys ->
  normalizeMalwareList (JObj (before ++ (k, JObj inner) :: after))
  = normalizeMalwareList (JObj (before ++ inner ++ after)).
Proof.
  intros Hk. unfold normalizeMalwareList.
  cbn [Array_isArray ToBoolean isObjectType typeof andb].
  rewrite (walkObject_app before), (walkObject_app before).
  destruct (walkObject (JObj before) []) as [m1|e]; [|reflexivity]. cbn [bind].
  rewrite walkObject_container, walkObject_app by assumption. reflexivity.
Qed.

(** X5 on a feed wrapped in [packages]. *)
Lemma normalizeMalwareList_container_inlined_witness :
  In (str "packages") containerKeys /\
  @normalizeMalwareList codeUnitHost
    (JObj ([] ++ (str "packages", JObj [(str "evil", JArr [JStr (str "1.2.3")])]) :: []))
  = @normalizeMalwareList codeUnitHost
      (JObj ([] ++ [(str "evil", JArr [JStr (str "1.2.3")])] ++ [])).
Proof.
  assert (Hk : In (str "packages") containerKeys) by (right; left; reflexivity).
  split; [exact Hk|].
  exact (@normalizeMalwareList_container_inlined codeUnitHost (str "packages")
           [] [(str "evil", JArr [JStr (str "1.2.3")])] [] Hk).
Defined.

(** ** The version pattern *)

Lemma skipDigits_split (s : jsstring) :
  exists ds, s = ds ++ skipDigits s /\ forallb isDigit ds = true.
Proof.
  induction s as [|c s (ds & E & Hd)]; [exists []; auto|].
  simpl. destruct (isDigit c) eqn:Ec.
  - exists (c :: ds). split; [simpl; congruence | simpl; rewrite Ec; assumption].
  - exists []. auto.
Qed.

Lemma skipDigits_app (ds x : jsstring) :
  forallb isDigit ds = true -> skipDigits (ds ++ x) = skipDigits x.
Proof.
  induction ds as [|c ds IH]; simpl; [reflexivity|].
  intros Hd. apply andb_true_iff in Hd as [-> Hd]. auto.
Qed.

Lemma digitsDot_iff (s r : jsstring) :
  digitsDot s = Some r <->
  exists ds, ds <> [] /\ forallb isDigit ds = true /\ s = ds ++ 46%N :: r.
Proof.
  split.
  - unfold digitsDot. destruct s as [|c s]; [discriminate|].
    destruct (isDigit c) eqn:Ec; [|discriminate].
    destruct (skipDigits_split s) as (ds & E & Hd). revert E.
    destruct (skipDigits s) as [|d r']; [discriminate|].
    destruct d as [|p]; [discriminate|].
    do 6 (destruct p as [p|p|]; try discriminate).
    intros E [= <-]. exists (c :: ds). split; [discriminate|].
    split; [simpl; rewrite Ec; assumption | simpl; f_equal; exact E].
  - intros (ds & Hne & Hd & ->). destruct ds as [|c ds]; [contradiction|].
    simpl in Hd |- *. apply andb_true_iff in Hd as [-> Hd].
    rewrite skipDigits_app by assumption. reflexivity.
Qed.

Lemma semverAt_iff (s : jsstring) :
  semverAt s = true <->
  exists a b c rest,
    a <> [] /\ forallb isDigit a = true /\
    b <> [] /\ forallb isDigit b = true /\
    isDigit c = true /\
    s = a ++ 46%N :: b ++ 46%N :: c :: rest.
Proof.
  unfold semverAt. split.
  - destruct (digitsDot s) as [r1|] eqn:E1; [|discriminate].
    destruct (digitsDot r1) as [r2|] eqn:E2; [|discriminate].
    destruct r2 as [|c rest]; [discriminate|]. intros Hc.
    apply digitsDot_iff in E1 as (a & Ha & Hda & ->).
    apply digitsDot_iff in E2 as (b & Hb & Hdb & ->).
    exists a, b, c, rest. auto 10.
  - intros (a & b & c & rest & Ha & Hda & Hb & Hdb & Hc & ->).
    assert (E1 : digitsDot (a ++ 46%N :: b ++ 46%N :: c :: rest)
                 = Some (b ++ 46%N :: c :: rest)).
    { apply digitsDot_iff. exists a. auto. }
    assert (E2 : digitsDot (b ++ 46%N :: c :: rest) = Some (c :: rest)).
    { apply digitsDot_iff. exists b. auto. }
    rewrite E1, E2. assumption.
Qed.

Lemma semverRegexTest_iff (s : jsstring) :
  semverRegexTest s = true <-> exists pre x, s = pre ++ x /\ semverAt x = true.
Proof.
  split.
  - induction s as [|c s IH].
    + cbn [semverRegexTest]. rewrite orb_false_r. intros Hs. exists [], []. auto.
    + cbn [semverRegexTest]. intros Hs. apply orb_true_iff in Hs as [Hs | Hs].
      * exists [], (c :: s). auto.
      * destruct (IH Hs) as (pre & x & -> & Hx). exists (c :: pre), x. auto.
  - intros (pre & x & -> & Hx). induction pre as [|c pre IH].
    + destruct x; cbn [semverRegexTest app]; rewrite Hx; reflexivity.
    + cbn [semverRegexTest app]. rewrite IH. apply orb_true_r.
Qed.

(** X6: [isSemverish] holds of a value exactly when it is a string that
    contains, anywhere, digits, a dot, digits, a dot and digits. *)
Theorem isSemverish_iff (v : value) :
  isSemverish v = true <->
  exists pre a b c post,
    a <> [] /\ forallb isDigit a = true /\
    b <> [] /\ forallb isDigit b = true /\
    c <> [] /\ forallb isDigit c = true /\
    v = JStr (pre ++ a ++ 46%N :: b ++ 46%N :: c ++ post).
Proof.
  split.
  - destruct v; try discriminate. simpl. intros Hs.
    apply semverRegexTest_iff in Hs as (pre & x & -> & Hx).
    apply semverAt_iff in Hx as (a & b & c & rest & Ha & Hda & Hb & Hdb & Hc & ->).
    exists pre, a, b, [c], rest.
    repeat (split; [first [assumption | discriminate | simpl; rewrite Hc; reflexivity]|]).
    reflexivity.
  - intros (pre & a & b & c & post & Ha & Hda & Hb & Hdb & Hc & Hdc & ->).
    simpl. apply semverRegexTest_iff.
    exists pre, (a ++ 46%N :: b ++ 46%N :: c ++ post). split; [reflexivity|].
    apply semverAt_iff. destruct c as [|c0 c]; [contradiction|].
    simpl in Hdc. apply andb_true_iff in Hdc as [Hc0 _].
    exists a, b, c0, (c ++ post). auto 10.
Qed.

(* ================================================================== *)
(** * Further properties of [scan] *)

Section ScanOrder.
Context {H : Host}.

Lemma insert_warnings (x : Finding.t) (l l' : list Finding.t) :
  Forall (fun f => f.(Finding.level) = warning) l ->
  insert cmpFinding x l = Ok l' ->
  leveled l'.
Proof.
  intros Hl E. destruct (Finding.level x) eqn:Ex.
  - destruct l as [|y l]; simpl in E.
    + injection E as <-. exists [x], []. repeat constructor. assumption.
    + inversion Hl as [|? ? Hy Hl']; subst.
      unfold cmpFinding in E. rewrite Ex, Hy in E. simpl in E.
      injection E as <-. exists [x], (y :: l).
      split; [reflexivity|]. split; [repeat constructor; assumption | assumption].
  - exists [], l'. split; [reflexivity|]. split; [constructor|].
    apply insert_Permutation in E.
    eapply Permutation_Forall; [exact E|]. constructor; assumption.
Qed.

Lemma insert_leveled (x : Finding.t) (l l' : list Finding.t) :
  leveled l -> insert cmpFinding x l = Ok l' -> leveled l'.
Proof.
  intros (cs & ws & -> & Hcs & Hws). revert l'.
  induction Hcs as [|y cs Hy Hcs IH]; intros l' E.
  - apply (insert_warnings x ws); assumption.
  - simpl in E. destruct (cmpFinding x y) as [c|e] eqn:Ec; simpl in E; [|discriminate].
    destruct (sign c <? 0) eqn:Es.
    + injection E as <-.
      destruct (Finding.level x) eqn:Ex.
      * exists (x :: y :: cs), ws. split; [reflexivity|].
        split; [repeat constructor; assumption | assumption].
      * unfold cmpFinding in Ec. rewrite Ex, Hy in Ec. simpl in Ec.
        injection Ec as <-. discriminate.
    + destruct (insert cmpFinding x (cs ++ ws)) as [r|e] eqn:Er; simpl in E;
        [|discriminate].
      injection E as <-.
      destruct (IH r eq_refl) as (cs' & ws' & -> & Hcs' & Hws').
      exists (y :: cs'), ws'. split; [reflexivity|].
      split; [constructor; assumption | assumption].
Qed.

Lemma sortInto_leveled (l acc r : list Finding.t) :
  leveled acc -> sortInto cmpFinding acc l = Ok r -> leveled r.
Proof.
  revert acc r; induction l as [|x l IH]; simpl; intros acc r Hacc.
  - intros [= <-]. assumption.
  - destruct (insert cmpFinding x acc) as [acc'|e] eqn:E; simpl; [|discriminate].
    apply IH. apply (insert_leveled x acc); assumption.
Qed.

Lemma scan_leveled (installed : list InstalledPackage) (malwareMap : AdvisoryMap)
  (patchDistance : number) (findings : list Finding.t) :
  scan installed malwareMap patchDistance = Ok findings -> leveled findings.
Proof.
  unfold scan, sort. apply sortInto_leveled.
  exists [], []. repeat constructor.
Qed.

End ScanOrder.

(** X7: whatever the collation of the host, [scan] returns a list in which
    every critical finding stands before every warning. *)
Theorem scan_criticals_first {H : Host} (installed : list InstalledPackage)
  (malwareMap : AdvisoryMap) (patchDistance : number) :
  exists criticals warnings,
    scan installed malwareMap patchDistance = Ok (criticals ++ warnings) /\
    Forall (fun f => f.(Finding.level) = critical) criticals /\
    Forall (fun f => f.(Finding.level) = warning) warnings.
Proof.
  destruct (scan_returns installed malwareMap patchDistance) as (findings & Hs & _).
  destruct (scan_leveled _ _ _ _ Hs) as (cs & ws & -> & Hcs & Hws).
  exists cs, ws. auto.
Qed.

Section FindingOrder.
Context {H : Host}.

Lemma reported_stringNamed (f : Finding.t) : stringFinding f -> stringNamed (reported f).
Proof.
  intros [Hn Hv]. split; [exact Hn|]. simpl.
  destruct (Finding.version f); try discriminate. eexists; reflexivity.
Qed.

Lemma cmpFinding_cmpPackage (a b : Finding.t) :
  a.(Finding.level) = b.(Finding.level) ->
  cmpFinding a b = cmpPackage (reported a) (reported b).
Proof.
  intros E. unfold cmpFinding, cmpPackage. rewrite E.
  replace (Level_eqb (Finding.level b) (Finding.level b)) with true
    by (destruct (Finding.level b); reflexivity).
  simpl. destruct (strictEquals (Finding.name a) (Finding.name b)); reflexivity.
Qed.

Lemma Level_eqb_eq (a b : Level) : Level_eqb a b = true <-> a = b.
Proof. destruct a, b; simpl; split; congruence. Qed.

Lemma cmpFinding_order (a b : Finding.t) :
  stringFinding a -> stringFinding b ->
  exists c, cmpFinding a b = Ok c /\ sign c = findingOrder a b.
Proof.
  intros Ha Hb. unfold findingOrder.
  destruct (Level_eqb (Finding.level a) (Finding.level b)) eqn:El; simpl.
  - apply Level_eqb_eq in El. rewrite (cmpFinding_cmpPackage a b El).
    apply cmpPackage_order; apply reported_stringNamed; assumption.
  - unfold cmpFinding. rewrite El. simpl.
    eexists; split; [reflexivity|]. destruct (Finding.level a); reflexivity.
Qed.

Lemma notAfter_cmpFinding (a b : Finding.t) :
  stringFinding a -> stringFinding b ->
  (notAfter cmpFinding a b <-> findingOrder a b <= 0).
Proof.
  intros Ha Hb. destruct (cmpFinding_order a b Ha Hb) as (c & Ec & Hs).
  unfold notAfter. rewrite Ec, <- Hs. split.
  - intros (c' & [= <-] & Hle). assumption.
  - intros Hle. exists c; auto.
Qed.

Context {HC : ConsistentCollation H}.

Lemma findingOrder_antisym (a b : Finding.t) :
  stringFinding a -> stringFinding b -> findingOrder a b = - findingOrder b a.
Proof.
  intros Ha Hb. unfold findingOrder.
  destruct (Finding.level a) eqn:Ea, (Finding.level b) eqn:Eb; simpl;
    try reflexivity; apply packageOrder_antisym; apply reported_stringNamed; assumption.
Qed.

Variable installed : list InstalledPackage.
Hypothesis separated : namesSeparated installed.

Lemma findingOrder_trans (a b c : Finding.t) :
  stringFinding a -> stringFinding b -> stringFinding c ->
  In (reported a) installed -> In (reported b) installed ->
  In (reported c) installed ->
  findingOrder a b <= 0 -> findingOrder b c <= 0 -> findingOrder a c <= 0.
Proof.
  intros Ha Hb Hc Ia Ib Ic. unfold findingOrder.
  destruct (Finding.level a), (Finding.level b), (Finding.level c); simpl; try lia;
    apply (packageOrder_trans installed);
    try (apply reported_stringNamed; assumption); assumption.
Qed.

Lemma notAfter_byLevelNameVersion (a b : Finding.t) :
  stringFinding a -> stringFinding b ->
  In (reported a) installed -> In (reported b) installed ->
  notAfter cmpFinding a b -> byLevelNameVersion a b.
Proof.
  intros Ha Hb Ia Ib Hab. unfold byLevelNameVersion.
  destruct (Level_eqb (Finding.level a) (Finding.level b)) eqn:El.
  - right. apply Level_eqb_eq in El. split; [exact El|].
    unfold notAfter in Hab. rewrite (cmpFinding_cmpPackage a b El) in Hab.
    change (notAfter cmpPackage (reported a) (reported b)) in Hab.
    apply (notAfter_byNameThenVersion installed);
      try (apply reported_stringNamed; assumption); assumption.
  - left. apply notAfter_cmpFinding in Hab; [|assumption|assumption].
    unfold findingOrder in Hab. rewrite El in Hab. simpl in Hab.
    destruct (Finding.level a), (Finding.level b); try discriminate; try lia; auto.
Qed.

Lemma packageFindings_installed (malwareMap : AdvisoryMap) (patchDistance : number)
  (pkg : InstalledPackage) :
  In pkg installed ->
  Forall (fun f => stringFinding f /\ In (reported f) installed)
    (packageFindings malwareMap patchDistance pkg).
Proof.
  intros Hpkg.
  pose proof (packageFindings_strings malwareMap patchDistance pkg) as Hs.
  rewrite Forall_forall in Hs |- *. intros f Hf. split; [apply Hs; exact Hf|].
  unfold packageFindings in Hf.
  destruct (Map_get malwareMap (name pkg)) as [blocked|]; [|contradiction].
  destruct (classify blocked (version pkg) patchDistance) as [[lvl ag]|];
    [|contradiction].
  destruct Hf as [<- | []]. unfold reported. cbn [Finding.name Finding.version].
  destruct pkg; exact Hpkg.
Qed.

Lemma scan_sorted_byLevelNameVersion (malwareMap : AdvisoryMap)
  (patchDistance : number) (findings : list Finding.t) :
  scan installed malwareMap patchDistance = Ok findings ->
  StronglySorted byLevelNameVersion findings.
Proof.
  intros Hs.
  set (P := fun f : Finding.t => stringFinding f /\ In (reported f) installed).
  assert (Hall : Forall P (flat_map (packageFindings malwareMap patchDistance) installed)).
  { apply Forall_flat_map. apply Forall_forall. intros pkg Hpkg.
    apply packageFindings_installed. exact Hpkg. }
  unfold scan in Hs. rewrite scan_fold in Hs. cbn [app] in Hs.
  assert (Hfs : Forall P findings).
  { eapply Permutation_Forall; [apply (sort_Permutation _ _ _ Hs) | exact Hall]. }
  apply (StronglySorted_impl_in (notAfter cmpFinding)).
  { rewrite Forall_forall in Hfs. intros x y Hx Hy.
    destruct (Hfs x Hx) as [Sx Ix]. destruct (Hfs y Hy) as [Sy Iy].
    apply notAfter_byLevelNameVersion; assumption. }
  apply (sort_sorted cmpFinding P)
    with (l := flat_map (packageFindings malwareMap patchDistance) installed);
    [| | |exact Hall|exact Hs].
  - intros x y [Sx _] [Sy _]. apply cmpFinding_returns; assumption.
  - intros x y c c' [Hx _] [Hy _] Exy Eyx.
    destruct (cmpFinding_order x y Hx Hy) as (d & Ed & Hd).
    destruct (cmpFinding_order y x Hy Hx) as (d' & Ed' & Hd').
    rewrite Exy in Ed. rewrite Eyx in Ed'. injection Ed as <-. injection Ed' as <-.
    rewrite Hd, Hd'. apply findingOrder_antisym; assumption.
  - intros x y z [Hx Ix] [Hy Iy] [Hz Iz] Hxy Hyz.
    apply notAfter_cmpFinding in Hxy; auto. apply notAfter_cmpFinding in Hyz; auto.
    apply notAfter_cmpFinding; auto.
    apply (findingOrder_trans x y z); auto.
Qed.

End FindingOrder.

(** [caseFoldingHost] is a consistent collation. *)
Lemma caseFoldingHost_consistent : ConsistentCollation caseFoldingHost.
Proof.
  split; simpl; unfold caseFoldingCompare.
  - intros a b. rewrite codeUnitCompare_antisym. apply Z.sgn_opp.
  - intros a b c. apply codeUnitCompare_trans.
Qed.

(** X8: when the collation of the host is consistent and tells the names of
    the installed packages apart, the list [scan] returns is in order:
    criticals before warnings, within a level by name under
    [localeCompare], and for one name by version under [cmpVer]. *)
Theorem scan_sorted {H : Host} (installed : list InstalledPackage)
  (malwareMap : AdvisoryMap) (patchDistance : number) (findings : list Finding.t) :
  ConsistentCollation H -> namesSeparated installed ->
  scan installed malwareMap patchDistance = Ok findings ->
  StronglySorted byLevelNameVersion findings.
Proof.
  intros HC Hsep. apply scan_sorted_byLevelNameVersion; assumption.
Qed.

(** X8 at a collation that gives 0 on the different strings [a] and [A],
    on two packages of which the second is the critical one. *)
Lemma scan_sorted_witness :
  ConsistentCollation caseFoldingHost /\
  @localeCompare caseFoldingHost (str "a") (str "A") = 0 /\
  @namesSeparated caseFoldingHost
    [{| name := JStr (str "abc"); version := JStr (str "2.5.6") |};
     {| name := JStr (str "evil"); version := JStr (str "1.2.3") |}] /\
  StronglySorted (@byLevelNameVersion caseFoldingHost)
    [{| Finding.level := critical; Finding.name := JStr (str "evil");
        Finding.version := JStr (str "1.2.3");
        Finding.against := JStr (str "1.2.3") |};
     {| Finding.level := warning; Finding.name := JStr (str "abc");
        Finding.version := JStr (str "2.5.6");
        Finding.against := JStr (str "2.5.7") |}].
Proof.
  assert (Hsep : @namesSeparated caseFoldingHost
                   [{| name := JStr (str "abc"); version := JStr (str "2.5.6") |};
                    {| name := JStr (str "evil"); version := JStr (str "1.2.3") |}]).
  { intros p q an bn [<- | [<- | []]] [<- | [<- | []]] [= <-] [= <-] E0;
      try reflexivity; vm_compute in E0; discriminate. }
  split; [exact caseFoldingHost_consistent|].
  split; [vm_compute; reflexivity|].
  split; [exact Hsep|].
  apply (@scan_sorted caseFoldingHost
           [{| name := JStr (str "abc"); version := JStr (str "2.5.6") |};
            {| name := JStr (str "evil"); version := JStr (str "1.2.3") |}]
           [(str "abc", [str "2.5.7"]); (str "evil", [str "1.2.3"])]
           (ofZ 1) _ caseFoldingHost_consistent Hsep).
  vm_compute. reflexivity.
Defined.

Section ScanCoverage.
Context {H : Host}.

Lemma packageFindings_reported (malwareMap : AdvisoryMap) (patchDistance : number)
  (pkg : InstalledPackage) (f : Finding.t) :
  In f (packageFindings malwareMap patchDistance pkg) ->
  reported f = pkg /\ Map_has malwareMap pkg.(name) = true.
Proof.
  unfold packageFindings, Map_has.
  destruct (Map_get malwareMap (name pkg)) as [blocked|]; [|contradiction].
  destruct (classify blocked (version pkg) patchDistance) as [[lvl ag]|];
    [|contradiction].
  intros [<- | []]. split; [|reflexivity]. destruct pkg; reflexivity.
Qed.

Lemma packageFindings_length (malwareMap : AdvisoryMap) (patchDistance : number)
  (installed : list InstalledPackage) :
  (List.length (flat_map (packageFindings malwareMap patchDistance) installed)
   <= List.length (filter (fun pkg => Map_has malwareMap pkg.(name)) installed))%nat.
Proof.
  induction installed as [|pkg installed IH]; simpl; [lia|].
  rewrite length_app.
  assert (Hone : (List.length (packageFindings malwareMap patchDistance pkg)
                  <= if Map_has malwareMap (name pkg) then 1 else 0)%nat).
  { unfold packageFindings, Map_has.
    destruct (Map_get malwareMap (name pkg)) as [blocked|]; simpl; [|lia].
    destruct (classify blocked (version pkg) patchDistance) as [[lvl ag]|];
      simpl; lia. }
  destruct (Map_has malwareMap (name pkg)); simpl; lia.
Qed.

End ScanCoverage.

(** X9: [scan] reports only installed packages whose name the advisory map
    has, and at most one finding for each entry of [installed]. *)
Theorem scan_reports_installed {H : Host} (installed : list InstalledPackage)
  (malwareMap : AdvisoryMap) (patchDistance : number) (findings : list Finding.t) :
  scan installed malwareMap patchDistance = Ok findings ->
  (List.length findings
   <= List.length (filter (fun pkg => Map_has malwareMap pkg.(name)) installed))%nat /\
  forall f, In f findings ->
            In (reported f) installed /\ Map_has malwareMap f.(Finding.name) = true.
Proof.
  intros Hs.
  destruct (scan_returns installed malwareMap patchDistance) as (fs & Hs' & Hperm).
  rewrite Hs in Hs'. injection Hs' as <-. split.
  - rewrite <- (Permutation_length Hperm). apply packageFindings_length.
  - intros f Hf. apply (Permutation_in _ (Permutation_sym Hperm)) in Hf.
    apply in_flat_map in Hf as (pkg & Hin & Hf).
    apply packageFindings_reported in Hf as [E Hm]. subst pkg. auto.
Qed.

(** X9 on one package the map does not name and one it does. *)
Lemma scan_reports_installed_witness :
  @scan codeUnitHost
    [{| name := JStr (str "abc"); version := JStr (str "1.0.0") |};
     {| name := JStr (str "evil"); version := JStr (str "1.2.3") |}]
    [(str "evil", [str "1.2.3"])] (ofZ 1)
  = Ok [{| Finding.level := critical; Finding.name := JStr (str "evil");
           Finding.version := JStr (str "1.2.3");
           Finding.against := JStr (str "1.2.3") |}] /\
  (List.length
     [{| Finding.level := critical; Finding.name := JStr (str "evil");
         Finding.version := JStr (str "1.2.3");
         Finding.against := JStr (str "1.2.3") |}]
   <= List.length
        (filter (fun pkg => Map_has [(str "evil", [str "1.2.3"])] pkg.(name))
           [{| name := JStr (str "abc"); version := JStr (str "1.0.0") |};
            {| name := JStr (str "evil"); version := JStr (str "1.2.3") |}]))%nat.
Proof.
  assert (E : @scan codeUnitHost
                [{| name := JStr (str "abc"); version := JStr (str "1.0.0") |};
                 {| name := JStr (str "evil"); version := JStr (str "1.2.3") |}]
                [(str "evil", [str "1.2.3"])] (ofZ 1)
              = Ok [{| Finding.level := critical; Finding.name := JStr (str "evil");
                       Finding.version := JStr (str "1.2.3");
                       Finding.against := JStr (str "1.2.3") |}])
    by (vm_compute; reflexivity).
  split; [exact E|].
  exact (proj1 (@scan_reports_installed codeUnitHost _ _ _ _ E)).
Defined.

(** ** The threshold *)

(** [number_leb] on two finite numbers, at any common scale. *)
Lemma number_leb_scale (m1 e1 m2 e2 k : Z) :
  k <= e1 -> k <= e2 ->
  number_leb (Finite m1 e1) (Finite m2 e2)
  = (m1 * 2 ^ (e1 - k) <=? m2 * 2 ^ (e2 - k)).
Proof.
  intros H1 H2. cbn [number_leb]. cbv zeta.
  set (e := Z.min e1 e2).
  assert (He : k <= e) by (unfold e; lia).
  assert (He1 : e <= e1) by (unfold e; lia).
  assert (He2 : e <= e2) by (unfold e; lia).
  replace (e1 - k) with ((e1 - e) + (e - k)) by lia.
  replace (e2 - k) with ((e2 - e) + (e - k)) by lia.
  rewrite !Z.pow_add_r by lia. rewrite !Z.mul_assoc.
  assert (Hp : 0 < 2 ^ (e - k)) by (apply Z.pow_pos_nonneg; lia).
  destruct (Z.leb_spec (m1 * 2 ^ (e1 - e)) (m2 * 2 ^ (e2 - e))) as [Hle|Hgt];
    symmetry.
  - apply Z.leb_le. apply Z.mul_le_mono_nonneg_r; lia.
  - apply Z.leb_gt. apply Z.mul_lt_mono_pos_r; lia.
Qed.

Lemma number_leb_trans (x y z : number) :
  number_leb x y = true -> number_leb y z = true -> number_leb x z = true.
Proof.
  destruct x as [|sx|m1 e1], y as [|sy|m2 e2], z as [|sz|m3 e3];
    try (destruct sx); try (destruct sy); try (destruct sz);
    try (simpl; congruence).
  set (k := Z.min e1 (Z.min e2 e3)).
  rewrite (number_leb_scale m1 e1 m2 e2 k), (number_leb_scale m2 e2 m3 e3 k),
    (number_leb_scale m1 e1 m3 e3 k) by (unfold k; lia).
  rewrite !Z.leb_le. lia.
Qed.

Section Threshold.
Context {H : Host}.

Lemma adjacent_monotone (pv : ParsedVersion) (d d' : number) (bver : jsstring) :
  number_leb d d' = true ->
  adjacent pv d bver = true -> adjacent pv d' bver = true.
Proof.
  intros Hd. unfold adjacent. destruct (parseSemver (JStr bver)) as [bv|]; [|auto].
  rewrite !andb_true_iff. intros [Hmm Hp]. split; [exact Hmm|].
  apply (number_leb_trans _ d); assumption.
Qed.

Lemma find_not_None {A : Type} (p : A -> bool) (l : list A) (x : A) :
  In x l -> p x = true -> exists y, find p l = Some y.
Proof.
  induction l as [|a l IH]; simpl; [contradiction|].
  intros [-> | Hin] Hp.
  - rewrite Hp. eexists; reflexivity.
  - destruct (p a); [eexists; reflexivity | auto].
Qed.

Lemma packageFindings_monotone (malwareMap : AdvisoryMap) (d d' : number)
  (pkg : InstalledPackage) (f : Finding.t) :
  number_leb d d' = true ->
  In f (packageFindings malwareMap d pkg) ->
  exists f', In f' (packageFindings malwareMap d' pkg) /\
             reported f' = reported f /\
             (f.(Finding.level) = critical -> f' = f).
Proof.
  intros Hd. unfold packageFindings, classify.
  destruct (Map_get malwareMap (name pkg)) as [blocked|]; [|contradiction].
  destruct (Set_has blocked (version pkg)) eqn:Eh.
  - intros [<- | []]. eexists; split; [left; reflexivity|]. auto.
  - destruct (parseSemver (version pkg)) as [pv|]; [|contradiction].
    destruct (find (fun bver => strictEquals (JStr bver) (version pkg)
                                || adjacent pv d bver) blocked)
      as [bver|] eqn:Ef; [|contradiction].
    apply find_some in Ef as [Hin Hq].
    rewrite (Set_has_false_strictEquals _ _ Eh _ Hin) in Hq |- *.
    cbn [orb] in Hq. intros [<- | []].
    destruct (find_not_None
                (fun bver => strictEquals (JStr bver) (version pkg)
                             || adjacent pv d' bver) blocked bver Hin) as [y Ey].
    { rewrite (adjacent_monotone pv d d' bver Hd Hq). apply orb_true_r. }
    rewrite Ey. apply find_some in Ey as [Hy _].
    rewrite (Set_has_false_strictEquals _ _ Eh _ Hy).
    eexists; split; [left; reflexivity|]. split; [reflexivity|]. discriminate.
Qed.

End Threshold.

(** X10: raising the patch distance loses no finding: every package
    reported under a threshold is reported under any larger one, and a
    critical finding stays as it is. *)
Theorem scan_threshold_monotone {H : Host} (installed : list InstalledPackage)
  (malwareMap : AdvisoryMap) (d d' : number) (findings findings' : list Finding.t) :
  number_leb d d' = true ->
  scan installed malwareMap d = Ok findings ->
  scan installed malwareMap d' = Ok findings' ->
  forall f, In f findings ->
            exists f', In f' findings' /\ reported f' = reported f /\
                       (f.(Finding.level) = critical -> f' = f).
Proof.
  intros Hd Hs Hs' f Hf.
  destruct (scan_returns installed malwareMap d) as (fs & E & Hperm).
  rewrite Hs in E. injection E as <-.
  destruct (scan_returns installed malwareMap d') as (fs' & E' & Hperm').
  rewrite Hs' in E'. injection E' as <-.
  apply (Permutation_in _ (Permutation_sym Hperm)) in Hf.
  apply in_flat_map in Hf as (pkg & Hin & Hf).
  destruct (packageFindings_monotone malwareMap d d' pkg f Hd Hf) as (f' & Hf' & Hr).
  exists f'. split; [|exact Hr].
  apply (Permutation_in _ Hperm'). apply in_flat_map. exists pkg; auto.
Qed.

(** X10 from threshold 1 to threshold 2, at [pkg@2.5.6] against [2.5.7]. *)
Lemma scan_threshold_monotone_witness :
  number_leb (ofZ 1) (ofZ 2) = true /\
  exists f',
    In f' [{| Finding.level := warning; Finding.name := JStr (str "pkg");
              Finding.version := JStr (str "2.5.6");
              Finding.against := JStr (str "2.5.7") |}] /\
    reported f' = {| name := JStr (str "pkg"); version := JStr (str "2.5.6") |}.
Proof.
  assert (Hd : number_leb (ofZ 1) (ofZ 2) = true) by (vm_compute; reflexivity).
  split; [exact Hd|].
  destruct (@scan_threshold_monotone codeUnitHost
              [{| name := JStr (str "pkg"); version := JStr (str "2.5.6") |}]
              [(str "pkg", [str "2.5.7"])] (ofZ 1) (ofZ 2) _ _ Hd
              ltac:(vm_compute; reflexivity) ltac:(vm_compute; reflexivity)
              {| Finding.level := warning; Finding.name := JStr (str "pkg");
                 Finding.version := JStr (str "2.5.6");
                 Finding.against := JStr (str "2.5.7") |}
              ltac:(left; reflexivity)) as (f' & Hf' & Hr & _).
  exists f'. split; [exact Hf' | exact Hr].
Defined.

(* ================================================================== *)
(** * Further properties of [parseSemver] and [cmpVer] *)

(** ** A version has two dots *)

Lemma split_length (sep : char) (s : jsstring) :
  List.length (split sep s) = S (occurrences sep s).
Proof.
  unfold occurrences. induction s as [|c s IH]; [reflexivity|].
  cbn [split filter]. rewrite (N.eqb_sym sep c).
  destruct (N.eqb c sep); cbn [List.length].
  - rewrite IH. reflexivity.
  - destruct (split sep s) as [|piece pieces]; [discriminate|]. exact IH.
Qed.

Lemma occurrences_app (c : char) (a b : jsstring) :
  occurrences c (a ++ b) = (occurrences c a + occurrences c b)%nat.
Proof. unfold occurrences. rewrite filter_app, length_app. reflexivity. Qed.

Lemma occurrences_rev (c : char) (s : jsstring) :
  occurrences c (rev s) = occurrences c s.
Proof.
  induction s as [|x s IH]; [reflexivity|].
  cbn [rev]. rewrite occurrences_app, IH.
  change (x :: s) with ([x] ++ s). rewrite occurrences_app. lia.
Qed.

Lemma occurrences_trimStart (c : char) (s : jsstring) :
  (occurrences c (trimStart s) <= occurrences c s)%nat.
Proof.
  induction s as [|x s IH]; simpl; [lia|].
  destruct (isWhiteSpace x); [|lia].
  change (x :: s) with ([x] ++ s). rewrite occurrences_app. lia.
Qed.

Lemma occurrences_trim (c : char) (s : jsstring) :
  (occurrences c (trim s) <= occurrences c s)%nat.
Proof.
  unfold trim, trimEnd. rewrite occurrences_rev.
  etransitivity; [apply occurrences_trimStart|].
  rewrite occurrences_rev. apply occurrences_trimStart.
Qed.

Lemma occurrences_replaceLeadingV (c : char) (s : jsstring) :
  (occurrences c (replaceLeadingV s) <= occurrences c s)%nat.
Proof.
  destruct s as [|x s]; simpl; [lia|].
  destruct (N.eqb x 118); [|lia].
  change (x :: s) with ([x] ++ s). rewrite occurrences_app. lia.
Qed.

(** X11: [parseSemver] gives a record only for a string, and only for one
    with at least two dots. *)
Theorem parseSemver_two_dots (v : value) (pv : ParsedVersion) :
  parseSemver v = Some pv ->
  exists s, v = JStr s /\ (2 <= occurrences 46%N s)%nat.
Proof.
  destruct v as [| | | |s| |]; try discriminate.
  intros E. exists s. split; [reflexivity|].
  pose proof (occurrences_trim 46%N s) as Ht.
  pose proof (occurrences_replaceLeadingV 46%N (trim s)) as Hv.
  pose proof (split_length 46%N (replaceLeadingV (trim s))) as Hl.
  unfold parseSemver in E.
  destruct (split 46%N (replaceLeadingV (trim s))) as [|maj [|min [|rest tl]]];
    try discriminate.
  simpl in Hl. lia.
Qed.

(** X11 at [1.2.3]. *)
Lemma parseSemver_two_dots_witness :
  exists s, JStr (str "1.2.3") = JStr s /\ (2 <= occurrences 46%N s)%nat.
Proof.
  apply (parseSemver_two_dots (JStr (str "1.2.3"))
           {| major := 1; minor := 2; patch := 3 |}).
  vm_compute. reflexivity.
Defined.

(** ** Parsing what was formatted *)

Lemma isDigit_cases (c : char) :
  isDigit c = true ->
  (c = 48 \/ c = 49 \/ c = 50 \/ c = 51 \/ c = 52 \/ c = 53 \/ c = 54 \/ c = 55
   \/ c = 56 \/ c = 57)%N.
Proof.
  unfold isDigit. rewrite andb_true_iff, !N.leb_le. lia.
Qed.

Ltac digit_cases H :=
  apply isDigit_cases in H;
  repeat (destruct H as [H | H]); subst.

Lemma isDigit_not_whitespace (c : char) : isDigit c = true -> isWhiteSpace c = false.
Proof. intros Hc. digit_cases Hc; reflexivity. Qed.

Lemma digitValue_digit (c : char) :
  isDigit c = true -> digitValue 10 c = Some (Z.of_N c - 48).
Proof. intros Hc. digit_cases Hc; reflexivity. Qed.

Lemma isDigit_digitChar (d : N) : (d < 10)%N -> isDigit (digitChar d) = true.
Proof.
  intros Hd. unfold isDigit, digitChar. rewrite andb_true_iff, !N.leb_le. lia.
Qed.

Lemma natToStringAux_digits (fuel : nat) (n : N) (acc : jsstring) :
  (N.to_nat n < fuel)%nat ->
  exists ds,
    natToStringAux fuel n acc = ds ++ acc /\ ds <> [] /\
    forallb isDigit ds = true /\ readsAs ds (Z.of_N n).
Proof.
  revert n acc; induction fuel as [|fuel IH]; intros n acc Hn; [lia|].
  cbn [natToStringAux]. cbv zeta.
  assert (Hd : isDigit (digitChar (n mod 10)) = true).
  { apply isDigit_digitChar. apply N.mod_lt. discriminate. }
  destruct (N.ltb_spec n 10) as [Hlt|Hge].
  - exists [digitChar (n mod 10)]. split; [reflexivity|]. split; [discriminate|].
    split; [simpl; rewrite Hd; reflexivity|].
    intros r a l. cbn [app spanDigits List.length].
    rewrite (digitValue_digit _ Hd).
    unfold digitChar. rewrite N.mod_small by assumption.
    change (Z.of_nat 1) with 1. rewrite Z.pow_1_r.
    rewrite N2Z.inj_add. change (Z.of_N 48) with 48. f_equal; lia.
  - destruct (IH (n / 10)%N (digitChar (n mod 10) :: acc)) as (ds & E & Hne & Hds & Hr).
    { assert (n / 10 < n)%N by (apply N.div_lt; lia). lia. }
    exists (ds ++ [digitChar (n mod 10)]). rewrite E.
    split; [rewrite <- app_assoc; reflexivity|].
    split; [destruct ds; discriminate|].
    split; [rewrite forallb_app, Hds; simpl; rewrite Hd; reflexivity|].
    intros r a l. rewrite <- app_assoc. rewrite Hr.
    cbn [app spanDigits]. rewrite (digitValue_digit _ Hd).
    rewrite length_app. cbn [List.length].
    rewrite Nat2Z.inj_add. change (Z.of_nat 1) with 1.
    rewrite Z.pow_add_r by lia. rewrite Z.pow_1_r.
    unfold digitChar. rewrite N2Z.inj_add, N2Z.inj_div.
    pose proof (N.div_mod n 10 ltac:(discriminate)) as Hdm.
    apply (f_equal Z.of_N) in Hdm.
    rewrite N2Z.inj_add, N2Z.inj_mul, N2Z.inj_div in Hdm.
    change (Z.of_N 10) with 10 in *. change (Z.of_N 48) with 48.
    f_equal; lia.
Qed.

Lemma natToString_digits (n : nat) :
  natToString n <> [] /\ forallb isDigit (natToString n) = true /\
  readsAs (natToString n) (Z.of_nat n).
Proof.
  unfold natToString.
  destruct (natToStringAux_digits (S n) (N.of_nat n) []) as (ds & E & Hne & Hds & Hr).
  { rewrite Nat2N.id. lia. }
  rewrite E, app_nil_r. rewrite nat_N_Z in Hr. auto.
Qed.

Lemma forallb_isDigit_rev (s : jsstring) :
  forallb isDigit s = true -> forallb isDigit (rev s) = true.
Proof.
  rewrite !forallb_forall. intros Hs c Hc. apply Hs. apply in_rev. exact Hc.
Qed.

Lemma trimStart_digits (s : jsstring) :
  forallb isDigit s = true -> trimStart s = s.
Proof.
  destruct s as [|c s]; [reflexivity|]. simpl.
  intros Hs. apply andb_true_iff in Hs as [Hc _].
  rewrite (isDigit_not_whitespace c Hc). reflexivity.
Qed.

Lemma trim_digits (s : jsstring) : forallb isDigit s = true -> trim s = s.
Proof.
  intros Hs. unfold trim, trimEnd. rewrite (trimStart_digits s Hs).
  rewrite (trimStart_digits (rev s)) by (apply forallb_isDigit_rev; exact Hs).
  apply rev_involutive.
Qed.

Lemma toInteger_roundToDouble (n : Z) :
  0 <= n < 2 ^ 53 -> toInteger (roundToDouble n 1) = Some n.
Proof.
  intros [H0 Hlt]. destruct (Z.eq_dec n 0) as [->|Hn]; [reflexivity|].
  destruct (roundToDouble_exact n) as (m & e & -> & He & ->); [lia|].
  cbn [toInteger].
  assert (Hp : 0 < 2 ^ (- e)) by (apply Z.pow_pos_nonneg; lia).
  destruct (Z.leb_spec 0 e) as [Hle|Hgt].
  - replace e with 0 by lia. simpl. f_equal. lia.
  - rewrite Z.mod_mul by lia. rewrite Z.eqb_refl. rewrite Z.div_mul by lia.
    reflexivity.
Qed.

(** [Number] reads a run of decimal digits as the number they write. *)
Lemma StringToNumber_digits (ds : jsstring) (n : Z) :
  ds <> [] -> forallb isDigit ds = true -> readsAs ds n ->
  StringToNumber ds = roundToDouble n 1.
Proof.
  intros Hne Hds Hr. unfold StringToNumber. rewrite (trim_digits ds Hds).
  destruct ds as [|c r]; [contradiction|].
  assert (Hc : isDigit c = true).
  { simpl in Hds. apply andb_true_iff in Hds as [Hc _]. exact Hc. }
  assert (Hnd : nonDecimalIntegerLiteral (c :: r) = None).
  { destruct r as [|c2 r].
    - digit_cases Hc; reflexivity.
    - simpl in Hds. apply andb_true_iff in Hds as [_ Hds].
      apply andb_true_iff in Hds as [Hc2 _].
      digit_cases Hc; try reflexivity.
      digit_cases Hc2; reflexivity. }
  assert (Hs : strUnsignedDecimalLiteral (c :: r) = roundToDouble n 1).
  { unfold strUnsignedDecimalLiteral.
    assert (Hi : str_eqb (c :: r) (str "Infinity") = false).
    { digit_cases Hc; reflexivity. }
    rewrite Hi. specialize (Hr [] 0 0). rewrite app_nil_r in Hr. rewrite Hr.
    cbn [spanDigits].
    assert (Hl : 0 < Z.of_nat (List.length (c :: r))).
    { simpl List.length. lia. }
    destruct (Z.ltb_spec 0 (0 + Z.of_nat (List.length (c :: r)) + 0)) as [_|]; [|lia].
    cbn [exponentPart]. change (0 - 0) with 0. change (0 <=? 0) with true.
    cbv iota. f_equal. change (10 ^ 0) with 1. lia. }
  cbv beta iota zeta. rewrite Hnd.
  digit_cases Hc; exact Hs.
Qed.

Lemma Number_natToString (n : nat) :
  Z.of_nat n < 2 ^ 53 ->
  toInteger (StringToNumber (natToString n)) = Some (Z.of_nat n).
Proof.
  intros Hn. destruct (natToString_digits n) as (Hne & Hds & Hr).
  rewrite (StringToNumber_digits _ _ Hne Hds Hr).
  apply toInteger_roundToDouble. lia.
Qed.

Lemma split_app_head (sep : char) (a r : jsstring) :
  ~ In sep a ->
  split sep (a ++ r) = (a ++ hd [] (split sep r)) :: tl (split sep r).
Proof.
  induction a as [|c a IH]; intros Ha.
  - simpl. pose proof (split_nonempty sep r).
    destruct (split sep r); [contradiction | reflexivity].
  - cbn [app split].
    destruct (N.eqb_spec c sep) as [->|Hc]; [exfalso; apply Ha; left; reflexivity|].
    rewrite IH by (intros Hin; apply Ha; right; exact Hin). reflexivity.
Qed.

Lemma split_app_sep (sep : char) (a r : jsstring) :
  ~ In sep a -> split sep (a ++ sep :: r) = a :: split sep r.
Proof.
  intros Ha. rewrite (split_app_head sep a _ Ha).
  cbn [split]. rewrite N.eqb_refl. cbn [hd tl]. rewrite app_nil_r. reflexivity.
Qed.

Lemma digits_no_separator (ds : jsstring) (c : char) :
  forallb isDigit ds = true -> isDigit c = false -> ~ In c ds.
Proof.
  intros Hds Hc Hin. rewrite forallb_forall in Hds.
  rewrite (Hds c Hin) in Hc. discriminate.
Qed.

Lemma trimStart_app_nonws (x : jsstring) (c : char) (y : jsstring) :
  isWhiteSpace c = false -> trimStart (x ++ c :: y) = trimStart x ++ c :: y.
Proof.
  intros Hc. induction x as [|a x IH]; simpl.
  - rewrite Hc. reflexivity.
  - destruct (isWhiteSpace a); [exact IH | reflexivity].
Qed.

Lemma trimEnd_app_nonws (a : jsstring) (c : char) (s : jsstring) :
  isWhiteSpace c = false -> trimEnd (a ++ c :: s) = a ++ c :: trimEnd s.
Proof.
  intros Hc. unfold trimEnd. rewrite rev_app_distr. cbn [rev].
  rewrite <- app_assoc. cbn [app].
  rewrite (trimStart_app_nonws (rev s) c (rev a) Hc).
  rewrite rev_app_distr. cbn [rev]. rewrite rev_involutive, <- app_assoc.
  reflexivity.
Qed.

Lemma trimEnd_app_digits (a ds : jsstring) :
  ds <> [] -> forallb isDigit ds = true -> trimEnd (a ++ ds) = a ++ ds.
Proof.
  intros Hne Hds. destruct (exists_last Hne) as (ds' & d & ->).
  rewrite forallb_app in Hds. apply andb_true_iff in Hds as [_ Hd].
  simpl in Hd. rewrite andb_true_r in Hd.
  rewrite app_assoc. rewrite (trimEnd_app_nonws _ d [] (isDigit_not_whitespace d Hd)).
  reflexivity.
Qed.

(** What may follow the patch digits: nothing, a hyphen or a dot. *)
Lemma suffix_cut (suffix : jsstring) :
  (suffix = [] \/ exists c r, suffix = c :: r /\ (c = 45 \/ c = 46)%N) ->
  hd [] (split 45%N (hd [] (split 46%N suffix))) = [].
Proof.
  intros [-> | (c & r & -> & [-> | ->])]; [reflexivity| |reflexivity].
  cbn [split]. change (N.eqb 45 46) with false. cbv iota.
  pose proof (split_nonempty 46%N r).
  destruct (split 46%N r); [contradiction|]. reflexivity.
Qed.

Lemma segments_of_formatted (A B C suffix : jsstring) :
  forallb isDigit A = true -> forallb isDigit B = true -> forallb isDigit C = true ->
  (suffix = [] \/ exists c r, suffix = c :: r /\ (c = 45 \/ c = 46)%N) ->
  exists rest tl,
    split 46%N (A ++ 46%N :: B ++ 46%N :: C ++ suffix) = A :: B :: rest :: tl /\
    hd [] (split 45%N rest) = C.
Proof.
  intros HA HB HC Hs.
  rewrite (split_app_sep 46%N A) by (apply digits_no_separator; [exact HA|reflexivity]).
  rewrite (split_app_sep 46%N B) by (apply digits_no_separator; [exact HB|reflexivity]).
  rewrite (split_app_head 46%N C) by (apply digits_no_separator; [exact HC|reflexivity]).
  eexists; eexists; split; [reflexivity|].
  rewrite (split_app_head 45%N C) by (apply digits_no_separator; [exact HC|reflexivity]).
  cbn [hd]. rewrite (suffix_cut suffix Hs). apply app_nil_r.
Qed.

Lemma trim_formatted (lead F C suffix : jsstring) :
  lead = [] \/ lead = str "v" ->
  F <> [] -> forallb isDigit F = true ->
  C <> [] -> forallb isDigit C = true ->
  (suffix = [] \/ exists c r, suffix = c :: r /\ (c = 45 \/ c = 46)%N) ->
  forall mid,
  exists suffix',
    (suffix' = [] \/ exists c r, suffix' = c :: r /\ (c = 45 \/ c = 46)%N) /\
    replaceLeadingV (trim (lead ++ F ++ mid ++ C ++ suffix)) = F ++ mid ++ C ++ suffix'.
Proof.
  intros Hlead HF HFd HC HCd Hs mid.
  destruct F as [|f F]; [contradiction|].
  assert (Hf : isDigit f = true).
  { simpl in HFd. apply andb_true_iff in HFd as [Hf _]. exact Hf. }
  assert (Hstart : trimStart (lead ++ (f :: F) ++ mid ++ C ++ suffix)
                   = lead ++ (f :: F) ++ mid ++ C ++ suffix).
  { destruct Hlead as [-> | ->]; [|reflexivity].
    simpl. rewrite (isDigit_not_whitespace f Hf). reflexivity. }
  assert (Hend : exists suffix',
             (suffix' = [] \/ exists c r, suffix' = c :: r /\ (c = 45 \/ c = 46)%N) /\
             trimEnd (lead ++ (f :: F) ++ mid ++ C ++ suffix)
             = lead ++ (f :: F) ++ mid ++ C ++ suffix').
  { destruct Hs as [-> | (c & r & -> & Hc)].
    - exists []. split; [left; reflexivity|].
      rewrite !app_nil_r. rewrite !app_assoc. apply trimEnd_app_digits; assumption.
    - exists (c :: trimEnd r). split; [right; exists c, (trimEnd r); auto|].
      rewrite !app_assoc. apply trimEnd_app_nonws.
      destruct Hc as [-> | ->]; reflexivity. }
  destruct Hend as (suffix' & Hs' & Hend). exists suffix'. split; [exact Hs'|].
  unfold trim. rewrite Hstart, Hend.
  destruct Hlead as [-> | ->]; [|reflexivity].
  cbn [app replaceLeadingV]. digit_cases Hf; reflexivity.
Qed.

Lemma parseSemver_formatted (M m p : nat) (lead suffix : jsstring) :
  Z.of_nat M < 2 ^ 53 -> Z.of_nat m < 2 ^ 53 -> Z.of_nat p < 2 ^ 53 ->
  lead = [] \/ lead = str "v" ->
  (suffix = [] \/ exists c r, suffix = c :: r /\ (c = 45 \/ c = 46)%N) ->
  parseSemver (JStr (lead ++ formatVersion M m p ++ suffix))
  = Some {| major := Z.of_nat M; minor := Z.of_nat m; patch := Z.of_nat p |}.
Proof.
  intros HM Hm Hp Hlead Hs. unfold formatVersion.
  destruct (natToString_digits M) as (HMne & HMd & _).
  destruct (natToString_digits m) as (Hmne & Hmd & _).
  destruct (natToString_digits p) as (Hpne & Hpd & _).
  destruct (trim_formatted lead (natToString M) (natToString p) suffix
              Hlead HMne HMd Hpne Hpd Hs (46%N :: natToString m ++ [46%N]))
    as (suffix' & Hs' & Et).
  replace (lead ++ (natToString M ++ 46%N :: natToString m ++ 46%N :: natToString p)
             ++ suffix)
    with (lead ++ natToString M ++ (46%N :: natToString m ++ [46%N])
            ++ natToString p ++ suffix)
    by (rewrite <- !app_assoc; cbn [app]; rewrite <- !app_assoc; reflexivity).
  unfold parseSemver.
  match goal with
  | |- context [replaceLeadingV (trim ?w)] =>
      replace (replaceLeadingV (trim w))
        with (natToString M ++ 46%N :: natToString m ++ 46%N :: natToString p ++ suffix')
  end.
  2: { symmetry. etransitivity; [exact Et|].
       cbn [app]. rewrite <- !app_assoc. reflexivity. }
  cbv zeta.
  destruct (segments_of_formatted _ _ _ suffix' HMd Hmd Hpd Hs')
    as (rest & tl & -> & ->).
  rewrite !Number_natToString by assumption. reflexivity.
Qed.

(** X12: [parseSemver] reads back what was formatted: for natural numbers
    below [2^53], the text [M.m.p], with or without a leading [v], and with
    nothing after it or something that starts with a hyphen or a dot, parses
    to [{M, m, p}]. *)
Theorem parseSemver_formatVersion (M m p : nat) (lead suffix : jsstring) :
  Z.of_nat M < 2 ^ 53 -> Z.of_nat m < 2 ^ 53 -> Z.of_nat p < 2 ^ 53 ->
  lead = [] \/ lead = str "v" ->
  (suffix = [] \/ exists c r, suffix = c :: r /\ (c = 45 \/ c = 46)%N) ->
  parseSemver (JStr (lead ++ formatVersion M m p ++ suffix))
  = Some {| major := Z.of_nat M; minor := Z.of_nat m; patch := Z.of_nat p |}.
Proof. apply parseSemver_formatted. Qed.

(** X12 at [v1.10.0-rc.1]. *)
Lemma parseSemver_formatVersion_witness :
  parseSemver (JStr (str "v" ++ formatVersion 1 10 0 ++ str "-rc.1"))
  = Some {| major := 1; minor := 10; patch := 0 |}.
Proof.
  apply (parseSemver_formatVersion 1 10 0 (str "v") (str "-rc.1")).
  - vm_compute; reflexivity.
  - vm_compute; reflexivity.
  - vm_compute; reflexivity.
  - right; reflexivity.
  - right. exists 45%N, (str "rc.1"). split; [reflexivity | left; reflexivity].
Defined.

(** X13: on two formatted versions of natural numbers below [2^53],
    [cmpVer] returns a number whose sign is that of the numeric comparison
    by major, then minor, then patch, whatever the host. *)
Theorem cmpVer_formatVersion {H : Host} (M m p M' m' p' : nat) :
  Z.of_nat M < 2 ^ 53 -> Z.of_nat m < 2 ^ 53 -> Z.of_nat p < 2 ^ 53 ->
  Z.of_nat M' < 2 ^ 53 -> Z.of_nat m' < 2 ^ 53 -> Z.of_nat p' < 2 ^ 53 ->
  resultSign (cmpVer (JStr (formatVersion M m p)) (JStr (formatVersion M' m' p')))
  = Some (compareParsed
            {| major := Z.of_nat M; minor := Z.of_nat m; patch := Z.of_nat p |}
            {| major := Z.of_nat M'; minor := Z.of_nat m'; patch := Z.of_nat p' |}).
Proof.
  intros HM Hm Hp HM' Hm' Hp'.
  pose proof (parseSemver_formatted M m p [] [] HM Hm Hp
                (or_introl eq_refl) (or_introl eq_refl)) as E.
  pose proof (parseSemver_formatted M' m' p' [] [] HM' Hm' Hp'
                (or_introl eq_refl) (or_introl eq_refl)) as E'.
  cbn [app] in E, E'. rewrite app_nil_r in E, E'.
  rewrite resultSign_cmpVer. unfold versionOrder. rewrite E, E'. reflexivity.
Qed.

(** X13 at [1.9.0] and [1.10.0]: the smaller minor first, although the
    text [1.9.0] is the later one by code units. *)
Lemma cmpVer_formatVersion_witness :
  resultSign (@cmpVer codeUnitHost (JStr (formatVersion 1 9 0))
                (JStr (formatVersion 1 10 0)))
  = Some (-1).
Proof.
  apply (@cmpVer_formatVersion codeUnitHost 1 9 0 1 10 0); vm_compute; reflexivity.
Defined.

(* ================================================================== *)
(** * The threshold of [main] *)

Lemma number_leb_zero (m e : Z) : number_leb zero (Finite m e) = true -> 0 <= m.
Proof.
  unfold zero. rewrite (number_leb_scale 0 0 m e (Z.min 0 e)) by lia.
  rewrite Z.leb_le. intros Hle.
  assert (0 < 2 ^ (e - Z.min 0 e)) by (apply Z.pow_pos_nonneg; lia).
  nia.
Qed.

Lemma patchDistanceFromEnv_integer (raw : option jsstring) :
  exists z, toInteger (patchDistanceFromEnv raw) = Some z /\ 0 <= z.
Proof.
  assert (H1 : exists z, toInteger (ofZ 1) = Some z /\ 0 <= z)
    by (exists 1; split; [reflexivity | lia]).
  destruct raw as [raw|]; [|exact H1]. unfold patchDistanceFromEnv.
  destruct (str_eqb raw []); [exact H1|]. cbv zeta.
  destruct (toInteger (StringToNumber raw)) as [z|] eqn:Ez; [|exact H1].
  destruct (number_leb zero (StringToNumber raw)) eqn:El; [|exact H1].
  exists z. split; [exact Ez|].
  apply (toInteger_nonNegative (StringToNumber raw)); [|exact Ez].
  destruct (StringToNumber raw) as [|s|m e]; try discriminate.
  apply (number_leb_zero m e El).
Qed.

Lemma patchDistanceFromEnv_digits (n : nat) :
  Z.of_nat n < 2 ^ 53 ->
  patchDistanceFromEnv (Some (natToString n)) = roundToDouble (Z.of_nat n) 1.
Proof.
  intros Hn. destruct (natToString_digits n) as (Hne & Hds & Hr).
  unfold patchDistanceFromEnv.
  rewrite (proj2 (str_eqb_neq (natToString n) []) Hne). cbv zeta.
  rewrite (Number_natToString n Hn).
  rewrite (StringToNumber_digits _ _ Hne Hds Hr).
  assert (Hle : number_leb zero (roundToDouble (Z.of_nat n) 1) = true).
  { destruct (Z.eq_dec (Z.of_nat n) 0) as [->|Hn0]; [reflexivity|].
    destruct (roundToDouble_exact (Z.of_nat n)) as (m & e & -> & He & ->); [lia|].
    unfold zero. rewrite (number_leb_scale 0 0 _ e e) by lia.
    apply Z.leb_le.
    assert (0 < 2 ^ (- e)) by (apply Z.pow_pos_nonneg; lia).
    assert (0 < 2 ^ (e - e)) by (apply Z.pow_pos_nonneg; lia).
    nia. }
  rewrite Hle. reflexivity.
Qed.

(** X14: the threshold [main] takes from [WORMSCAN_PATCH_DISTANCE] is
    always an integer that is not negative, whatever the variable holds;
    and the decimal text of a natural number below [2^53] gives that
    number. *)
Theorem patchDistanceFromEnv_nonNegative_integer :
  (forall raw : option jsstring,
      exists z, toInteger (patchDistanceFromEnv raw) = Some z /\ 0 <= z) /\
  (forall n : nat,
      Z.of_nat n < 2 ^ 53 ->
      toInteger (patchDistanceFromEnv (Some (natToString n))) = Some (Z.of_nat n)).
Proof.
  split; [apply patchDistanceFromEnv_integer|].
  intros n Hn. rewrite (patchDistanceFromEnv_digits n Hn).
  apply toInteger_roundToDouble. lia.
Qed.

(** X14 at the text [3]. *)
Lemma patchDistanceFromEnv_nonNegative_integer_witness :
  toInteger (patchDistanceFromEnv (Some (natToString 3))) = Some 3.
Proof.
  apply (proj2 patchDistanceFromEnv_nonNegative_integer 3%nat).
  vm_compute; reflexivity.
Defined.

(* ================================================================== *)
(** * The report *)

Section ReportFacts.
Context {H : Host}.

Lemma bindConsole_Ok {A B : Type} (m : console A) (k : A -> console B)
  (out : list jsstring) (b : B) :
  bindConsole m k = (out, Ok b) ->
  exists out1 a out2, m = (out1, Ok a) /\ k a = (out2, Ok b) /\ out = out1 ++ out2.
Proof.
  destruct m as [out1 [a|e]]; simpl; [|discriminate].
  destruct (k a) as [out2 r] eqn:Ek. intros [= <- ->].
  exists out1, a, out2. auto.
Qed.

Lemma printFinding_Ok (noColor : bool) (patchDistance : number) (f : Finding.t)
  (c w c' w' : nat) (out : list jsstring) :
  printFinding noColor patchDistance f (c, w) = (out, Ok (c', w')) ->
  List.length out = 1%nat /\
  c' = (c + if Level_eqb f.(Finding.level) critical then 1 else 0)%nat /\
  w' = (w + if Level_eqb f.(Finding.level) warning then 1 else 0)%nat.
Proof.
  unfold printFinding.
  destruct (Finding.level f);
    destruct (ToString (Finding.name f)) as [n|e]; try discriminate;
    destruct (ToString (Finding.version f)) as [v|e]; try discriminate;
    destruct (ToString (Finding.against f)) as [a|e]; try discriminate;
    simpl; intros [= <- <- <-]; simpl; repeat split; lia.
Qed.

Lemma forOfConsole_printFinding (noColor : bool) (patchDistance : number)
  (findings : list Finding.t) (c w c' w' : nat) (out : list jsstring) :
  forOfConsole findings (printFinding noColor patchDistance) (c, w)
  = (out, Ok (c', w')) ->
  List.length out = List.length findings /\
  c' = (c + countLevel critical findings)%nat /\
  w' = (w + countLevel warning findings)%nat.
Proof.
  unfold countLevel. revert c w out.
  induction findings as [|f findings IH]; intros c w out.
  - simpl. intros [= <- <- <-]. simpl. repeat split; lia.
  - cbn [forOfConsole]. intros E.
    apply bindConsole_Ok in E as (out1 & [c1 w1] & out2 & E1 & E2 & ->).
    apply printFinding_Ok in E1 as (Hl & -> & ->).
    apply IH in E2 as (Hl2 & -> & ->).
    rewrite length_app, Hl, Hl2. cbn [filter List.length].
    destruct (Finding.level f); simpl; repeat split; lia.
Qed.

Lemma countLevel_total (findings : list Finding.t) :
  (countLevel critical findings + countLevel warning findings
   = List.length findings)%nat.
Proof.
  unfold countLevel. induction findings as [|f findings IH]; [reflexivity|].
  cbn [filter List.length]. destruct (Finding.level f); simpl; lia.
Qed.

Lemma printSummary_Ok (noColor : bool) (counts : nat * nat) :
  exists line, printSummary noColor counts = ([line], Ok tt).
Proof.
  unfold printSummary. destruct counts as [c w].
  destruct (Nat.eqb c 0 && Nat.eqb w 0); eexists; reflexivity.
Qed.

End ReportFacts.

(** X15: when [printFindings] returns, the two counters it returns are the
    number of critical findings and the number of the other findings, they
    add up to the number of findings, and more lines were written than
    there are findings: one for each, and the summary. *)
Theorem printFindings_counts {H : Host} (noColor : bool) (findings : list Finding.t)
  (patchDistance : number) (stats : option Stats.t)
  (out : list jsstring) (criticals warnings : nat) :
  printFindings noColor findings patchDistance stats = (out, Ok (criticals, warnings)) ->
  criticals = countLevel critical findings /\
  warnings = countLevel warning findings /\
  (criticals + warnings = List.length findings)%nat /\
  (List.length findings < List.length out)%nat.
Proof.
  unfold printFindings. intros E.
  apply bindConsole_Ok in E as (out1 & [c w] & out2 & E1 & E2 & ->).
  apply forOfConsole_printFinding in E1 as (Hl & -> & ->).
  apply bindConsole_Ok in E2 as (out3 & [] & out4 & E3 & E4 & ->).
  destruct (printSummary_Ok noColor
              (0 + countLevel critical findings, 0 + countLevel warning findings)%nat)
    as [line Es].
  rewrite Es in E3. injection E3 as <-.
  apply bindConsole_Ok in E4 as (out5 & [] & out6 & _ & E6 & ->).
  injection E6 as <- <- <-.
  split; [reflexivity|]. split; [reflexivity|].
  split; [apply countLevel_total|].
  rewrite !length_app, Hl. simpl. lia.
Qed.

(** X15 on one critical finding, without statistics. *)
Lemma printFindings_counts_witness :
  (1 = countLevel critical
         [{| Finding.level := critical; Finding.name := JStr (str "evil");
             Finding.version := JStr (str "1.2.3");
             Finding.against := JStr (str "1.2.3") |}])%nat /\
  (0 = countLevel warning
         [{| Finding.level := critical; Finding.name := JStr (str "evil");
             Finding.version := JStr (str "1.2.3");
             Finding.against := JStr (str "1.2.3") |}])%nat.
Proof.
  destruct (@printFindings_counts codeUnitHost true
              [{| Finding.level := critical; Finding.name := JStr (str "evil");
                  Finding.version := JStr (str "1.2.3");
                  Finding.against := JStr (str "1.2.3") |}]
              (ofZ 1) None _ 1%nat 0%nat ltac:(vm_compute; reflexivity))
    as (Hc & Hw & _).
  split; assumption.
Defined.

Section NoThrow.
Context {H : Host}.

(** *** What [flattenPackages] returns converts to strings *)

Lemma record_convertible (p : InstalledPackage) (st st' : FlattenState) :
  Forall convertiblePackage (snd st) ->
  recordPair p st = Ok st' -> Forall convertiblePackage (snd st').
Proof.
  intros Hst. unfold recordPair, record, packageKey.
  destruct (ToBoolean (name p) && ToBoolean (version p)); [|intros [= <-]; exact Hst].
  destruct (ToString (name p)) as [n|e] eqn:En; [|discriminate].
  destruct (ToString (version p)) as [v|e] eqn:Ev; [|discriminate].
  cbn [bind]. destruct st as [seen results].
  destruct (negb (Set_has seen (JStr (n ++ str "@" ++ v)))); intros [= <-];
    [|exact Hst].
  cbn [snd] in *. apply Forall_app. split; [exact Hst|].
  constructor; [|constructor]. split; eexists; simpl; eassumption.
Qed.

Lemma flattenPackages_convertible (tree : value) (installed : list InstalledPackage) :
  flattenPackages tree = Ok installed -> Forall convertiblePackage installed.
Proof.
  unfold flattenPackages. rewrite visit_observed.
  destruct (forOf (observed tree (get tree (str "name"))) recordPair ([], []))
    as [st|e] eqn:Ef; [|discriminate].
  cbn [bind]. intros Es.
  eapply Permutation_Forall; [apply (sort_Permutation _ _ _ Es)|].
  apply (forOf_invariant (fun st => Forall convertiblePackage (snd st))
           (observed tree (get tree (str "name"))) recordPair) with (s := ([], []));
    [|constructor|exact Ef].
  intros p s s' _. apply record_convertible.
Qed.

(** *** What [scan] returns is made of strings *)

Lemma packageFindings_printable (malwareMap : AdvisoryMap) (patchDistance : number)
  (pkg : InstalledPackage) :
  Forall printable (packageFindings malwareMap patchDistance pkg).
Proof.
  unfold packageFindings, classify, printable.
  destruct (Map_get malwareMap (name pkg)) as [blocked|] eqn:Eg; [|constructor].
  apply Map_get_string in Eg.
  destruct (Set_has blocked (version pkg)) eqn:Eh.
  - apply Set_has_string in Eh. repeat constructor; assumption.
  - destruct (parseSemver (version pkg)) as [pv|] eqn:Ep; [|constructor].
    apply parseSemver_string in Ep.
    destruct (find _ blocked) as [bver|]; [|constructor].
    destruct (strictEquals (JStr bver) (version pkg)); repeat constructor; assumption.
Qed.

Lemma scan_printable (installed : list InstalledPackage) (malwareMap : AdvisoryMap)
  (patchDistance : number) (findings : list Finding.t) :
  scan installed malwareMap patchDistance = Ok findings -> Forall printable findings.
Proof.
  intros Hs.
  destruct (scan_returns installed malwareMap patchDistance) as (fs & Hs' & Hperm).
  rewrite Hs in Hs'. injection Hs' as <-.
  eapply Permutation_Forall; [exact Hperm|].
  apply Forall_flat_map. apply Forall_forall. intros pkg _.
  apply packageFindings_printable.
Qed.

Lemma isStringType_ToString (v : value) :
  isStringType v = true -> exists s, v = JStr s.
Proof. destruct v; try discriminate. eexists; reflexivity. Qed.

Lemma printFinding_printable (noColor : bool) (patchDistance : number)
  (f : Finding.t) (counts : nat * nat) :
  printable f ->
  exists counts',
    printFinding noColor patchDistance f counts
    = ([findingLine noColor patchDistance f], Ok counts').
Proof.
  intros (Hn & Hv & Ha). unfold printFinding, findingLine. destruct counts as [c w].
  apply isStringType_ToString in Hn as [n ->].
  apply isStringType_ToString in Hv as [v ->].
  apply isStringType_ToString in Ha as [a ->].
  destruct (Finding.level f); simpl; eexists; reflexivity.
Qed.

(** A loop whose every turn writes one line and returns writes these lines
    in order, and returns. *)
Lemma forOfConsole_Forall2 {A St : Type} (R : A -> jsstring -> Prop) (l : list A)
  (body : A -> St -> console St) :
  (forall x s, In x l -> exists line s', body x s = ([line], Ok s') /\ R x line) ->
  forall s, exists out s',
    forOfConsole l body s = (out, Ok s') /\ Forall2 R l out.
Proof.
  induction l as [|x l IH]; intros Hbody s.
  - exists [], s. split; [reflexivity | constructor].
  - destruct (Hbody x s (or_introl eq_refl)) as (line & s1 & E1 & Hr).
    destruct (IH (fun y t Hy => Hbody y t (or_intror Hy)) s1) as (out & s' & E2 & Hl).
    exists (line :: out), s'. cbn [forOfConsole]. rewrite E1.
    cbn [bindConsole]. fold (forOfConsole l body s1). rewrite E2.
    split; [reflexivity | constructor; assumption].
Qed.

Lemma Forall2_map_eq {A B : Type} (g : A -> B) (l : list A) (out : list B) :
  Forall2 (fun x y => y = g x) l out -> out = List.map g l.
Proof. induction 1 as [|x y l out -> _ IH]; [reflexivity | simpl; rewrite IH; reflexivity]. Qed.

(** *** The statistics never throw on what [main] collects *)

Lemma Array_join_returns (sep : jsstring) (l : list value) :
  Forall convertible l -> exists s, Array_join sep l = Ok s.
Proof.
  induction 1 as [|x l [sx Hx] Hl [r IH]]; [eexists; reflexivity|].
  cbn [Array_join].
  assert (Hs : exists s, match x with
                         | Undefined | JNull => Ok []
                         | _ => ToString x
                         end = Ok s).
  { destruct x; try (eexists; reflexivity); exists sx; exact Hx. }
  destruct Hs as [s ->]. cbn [bind].
  destruct l; [eexists; reflexivity|]. rewrite IH. eexists; reflexivity.
Qed.

Lemma cmpVer_convertible (a b : value) :
  convertible a -> convertible b -> exists c, cmpVer a b = Ok c.
Proof.
  intros Ha Hb. destruct (cmpVer_values a b Ha Hb) as (c & E & _). exists c; exact E.
Qed.

Lemma Permutation_undefined_last (l : list value) :
  Permutation l (filter (fun v => negb (isUndefined v)) l ++ filter isUndefined l).
Proof.
  induction l as [|v l IH]; [constructor|].
  cbn [filter]. destruct (isUndefined v); cbn [negb app].
  - apply Permutation_cons_app. exact IH.
  - apply perm_skip. exact IH.
Qed.

Lemma Array_sort_cmpVer (l : list value) :
  Forall convertible l ->
  exists r, Array_sort cmpVer l = Ok r /\ Forall convertible r /\ Permutation l r.
Proof.
  intros Hl. unfold Array_sort.
  assert (Hf : Forall convertible (filter (fun v => negb (isUndefined v)) l)).
  { rewrite Forall_forall in Hl |- *. intros v Hv.
    apply filter_In in Hv as [Hv _]. auto. }
  destruct (sort_returns cmpVer convertible cmpVer_convertible _ Hf) as (r & -> & Hperm).
  cbn [bind]. eexists; split; [reflexivity|].
  assert (Hp : Permutation l (r ++ filter isUndefined l)).
  { rewrite <- Hperm. apply Permutation_undefined_last. }
  split; [eapply Permutation_Forall; eassumption | exact Hp].
Qed.

Lemma convertible_JStr (l : VersionSet) : Forall convertible (List.map JStr l).
Proof.
  apply Forall_forall. intros v Hv. apply in_map_iff in Hv as (s & <- & _).
  exists s. reflexivity.
Qed.

Lemma Forall_firstn {A : Type} (P : A -> Prop) (n : nat) (l : list A) :
  Forall P l -> Forall P (firstn n l).
Proof.
  intros Hl. revert n. induction Hl as [|x l Hx Hl IH]; intros [|n]; simpl;
    constructor; auto.
Qed.

Lemma printPresentName_returns (present : PresentMap) (n : jsstring)
  (info : Present.info) :
  Present_get n present = Some info ->
  Forall convertible info.(Present.installed) ->
  exists line, printPresentName present n = ([line], Ok tt) /\ infoLineOf present n line.
Proof.
  intros Eg Hi. unfold printPresentName.
  destruct (Array_sort_cmpVer _ Hi) as (installed & Ei & Hin & Hpi).
  destruct (Array_sort_cmpVer _ (convertible_JStr (Present.affected info)))
    as (affected & Ea & Haf & Hpa).
  destruct (Array_join_returns (str ", ") installed Hin) as [s1 E1].
  destruct (Array_join_returns (str ", ") (firstn 5 affected)
              (Forall_firstn _ 5 _ Haf)) as [s2 E2].
  rewrite Eg, Ei. cbn [lift bindConsole]. rewrite Ea. cbn [lift bindConsole].
  rewrite E1. cbn [lift bindConsole]. rewrite E2.
  eexists. split; [reflexivity|].
  exists info, installed, affected, s1, s2.
  repeat (split; [assumption|]). reflexivity.
Qed.

Lemma Present_get_In (n : jsstring) (present : PresentMap) :
  In n (List.map fst present) ->
  exists info, Present_get n present = Some info /\ In (n, info) present.
Proof.
  induction present as [|[k i] present IH]; simpl; [contradiction|].
  intros Hin. destruct (str_eqb n k) eqn:E.
  - apply str_eqb_eq in E. subst. exists i; auto.
  - destruct Hin as [<- | Hin]; [rewrite str_eqb_refl in E; discriminate|].
    destruct (IH Hin) as (info & Eg & Hi). exists info; auto.
Qed.

Lemma defaultCompare_sorted (l names : list jsstring) :
  sort defaultCompare l = Ok names -> ascending names.
Proof.
  intros Es.
  apply (StronglySorted_impl_in (notAfter defaultCompare)).
  { intros a b _ _ (c & [= <-] & Hc). rewrite sign_ofZ in Hc.
    pose proof (codeUnitCompare_sgn a b). lia. }
  apply (sort_sorted defaultCompare (fun _ => True)) with (l := l);
    [| | |apply Forall_forall; auto|exact Es].
  - intros x y _ _. eexists; reflexivity.
  - intros x y c c' _ _ [= <-] [= <-]. rewrite !sign_ofZ.
    rewrite (codeUnitCompare_antisym x y). apply Z.sgn_opp.
  - intros x y z _ _ _ (c & [= <-] & Hc) (c' & [= <-] & Hc').
    eexists; split; [reflexivity|]. rewrite sign_ofZ in *.
    pose proof (codeUnitCompare_sgn x y). pose proof (codeUnitCompare_sgn y z).
    pose proof (codeUnitCompare_sgn x z).
    pose proof (codeUnitCompare_trans x y z). lia.
Qed.

Lemma printPresent_returns (present : PresentMap) :
  presentConvertible present ->
  exists names infos,
    printPresent present = (presentLine (List.length names) :: infos, Ok tt) /\
    Permutation (List.map fst present) names /\ ascending names /\
    Forall2 (infoLineOf present) names infos.
Proof.
  intros Hp. unfold printPresent.
  destruct (sort_returns defaultCompare (fun _ => True)
              (fun x y _ _ => ex_intro _ _ eq_refl) (List.map fst present))
    as (names & Es & Hperm).
  { apply Forall_forall. auto. }
  destruct (forOfConsole_Forall2 (infoLineOf present) names
              (fun name _ => printPresentName present name))
    with (s := tt) as (infos & [] & E & Hl).
  { intros n [] Hn. apply (Permutation_in _ (Permutation_sym Hperm)) in Hn.
    destruct (Present_get_In n present Hn) as (info & Eg & Hi).
    destruct (printPresentName_returns present n info Eg) as (line & El & Hline).
    - unfold presentConvertible in Hp. rewrite Forall_forall in Hp.
      apply (Hp (n, info) Hi).
    - exists line, tt. split; [exact El | exact Hline]. }
  exists names, infos. rewrite Es.
  cbn [lift bindConsole console_log]. rewrite E.
  split; [reflexivity|]. split; [exact Hperm|].
  split; [exact (defaultCompare_sorted _ _ Es) | exact Hl].
Qed.

End NoThrow.

Section MainFacts.
Context {H : Host}.

(** *** The map [present] *)

Lemma ValueSet_add_convertible (s : ValueSet) (v : value) :
  Forall convertible s -> convertible v -> Forall convertible (ValueSet_add s v).
Proof.
  intros Hs Hv. unfold ValueSet_add. destruct (ValueSet_has s v); [exact Hs|].
  apply Forall_app. split; [exact Hs | constructor; [exact Hv | constructor]].
Qed.

Lemma Present_addInstalled_keys (present : PresentMap) (n : jsstring) (v : value) :
  List.map fst (Present_addInstalled present n v) = List.map fst present.
Proof.
  induction present as [|[k i] present IH]; [reflexivity|].
  cbn [Present_addInstalled]. destruct (str_eqb n k); cbn [List.map fst];
    [reflexivity | rewrite IH; reflexivity].
Qed.

Lemma Present_addInstalled_convertible (present : PresentMap) (n : jsstring)
  (v : value) :
  presentConvertible present -> convertible v ->
  presentConvertible (Present_addInstalled present n v).
Proof.
  unfold presentConvertible. intros Hp Hv.
  induction Hp as [|[k i] present Hi Hp IH]; [constructor|].
  cbn [Present_addInstalled]. destruct (str_eqb n k).
  - constructor; [|exact Hp]. cbn [snd Present.installed] in *.
    apply ValueSet_add_convertible; assumption.
  - constructor; assumption.
Qed.

Lemma presentStep_convertible (malwareMap : AdvisoryMap) (present : PresentMap)
  (pkg : InstalledPackage) :
  presentConvertible present -> convertiblePackage pkg ->
  presentConvertible (presentStep malwareMap present pkg).
Proof.
  intros Hp [_ Hv]. unfold presentStep.
  destruct (name pkg) as [| | | |n| |]; try exact Hp.
  destruct (Map_get malwareMap (JStr n)) as [blocked|]; [|exact Hp].
  apply Present_addInstalled_convertible; [|exact Hv].
  destruct (Present_get n present); [exact Hp|].
  apply Forall_app. split; [exact Hp|]. repeat constructor.
Qed.

Lemma present_convertible (malwareMap : AdvisoryMap)
  (installed : list InstalledPackage) (present : PresentMap) :
  Forall convertiblePackage installed -> presentConvertible present ->
  presentConvertible (fold_left (presentStep malwareMap) installed present).
Proof.
  intros Hi. revert present. induction Hi as [|pkg installed Hpkg Hi IH]; intros present Hp.
  - exact Hp.
  - cbn [fold_left]. apply IH. apply presentStep_convertible; assumption.
Qed.

(** *** Criticals *)

Lemma packageFindings_exactMatch (malwareMap : AdvisoryMap) (patchDistance : number)
  (pkg : InstalledPackage) :
  (exists f, In f (packageFindings malwareMap patchDistance pkg)
             /\ f.(Finding.level) = critical)
  <-> exactMatch malwareMap pkg = true.
Proof.
  unfold packageFindings, classify, exactMatch.
  destruct (Map_get malwareMap (name pkg)) as [blocked|];
    [|split; [intros (f & [] & _) | discriminate]].
  destruct (Set_has blocked (version pkg)) eqn:Eh.
  - split; [reflexivity|]. intros _. eexists; split; [left; reflexivity|reflexivity].
  - split; [|discriminate]. intros (f & Hf & Hl). exfalso.
    destruct (parseSemver (version pkg)); [|contradiction].
    destruct (find _ blocked) as [bver|] eqn:Ef; [|contradiction].
    apply find_some in Ef as [Hb _].
    rewrite (Set_has_false_strictEquals _ _ Eh _ Hb) in Hf.
    destruct Hf as [<- | []]. discriminate.
Qed.

Lemma countLevel_positive (lvl : Level) (findings : list Finding.t) :
  Nat.ltb 0 (countLevel lvl findings) = true
  <-> exists f, In f findings /\ f.(Finding.level) = lvl.
Proof.
  unfold countLevel. rewrite Nat.ltb_lt. split.
  - intros Hl. destruct (filter _ findings) as [|f l] eqn:Ef; [simpl in Hl; lia|].
    assert (Hin : In f (filter (fun f => Level_eqb (Finding.level f) lvl) findings))
      by (rewrite Ef; left; reflexivity).
    apply filter_In in Hin as [Hin Hlvl]. apply Level_eqb_eq in Hlvl. exists f; auto.
  - intros (f & Hin & Hlvl).
    assert (Hf : In f (filter (fun f => Level_eqb (Finding.level f) lvl) findings)).
    { apply filter_In. split; [exact Hin|]. apply Level_eqb_eq. exact Hlvl. }
    destruct (filter _ findings); [contradiction | simpl; lia].
Qed.

Lemma scan_criticals_exactMatch (installed : list InstalledPackage)
  (malwareMap : AdvisoryMap) (patchDistance : number) (findings : list Finding.t) :
  scan installed malwareMap patchDistance = Ok findings ->
  Nat.ltb 0 (countLevel critical findings) = existsb (exactMatch malwareMap) installed.
Proof.
  intros Hs.
  destruct (scan_returns installed malwareMap patchDistance) as (fs & Hs' & Hperm).
  rewrite Hs in Hs'. injection Hs' as <-.
  apply eq_true_iff_eq. rewrite countLevel_positive, existsb_exists. split.
  - intros (f & Hin & Hl).
    apply (Permutation_in _ (Permutation_sym Hperm)) in Hin.
    apply in_flat_map in Hin as (pkg & Hpkg & Hf).
    exists pkg. split; [exact Hpkg|].
    apply (packageFindings_exactMatch malwareMap patchDistance). exists f; auto.
  - intros (pkg & Hpkg & Hm).
    apply (packageFindings_exactMatch malwareMap patchDistance) in Hm as (f & Hf & Hl).
    exists f. split; [|exact Hl].
    apply (Permutation_in _ Hperm). apply in_flat_map. exists pkg; auto.
Qed.

(** *** The whole run *)

Lemma printSummary_line (noColor : bool) (criticals warnings : nat) :
  printSummary noColor (criticals, warnings)
  = ([summaryLine noColor criticals warnings], Ok tt).
Proof.
  unfold printSummary, summaryLine.
  destruct (Nat.eqb criticals 0 && Nat.eqb warnings 0); [reflexivity|].
  destruct (Nat.ltb 0 criticals); reflexivity.
Qed.

Lemma scanAndReport_returns (noColor : bool) (patchDistance : number)
  (malwareRaw tree : value) (malwareMap : AdvisoryMap)
  (installed : list InstalledPackage) :
  normalizeMalwareList malwareRaw = Ok malwareMap ->
  flattenPackages tree = Ok installed ->
  exists findings names infos,
    scan installed malwareMap patchDistance = Ok findings /\
    Permutation (List.map fst (fold_left (presentStep malwareMap) installed [])) names /\
    ascending names /\
    Forall2 (infoLineOf (fold_left (presentStep malwareMap) installed [])) names infos /\
    scanAndReport noColor patchDistance malwareRaw tree
    = (List.map (findingLine noColor patchDistance) findings
       ++ [summaryLine noColor (countLevel critical findings)
             (countLevel warning findings);
           scannedLine (List.length installed) (countNames installed);
           dbNamesLine (List.length malwareMap);
           presentLine (List.length names)]
       ++ infos,
       Ok (countLevel critical findings)).
Proof.
  intros En Ef. unfold scanAndReport. rewrite En, Ef. cbn [lift bindConsole].
  destruct (scan_returns installed malwareMap patchDistance) as (findings & Es & _).
  rewrite Es. cbn [lift bindConsole]. exists findings.
  unfold printFindings.
  destruct (forOfConsole_Forall2
              (fun f line => line = findingLine noColor patchDistance f)
              findings (printFinding noColor patchDistance))
    with (s := (0%nat, 0%nat)) as (out1 & [c w] & E1 & Hl1).
  { intros f s Hf.
    destruct (printFinding_printable noColor patchDistance f s) as [s' E].
    - pose proof (scan_printable _ _ _ _ Es) as Hp. rewrite Forall_forall in Hp. auto.
    - exists (findingLine noColor patchDistance f), s'. split; [exact E | reflexivity]. }
  apply Forall2_map_eq in Hl1. subst out1.
  rewrite E1. cbn [bindConsole].
  apply forOfConsole_printFinding in E1 as (_ & -> & ->).
  rewrite printSummary_line.
  cbn [bindConsole printStats Stats.totalPackages Stats.uniqueNames Stats.dbNames
         Stats.present console_log].
  destruct (printPresent_returns (fold_left (presentStep malwareMap) installed []))
    as (names & infos & -> & Hperm & Hasc & Hinfos).
  { apply present_convertible; [|constructor].
    apply (flattenPackages_convertible tree). exact Ef. }
  exists names, infos.
  split; [reflexivity|]. split; [exact Hperm|]. split; [exact Hasc|].
  split; [exact Hinfos|].
  cbn [bindConsole pure fst]. unfold scannedLine, dbNamesLine, countText.
  rewrite !app_nil_r. cbn [app Nat.add]. reflexivity.
Qed.

Lemma main_analysed (env : Env) (malwareRaw tree : option value)
  (malwareMap : AdvisoryMap) (installed : list InstalledPackage) :
  analysed malwareRaw tree malwareMap installed ->
  exists findings names infos,
    scan installed malwareMap (patchDistanceFromEnv env.(WORMSCAN_PATCH_DISTANCE))
    = Ok findings /\
    Permutation (List.map fst (fold_left (presentStep malwareMap) installed [])) names /\
    ascending names /\
    Forall2 (infoLineOf (fold_left (presentStep malwareMap) installed [])) names infos /\
    main env malwareRaw tree
    = (List.map (findingLine (noColorFromEnv env.(NO_COLOR))
                   (patchDistanceFromEnv env.(WORMSCAN_PATCH_DISTANCE))) findings
       ++ [summaryLine (noColorFromEnv env.(NO_COLOR))
             (countLevel critical findings) (countLevel warning findings);
           scannedLine (List.length installed) (countNames installed);
           dbNamesLine (List.length malwareMap);
           presentLine (List.length names)]
       ++ infos,
       if existsb (exactMatch malwareMap) installed then 2 else 0).
Proof.
  intros (raw & t & -> & -> & En & Ef). unfold main.
  destruct (scanAndReport_returns (noColorFromEnv env.(NO_COLOR))
              (patchDistanceFromEnv env.(WORMSCAN_PATCH_DISTANCE))
              raw t malwareMap installed En Ef)
    as (findings & names & infos & Es & Hperm & Hasc & Hinfos & ->).
  exists findings, names, infos.
  split; [exact Es|]. split; [exact Hperm|]. split; [exact Hasc|].
  split; [exact Hinfos|].
  rewrite (scan_criticals_exactMatch _ _ _ _ Es). reflexivity.
Qed.

Lemma main_not_analysed (env : Env) (malwareRaw tree : option value) :
  (forall malwareMap installed, ~ analysed malwareRaw tree malwareMap installed) ->
  main env malwareRaw tree = ([], 1).
Proof.
  intros Hn. unfold main.
  destruct malwareRaw as [raw|]; [|reflexivity].
  destruct tree as [t|]; [|reflexivity].
  unfold scanAndReport.
  destruct (normalizeMalwareList raw) as [malwareMap|e] eqn:En; [|reflexivity].
  destruct (flattenPackages t) as [installed|e] eqn:Ef; [|reflexivity].
  exfalso. apply (Hn malwareMap installed). exists raw, t. auto.
Qed.

End MainFacts.

(** X16: the exit code of [main]. It is 1 exactly when a load failed or
    [normalizeMalwareList] or [flattenPackages] threw; otherwise it is 2
    when some installed package has its version in the advisory set of its
    name, and 0 when none has, whatever the threshold and the warnings. *)
Theorem main_exit_code {H : Host} (env : Env) (malwareRaw tree : option value) :
  (snd (main env malwareRaw tree) = 1
   <-> forall malwareMap installed, ~ analysed malwareRaw tree malwareMap installed) /\
  (forall malwareMap installed,
      analysed malwareRaw tree malwareMap installed ->
      snd (main env malwareRaw tree)
      = if existsb (exactMatch malwareMap) installed then 2 else 0).
Proof.
  assert (Hcode : forall malwareMap installed,
             analysed malwareRaw tree malwareMap installed ->
             snd (main env malwareRaw tree)
             = if existsb (exactMatch malwareMap) installed then 2 else 0).
  { intros malwareMap installed Ha.
    destruct (main_analysed env _ _ _ _ Ha) as (findings & names & infos & _ & _ & _ & _ & ->).
    reflexivity. }
  split; [|exact Hcode]. split.
  - intros E1 malwareMap installed Ha. rewrite (Hcode _ _ Ha) in E1.
    destruct (existsb (exactMatch malwareMap) installed); discriminate.
  - intros Hn. rewrite (main_not_analysed env _ _ Hn). reflexivity.
Qed.

(** X16 on a feed that names [evil@1.2.3] and a tree that has it. *)
Lemma main_exit_code_witness :
  snd (@main codeUnitHost plainEnv (Some evilFeed) (Some evilTree)) = 2.
Proof.
  apply (proj2 (@main_exit_code codeUnitHost plainEnv (Some evilFeed) (Some evilTree))
           [(str "evil", [str "1.2.3"])]
           [{| name := JStr (str "evil"); version := JStr (str "1.2.3") |};
            {| name := JStr (str "root"); version := JStr (str "0.1.0") |}]).
  exists evilFeed, evilTree.
  split; [reflexivity|]. split; [reflexivity|].
  split; vm_compute; reflexivity.
Defined.

(** X17: what [main] writes to standard output. With exit code 1 it has
    written nothing there. Otherwise the statistics do not throw on what
    [main] collected, and the output is, in this order: the line of each
    finding of [scan], in the order of [scan], every finding having strings
    for its three fields; the summary of the two counts; the line
    [Scanned], with the number of installed packages and of their names;
    the line [DB package names], with the size of the map; the line
    [DB packages present], with the number of names of [present]; and the
    line [INFO] of each name of [present], the names in ascending order of
    their code units. *)
Theorem main_stdout {H : Host} (env : Env) (malwareRaw tree : option value) :
  (snd (main env malwareRaw tree) = 1 -> fst (main env malwareRaw tree) = []) /\
  (forall malwareMap installed,
      analysed malwareRaw tree malwareMap installed ->
      exists findings names infos,
        scan installed malwareMap (patchDistanceFromEnv env.(WORMSCAN_PATCH_DISTANCE))
        = Ok findings /\
        Forall printable findings /\
        Permutation (List.map fst (fold_left (presentStep malwareMap) installed []))
          names /\
        ascending names /\
        Forall2 (infoLineOf (fold_left (presentStep malwareMap) installed []))
          names infos /\
        fst (main env malwareRaw tree)
        = List.map (findingLine (noColorFromEnv env.(NO_COLOR))
                      (patchDistanceFromEnv env.(WORMSCAN_PATCH_DISTANCE))) findings
          ++ [summaryLine (noColorFromEnv env.(NO_COLOR))
                (countLevel critical findings) (countLevel warning findings);
              scannedLine (List.length installed) (countNames installed);
              dbNamesLine (List.length malwareMap);
              presentLine (List.length names)]
          ++ infos).
Proof.
  split.
  - intros E1. rewrite main_not_analysed; [reflexivity|].
    intros malwareMap installed Ha.
    destruct (main_analysed env _ _ _ _ Ha)
      as (findings & names & infos & _ & _ & _ & _ & E).
    rewrite E in E1. cbn [snd] in E1.
    destruct (existsb (exactMatch malwareMap) installed); discriminate.
  - intros malwareMap installed Ha.
    destruct (main_analysed env _ _ _ _ Ha)
      as (findings & names & infos & Es & Hperm & Hasc & Hinfos & ->).
    exists findings, names, infos.
    split; [exact Es|]. split; [exact (scan_printable _ _ _ _ Es)|].
    split; [exact Hperm|]. split; [exact Hasc|]. split; [exact Hinfos | reflexivity].
Qed.

(** X17 on a feed whose name has an own property [toString], where the run
    ends with code 1 and an empty standard output, and on a feed that names
    [evil@1.2.3] with a tree that has it. *)
Lemma main_stdout_witness :
  (snd (@main codeUnitHost plainEnv (Some toStringNameFeed) (Some evilTree)) = 1 /\
   fst (@main codeUnitHost plainEnv (Some toStringNameFeed) (Some evilTree)) = []) /\
  @analysed codeUnitHost (Some evilFeed) (Some evilTree)
    [(str "evil", [str "1.2.3"])]
    [{| name := JStr (str "evil"); version := JStr (str "1.2.3") |};
     {| name := JStr (str "root"); version := JStr (str "0.1.0") |}] /\
  exists findings names infos,
    @scan codeUnitHost
      [{| name := JStr (str "evil"); version := JStr (str "1.2.3") |};
       {| name := JStr (str "root"); version := JStr (str "0.1.0") |}]
      [(str "evil", [str "1.2.3"])] (ofZ 1) = Ok findings /\
    names = [str "evil"] /\
    Forall2 (@infoLineOf codeUnitHost
               [(str "evil", {| Present.installed := [JStr (str "1.2.3")];
                                Present.affected := [str "1.2.3"] |})])
      names infos /\
    fst (@main codeUnitHost plainEnv (Some evilFeed) (Some evilTree))
    = List.map (@findingLine codeUnitHost false (ofZ 1)) findings
      ++ [@summaryLine codeUnitHost false (countLevel critical findings)
            (countLevel warning findings);
          @scannedLine codeUnitHost 2 2;
          @dbNamesLine codeUnitHost 1;
          @presentLine codeUnitHost 1]
      ++ infos.
Proof.
  assert (E1 : snd (@main codeUnitHost plainEnv (Some toStringNameFeed) (Some evilTree))
               = 1) by (vm_compute; reflexivity).
  assert (Ha : @analysed codeUnitHost (Some evilFeed) (Some evilTree)
                 [(str "evil", [str "1.2.3"])]
                 [{| name := JStr (str "evil"); version := JStr (str "1.2.3") |};
                  {| name := JStr (str "root"); version := JStr (str "0.1.0") |}]).
  { exists evilFeed, evilTree.
    split; [reflexivity|]. split; [reflexivity|]. split; vm_compute; reflexivity. }
  split.
  { split; [exact E1|].
    exact (proj1 (@main_stdout codeUnitHost plainEnv (Some toStringNameFeed)
                    (Some evilTree)) E1). }
  split; [exact Ha|].
  destruct (proj2 (@main_stdout codeUnitHost plainEnv (Some evilFeed) (Some evilTree))
              _ _ Ha)
    as (findings & names & infos & Es & _ & Hperm & _ & Hinfos & E).
  exists findings, names, infos.
  assert (En : names = [str "evil"]).
  { apply Permutation_length_1_inv. exact Hperm. }
  split; [exact Es|]. split; [exact En|]. split; [exact Hinfos|].
  rewrite E, En. reflexivity.
Defined.

Section PresentFacts.
Context {H : Host}.

Lemma Present_get_None (n : jsstring) (present : PresentMap) :
  Present_get n present = None <-> ~ In n (List.map fst present).
Proof.
  induction present as [|[k i] present IH]; simpl; [tauto|].
  destruct (str_eqb n k) eqn:E.
  - apply str_eqb_eq in E. subst. split; [discriminate|]. intros Hn. exfalso; auto.
  - apply str_eqb_neq in E. rewrite IH. split.
    + intros Hn [-> | Hin]; auto.
    + intros Hn Hin. apply Hn. right; exact Hin.
Qed.

Lemma presentStep_keys (malwareMap : AdvisoryMap) (present : PresentMap)
  (pkg : InstalledPackage) (k : jsstring) :
  In k (List.map fst (presentStep malwareMap present pkg))
  <-> In k (List.map fst present)
      \/ (name pkg = JStr k /\ Map_has malwareMap (JStr k) = true).
Proof.
  unfold presentStep, Map_has.
  destruct (name pkg) as [| | | |n| |];
    try (split; [auto | intros [Hk | [Hk _]]; [exact Hk | discriminate]]).
  destruct (Map_get malwareMap (JStr n)) as [blocked|] eqn:Eg.
  - rewrite Present_addInstalled_keys.
    destruct (Present_get n present) as [info|] eqn:Ep.
    + split; [auto|]. intros [Hk | [[= <-] _]]; [exact Hk|].
      destruct (Present_get_In n present) as (i & _ & Hi).
      * destruct (in_dec (list_eq_dec N.eq_dec) n (List.map fst present)) as [Hin|Hn];
          [exact Hin|].
        apply Present_get_None in Hn. congruence.
      * apply in_map_iff. exists (n, i). auto.
    + rewrite map_app, in_app_iff. cbn [List.map fst In]. split.
      * intros [Hk | [<- | []]]; [auto|]. right. rewrite Eg. auto.
      * intros [Hk | [[= <-] _]]; auto.
  - split; [auto|]. intros [Hk | [[= <-] Hm]]; [exact Hk|].
    rewrite Eg in Hm. discriminate.
Qed.

Lemma presentStep_NoDup (malwareMap : AdvisoryMap) (present : PresentMap)
  (pkg : InstalledPackage) :
  NoDup (List.map fst present) ->
  NoDup (List.map fst (presentStep malwareMap present pkg)).
Proof.
  intros Hnd. unfold presentStep.
  destruct (name pkg) as [| | | |n| |]; try exact Hnd.
  destruct (Map_get malwareMap (JStr n)) as [blocked|]; [|exact Hnd].
  rewrite Present_addInstalled_keys.
  destruct (Present_get n present) as [info|] eqn:Ep; [exact Hnd|].
  rewrite map_app. cbn [List.map fst].
  apply Permutation_NoDup with (l := n :: List.map fst present).
  - apply Permutation_cons_append.
  - constructor; [apply Present_get_None; exact Ep | exact Hnd].
Qed.

Lemma Present_addInstalled_affected (present : PresentMap) (n : jsstring) (v : value)
  (k : jsstring) (i : Present.info) :
  In (k, i) (Present_addInstalled present n v) ->
  exists i0, In (k, i0) present /\ Present.affected i = Present.affected i0.
Proof.
  induction present as [|[k0 i0] present IH]; [contradiction|].
  cbn [Present_addInstalled]. destruct (str_eqb n k0).
  - intros [[= <- <-] | Hin].
    + exists i0. split; [left; reflexivity | reflexivity].
    + exists i. split; [right; exact Hin | reflexivity].
  - intros [[= <- <-] | Hin].
    + exists i0. split; [left; reflexivity | reflexivity].
    + destruct (IH Hin) as (i1 & Hi1 & E). exists i1. split; [right; exact Hi1 | exact E].
Qed.

Lemma presentStep_affected (malwareMap : AdvisoryMap) (present : PresentMap)
  (pkg : InstalledPackage) :
  (forall k i, In (k, i) present ->
               Map_get malwareMap (JStr k) = Some (Present.affected i)) ->
  forall k i, In (k, i) (presentStep malwareMap present pkg) ->
              Map_get malwareMap (JStr k) = Some (Present.affected i).
Proof.
  intros Hp k i. unfold presentStep.
  destruct (name pkg) as [| | | |n| |]; try apply Hp.
  destruct (Map_get malwareMap (JStr n)) as [blocked|] eqn:Eg; [|apply Hp].
  intros Hin. apply Present_addInstalled_affected in Hin as (i0 & Hin & ->).
  destruct (Present_get n present); [apply Hp; exact Hin|].
  apply in_app_iff in Hin as [Hin | [[= <- <-] | []]]; [apply Hp; exact Hin|].
  exact Eg.
Qed.

Lemma present_facts (malwareMap : AdvisoryMap) (installed : list InstalledPackage)
  (present : PresentMap) :
  NoDup (List.map fst present) ->
  (forall k i, In (k, i) present ->
               Map_get malwareMap (JStr k) = Some (Present.affected i)) ->
  NoDup (List.map fst (fold_left (presentStep malwareMap) installed present)) /\
  (forall k,
      In k (List.map fst (fold_left (presentStep malwareMap) installed present))
      <-> In k (List.map fst present)
          \/ exists pkg, In pkg installed /\ name pkg = JStr k
                         /\ Map_has malwareMap (JStr k) = true) /\
  (forall k i,
      In (k, i) (fold_left (presentStep malwareMap) installed present) ->
      Map_get malwareMap (JStr k) = Some (Present.affected i)).
Proof.
  revert present. induction installed as [|pkg installed IH]; intros present Hnd Haf.
  - cbn [fold_left]. split; [exact Hnd|]. split; [|exact Haf].
    intros k. split; [auto|]. intros [Hk | (pkg & [] & _)]. exact Hk.
  - cbn [fold_left].
    destruct (IH (presentStep malwareMap present pkg)
                (presentStep_NoDup _ _ _ Hnd) (presentStep_affected _ _ _ Haf))
      as (Hnd' & Hkeys & Haf').
    split; [exact Hnd'|]. split; [|exact Haf'].
    intros k. rewrite Hkeys, presentStep_keys. split.
    + intros [[Hk | [En Hm]] | (q & Hq & En & Hm)]; auto.
      * right. exists pkg. split; [left; reflexivity | auto].
      * right. exists q. split; [right; exact Hq | auto].
    + intros [Hk | (q & [<- | Hq] & En & Hm)]; auto.
      right. exists q. auto.
Qed.

End PresentFacts.

(** X18: the map [present] that [main] builds has every key once; its
    keys are the names of the installed packages that the advisory map
    has; under each key, [affected] is the advisory set of that name; and
    every finding of [scan] is about a name that is a key, so that every
    line [CRITICAL] or [WARNING] has its line [INFO]. *)
Theorem present_names {H : Host} (malwareMap : AdvisoryMap)
  (installed : list InstalledPackage) :
  NoDup (List.map fst (fold_left (presentStep malwareMap) installed [])) /\
  (forall k,
      In k (List.map fst (fold_left (presentStep malwareMap) installed []))
      <-> exists pkg, In pkg installed /\ name pkg = JStr k
                      /\ Map_has malwareMap (JStr k) = true) /\
  (forall k i,
      In (k, i) (fold_left (presentStep malwareMap) installed []) ->
      Map_get malwareMap (JStr k) = Some (Present.affected i)) /\
  (forall patchDistance findings f,
      scan installed malwareMap patchDistance = Ok findings -> In f findings ->
      exists k, f.(Finding.name) = JStr k /\
                In k (List.map fst (fold_left (presentStep malwareMap) installed []))).
Proof.
  destruct (present_facts malwareMap installed [] (NoDup_nil _))
    as (Hnd & Hkeys & Haf); [intros k i []|].
  assert (Hk : forall k,
             In k (List.map fst (fold_left (presentStep malwareMap) installed []))
             <-> exists pkg, In pkg installed /\ name pkg = JStr k
                             /\ Map_has malwareMap (JStr k) = true).
  { intros k. rewrite Hkeys. split; [intros [[] | Hex]; exact Hex | auto]. }
  split; [exact Hnd|]. split; [exact Hk|]. split; [exact Haf|].
  intros patchDistance findings f Hs Hf.
  destruct (scan_returns installed malwareMap patchDistance) as (fs & Hs' & Hperm).
  rewrite Hs in Hs'. injection Hs' as <-.
  apply (Permutation_in _ (Permutation_sym Hperm)) in Hf.
  apply in_flat_map in Hf as (pkg & Hpkg & Hf).
  apply packageFindings_reported in Hf as [<- Hm]. cbn [reported name] in Hm.
  destruct (Finding.name f) as [| | | |k| |] eqn:En; try discriminate.
  exists k. split; [reflexivity|]. apply Hk.
  exists (reported f). split; [exact Hpkg|]. split; [exact En | exact Hm].
Qed.

(** X18 on [evil@1.2.3], installed and in the map. *)
Lemma present_names_witness :
  exists k,
    JStr (str "evil") = JStr k /\
    In k (List.map fst
            (fold_left (presentStep [(str "evil", [str "1.2.3"])])
               [{| name := JStr (str "evil"); version := JStr (str "1.2.3") |}] [])).
Proof.
  apply (proj2 (proj2 (proj2 (@present_names codeUnitHost
           [(str "evil", [str "1.2.3"])]
           [{| name := JStr (str "evil"); version := JStr (str "1.2.3") |}])))
           (ofZ 1)
           [{| Finding.level := critical; Finding.name := JStr (str "evil");
               Finding.version := JStr (str "1.2.3");
               Finding.against := JStr (str "1.2.3") |}]
           {| Finding.level := critical; Finding.name := JStr (str "evil");
              Finding.version := JStr (str "1.2.3");
              Finding.against := JStr (str "1.2.3") |}).
  - vm_compute; reflexivity.
  - left; reflexivity.
Defined.

(* ================================================================== *)
(** * The advisory map as a set of facts *)

Section Additive.
Context {H : Host}.

Lemma additive_skip : additive (fun m => Ok m).
Proof.
  intros m. exists m. split; [reflexivity|]. intros k x.
  change (hasFact [] k x) with false. symmetry. apply orb_false_r.
Qed.

Lemma additive_seq (f g : AdvisoryMap -> result AdvisoryMap) :
  additive f -> additive g -> additive (fun m => m1 <- f m ;; g m1).
Proof.
  intros Hf Hg m. pose proof (Hf m) as Hfm.
  destruct (f []) as [f0|e]; [|rewrite Hfm; reflexivity].
  destruct Hfm as (m1 & -> & Hm1). cbn [bind].
  pose proof (Hg f0) as Hgf. pose proof (Hg m1) as Hgm.
  destruct (g []) as [g0|e]; [|rewrite Hgf; exact Hgm].
  destruct Hgf as (r0 & -> & Hr0). destruct Hgm as (r & -> & Hr).
  exists r. split; [reflexivity|]. intros k x.
  rewrite Hr, Hm1, Hr0. symmetry. apply orb_assoc.
Qed.

Lemma additive_ext (f g : AdvisoryMap -> result AdvisoryMap) :
  (forall m, f m = g m) -> additive f -> additive g.
Proof. intros E Hf m. rewrite <- !E. apply Hf. Qed.

Lemma additive_forOf {A : Type} (l : list A)
  (body : A -> AdvisoryMap -> result AdvisoryMap) :
  (forall x, In x l -> additive (body x)) -> additive (forOf l body).
Proof.
  induction l as [|x l IH]; intros Hb; [apply additive_skip|].
  apply (additive_ext (fun m => m1 <- body x m ;; forOf l body m1));
    [intros m; symmetry; apply forOf_cons|].
  apply additive_seq; [apply Hb; left; reflexivity|].
  apply IH. intros y Hy. apply Hb. right; exact Hy.
Qed.

Lemma additive_add (name version : value) : additive (add name version).
Proof.
  intros m.
  destruct (negb (ToBoolean name) || negb (ToBoolean version)) eqn:Et.
  { assert (Hs : forall m0, add name version m0 = Ok m0)
      by (intros m0; unfold add; rewrite Et; reflexivity).
    rewrite !Hs. exists m. split; [reflexivity|]. intros k x.
    change (hasFact [] k x) with false. symmetry. apply orb_false_r. }
  destruct (ToString name) as [n|e] eqn:En.
  2: { assert (Hs : forall m0, add name version m0 = Throw e)
         by (intros m0; unfold add; rewrite Et, En; reflexivity).
       rewrite !Hs. reflexivity. }
  destruct (ToString version) as [v|e] eqn:Ev.
  2: { assert (Hs : forall m0, add name version m0 = Throw e)
         by (intros m0; unfold add; rewrite Et, En, Ev; reflexivity).
       rewrite !Hs. reflexivity. }
  assert (Ha : forall m0, add name version m0
                          = Ok (Map_addTo (if negb (Map_has m0 (JStr n))
                                           then m0 ++ [(n, [])] else m0) n v)).
  { intros m0. unfold add. rewrite Et, En, Ev. reflexivity. }
  apply orb_false_iff in Et as [Hn Hv]. apply negb_false_iff in Hn, Hv.
  destruct (add_facts name version m _ Hn Hv (Ha m)) as (n1 & v1 & En1 & Ev1 & H1).
  destruct (add_facts name version [] _ Hn Hv (Ha [])) as (n0 & v0 & En0 & Ev0 & H0).
  rewrite En in En1, En0. rewrite Ev in Ev1, Ev0.
  injection En1 as <-. injection En0 as <-. injection Ev1 as <-. injection Ev0 as <-.
  rewrite (Ha []), (Ha m). eexists; split; [reflexivity|]. intros k x.
  apply eq_true_iff_eq. rewrite orb_true_iff, H1, H0.
  change (hasFact [] k x) with false. intuition discriminate.
Qed.

Lemma additive_addMany (name arr : value) : additive (addMany name arr).
Proof.
  unfold addMany.
  destruct (negb (ToBoolean name) || negb (Array_isArray arr)); [apply additive_skip|].
  apply additive_forOf. intros v _. apply additive_add.
Qed.

Lemma additive_when (cond : bool) (step : AdvisoryMap -> result AdvisoryMap) :
  additive step -> additive (when cond step).
Proof. intros Hs. unfold when. destruct cond; [exact Hs | apply additive_skip]. Qed.

Lemma additive_considerEntry (entry : value) : additive (considerEntry entry).
Proof.
  unfold considerEntry.
  destruct (negb (ToBoolean entry) || negb (isObjectType entry)); [apply additive_skip|].
  destruct (if hasProperty (str "ecosystem") entry then _ else _) as [skip|e];
    [|intros m; reflexivity].
  cbn [bind]. destruct skip; [apply additive_skip|].
  destruct (ToBoolean (entryName entry)); [|apply additive_skip].
  repeat (apply additive_seq;
          [apply additive_when; first [apply additive_addMany | apply additive_add]|]).
  apply additive_when. apply additive_add.
Qed.

Lemma additive_nestedMapping (v : value) : additive (nestedMapping v).
Proof.
  unfold nestedMapping. apply additive_forOf. intros [nk nv] _.
  destruct (Array_isArray nv && nonEmptyAllSemverish nv);
    [apply additive_addMany | apply additive_skip].
Qed.

Lemma additive_walkObject (obj : value) : additive (walkObject obj).
Proof.
  induction obj as [| |b|n|s|items IH|fields IH] using value_ind;
    try apply additive_skip.
  cbn [walkObject]. apply additive_forOf. intros [k v] Hin.
  destruct (Array_isArray v).
  - destruct (nonEmptyAllSemverish v); [apply additive_addMany|].
    apply additive_forOf. intros x _. apply additive_considerEntry.
  - destruct (ToBoolean v && isObjectType v).
    + destruct (existsb (str_eqb k) containerKeys).
      * rewrite Forall_forall in IH. apply (IH (k, v) Hin).
      * apply additive_nestedMapping.
    + destruct (isStringType v && isSemverish v);
        [apply additive_add | apply additive_skip].
Qed.

(** What a loop of additive turns does: it returns when every turn returns
    on the empty map, and then holds the facts it started with and those
    that the turns put into the empty map. *)
Lemma forOf_additive {A : Type} (l : list A)
  (body : A -> AdvisoryMap -> result AdvisoryMap) :
  (forall x, In x l -> additive (body x)) ->
  forall m,
    (Forall (fun x => exists m0, body x [] = Ok m0) l ->
     exists r, forOf l body m = Ok r) /\
    (forall r, forOf l body m = Ok r ->
               Forall (fun x => exists m0, body x [] = Ok m0) l /\
               forall k v,
                 hasFact r k v = true
                 <-> hasFact m k v = true
                     \/ exists x m0, In x l /\ body x [] = Ok m0
                                     /\ hasFact m0 k v = true).
Proof.
  induction l as [|x l IH]; intros Hb m.
  - split; [intros _; exists m; reflexivity|].
    intros r [= <-]. split; [constructor|].
    intros k v. split; [auto|]. intros [Hm | (x & m0 & [] & _)]. exact Hm.
  - assert (Hl : forall y, In y l -> additive (body y))
      by (intros y Hy; apply Hb; right; exact Hy).
    pose proof (Hb x (or_introl eq_refl) m) as Hx.
    rewrite forOf_cons. split.
    + intros Hall. inversion Hall as [|? ? [m0 E0] Hall']; subst.
      rewrite E0 in Hx. destruct Hx as (m1 & -> & _). cbn [bind].
      apply (proj1 (IH Hl m1) Hall').
    + intros r Hr. destruct (body x []) as [m0|e] eqn:E0.
      * destruct Hx as (m1 & E1 & Hm1). rewrite E1 in Hr. cbn [bind] in Hr.
        destruct (proj2 (IH Hl m1) r Hr) as (Hall & Hfacts).
        split; [constructor; [exists m0; exact E0 | exact Hall]|].
        intros k v. rewrite Hfacts, Hm1, orb_true_iff. split.
        -- intros [[Hm | H0] | (y & my & Hy & Ey & Hf)]; auto.
           ++ right. exists x, m0. split; [left; reflexivity | auto].
           ++ right. exists y, my. split; [right; exact Hy | auto].
        -- intros [Hm | (y & my & [<- | Hy] & Ey & Hf)]; auto.
           ++ left. right. rewrite E0 in Ey. injection Ey as <-. exact Hf.
           ++ right. exists y, my. auto.
      * rewrite Hx in Hr. discriminate.
Qed.

Lemma forOf_additive_Permutation {A : Type} (l l' : list A)
  (body : A -> AdvisoryMap -> result AdvisoryMap) (m r : AdvisoryMap) :
  (forall x, additive (body x)) ->
  Permutation l l' -> forOf l body m = Ok r ->
  exists r', forOf l' body m = Ok r' /\ forall k v, hasFact r' k v = hasFact r k v.
Proof.
  intros Hb Hperm Hr.
  destruct (proj2 (forOf_additive l body (fun x _ => Hb x) m) r Hr) as (Hall & Hfacts).
  destruct (proj1 (forOf_additive l' body (fun x _ => Hb x) m)) as (r' & Hr').
  { eapply Permutation_Forall; eassumption. }
  exists r'. split; [exact Hr'|]. intros k v.
  destruct (proj2 (forOf_additive l' body (fun x _ => Hb x) m) r' Hr') as (_ & Hfacts').
  apply eq_true_iff_eq. rewrite Hfacts, Hfacts'. split.
  - intros [Hm | (x & m0 & Hx & E & Hf)]; auto.
    right. exists x, m0. split; [|auto].
    apply (Permutation_in _ (Permutation_sym Hperm)). exact Hx.
  - intros [Hm | (x & m0 & Hx & E & Hf)]; auto.
    right. exists x, m0. split; [|auto]. apply (Permutation_in _ Hperm). exact Hx.
Qed.

Lemma forOf_additive_app {A : Type} (l1 l2 : list A)
  (body : A -> AdvisoryMap -> result AdvisoryMap) (m1 m2 : AdvisoryMap) :
  (forall x, additive (body x)) ->
  forOf l1 body [] = Ok m1 -> forOf l2 body [] = Ok m2 ->
  exists m, forOf (l1 ++ l2) body [] = Ok m /\
            forall k v, hasFact m k v = hasFact m1 k v || hasFact m2 k v.
Proof.
  intros Hb E1 E2. rewrite forOf_app, E1. cbn [bind].
  pose proof (additive_forOf l2 body (fun x _ => Hb x) m1) as Ha.
  rewrite E2 in Ha. exact Ha.
Qed.

(** [walkObject] takes the entries of an object one at a time. *)
Lemma walkObject_entries (fields : list (jsstring * value)) (m : AdvisoryMap) :
  walkObject (JObj fields) m
  = forOf fields (fun kv m0 => walkObject (JObj [kv]) m0) m.
Proof.
  cbn [walkObject]. apply forOf_ext_in. intros [k v] _ s.
  cbn [forOf]. symmetry. apply bind_Ok_r.
Qed.

End Additive.

(** X19: the facts of two feeds add up. When [normalizeMalwareList] returns
    on two array feeds, it returns on their concatenation, with exactly the
    facts of the two maps; and the same for the entries of two object
    feeds. *)
Theorem normalizeMalwareList_union {H : Host} :
  (forall (l1 l2 : list value) (m1 m2 : AdvisoryMap),
      normalizeMalwareList (JArr l1) = Ok m1 ->
      normalizeMalwareList (JArr l2) = Ok m2 ->
      exists m, normalizeMalwareList (JArr (l1 ++ l2)) = Ok m /\
                forall k v, hasFact m k v = hasFact m1 k v || hasFact m2 k v) /\
  (forall (f1 f2 : list (jsstring * value)) (m1 m2 : AdvisoryMap),
      normalizeMalwareList (JObj f1) = Ok m1 ->
      normalizeMalwareList (JObj f2) = Ok m2 ->
      exists m, normalizeMalwareList (JObj (f1 ++ f2)) = Ok m /\
                forall k v, hasFact m k v = hasFact m1 k v || hasFact m2 k v).
Proof.
  split.
  - intros l1 l2 m1 m2. unfold normalizeMalwareList. cbn [Array_isArray elements].
    apply forOf_additive_app. apply additive_considerEntry.
  - intros f1 f2 m1 m2. unfold normalizeMalwareList.
    cbn [Array_isArray ToBoolean isObjectType typeof andb].
    intros E1 E2. rewrite walkObject_app, E1. cbn [bind].
    pose proof (additive_walkObject (JObj f2) m1) as Ha.
    rewrite E2 in Ha. exact Ha.
Qed.

(** X19 on two feeds of one record each. *)
Lemma normalizeMalwareList_union_witness :
  exists m,
    @normalizeMalwareList codeUnitHost
      (JArr ([JObj [(str "name", JStr (str "a")); (str "version", JStr (str "1.0.0"))]]
             ++ [JObj [(str "name", JStr (str "b")); (str "version", JStr (str "2.0.0"))]]))
    = Ok m /\
    forall k v,
      hasFact m k v
      = hasFact [(str "a", [str "1.0.0"])] k v || hasFact [(str "b", [str "2.0.0"])] k v.
Proof.
  apply (proj1 (@normalizeMalwareList_union codeUnitHost)); vm_compute; reflexivity.
Defined.

(** X20: the facts in the map do not depend on the order of the feed. When
    [normalizeMalwareList] returns on an array feed (on an object feed), it
    returns on every rearrangement of its elements (of its entries), with
    the same facts. *)
Theorem normalizeMalwareList_order {H : Host} :
  (forall (l l' : list value) (m : AdvisoryMap),
      Permutation l l' -> normalizeMalwareList (JArr l) = Ok m ->
      exists m', normalizeMalwareList (JArr l') = Ok m' /\
                 forall k v, hasFact m' k v = hasFact m k v) /\
  (forall (f f' : list (jsstring * value)) (m : AdvisoryMap),
      Permutation f f' -> normalizeMalwareList (JObj f) = Ok m ->
      exists m', normalizeMalwareList (JObj f') = Ok m' /\
                 forall k v, hasFact m' k v = hasFact m k v).
Proof.
  split.
  - intros l l' m Hperm. unfold normalizeMalwareList. cbn [Array_isArray elements].
    apply forOf_additive_Permutation; [|exact Hperm].
    apply additive_considerEntry.
  - intros f f' m Hperm. unfold normalizeMalwareList.
    cbn [Array_isArray ToBoolean isObjectType typeof andb].
    rewrite !walkObject_entries.
    apply forOf_additive_Permutation; [|exact Hperm].
    intros kv. apply additive_walkObject.
Qed.

(** X20 on a feed of two records, swapped. *)
Lemma normalizeMalwareList_order_witness :
  exists m',
    @normalizeMalwareList codeUnitHost
      (JArr [JObj [(str "name", JStr (str "b")); (str "version", JStr (str "2.0.0"))];
             JObj [(str "name", JStr (str "a")); (str "version", JStr (str "1.0.0"))]])
    = Ok m' /\
    forall k v,
      hasFact m' k v = hasFact [(str "a", [str "1.0.0"]); (str "b", [str "2.0.0"])] k v.
Proof.
  apply (proj1 (@normalizeMalwareList_order codeUnitHost)
           [JObj [(str "name", JStr (str "a")); (str "version", JStr (str "1.0.0"))];
            JObj [(str "name", JStr (str "b")); (str "version", JStr (str "2.0.0"))]]).
  - apply perm_swap.
  - vm_compute; reflexivity.
Defined.

(* ================================================================== *)
(** * The call stack *)

Section StackFacts.
Context {H : Host}.

Lemma height_pos (v : value) : (1 <= height v)%nat.
Proof. destruct v; simpl; lia. Qed.

Lemma height_child (v c : value) : In c (children v) -> (height c < height v)%nat.
Proof.
  destruct v as [| | | | |items|fields]; simpl; try contradiction.
  - induction items as [|x items IH]; simpl; [contradiction|].
    intros [-> | Hin]; [lia|]. specialize (IH Hin). lia.
  - induction fields as [|[k x] fields IH]; simpl; [contradiction|].
    intros [-> | Hin]; [lia|]. specialize (IH Hin). lia.
Qed.

(** A loop whose turns are those of another loop, or find the stack full. *)
Lemma forOf_or {A St : Type} (l : list A) (f g : A -> St -> result St) :
  (forall x, In x l ->
             forall s, f x s = g x s \/ f x s = Throw RangeError) ->
  forall s, forOf l f s = forOf l g s \/ forOf l f s = Throw RangeError.
Proof.
  induction l as [|x l IH]; intros Hfg s; [left; reflexivity|].
  rewrite !forOf_cons.
  destruct (Hfg x (or_introl eq_refl) s) as [-> | ->]; [|right; reflexivity].
  destruct (g x s) as [s'|e]; [|left; reflexivity].
  cbn [bind]. apply IH. intros y Hy. apply Hfg. right; exact Hy.
Qed.

Lemma forEntries_ext {St : Type} (deps : value)
  (f g : jsstring -> value -> St -> result St) :
  (forall child, In child (children deps) ->
                 forall k st, f k child st = g k child st) ->
  forall st, forEntries deps f st = forEntries deps g st.
Proof.
  intros Hfg. destruct deps as [| | | | |items|fields]; try reflexivity.
  - simpl in Hfg |- *. generalize 0%nat.
    induction items as [|x items IH]; intros i st; [reflexivity|].
    rewrite Hfg by (left; reflexivity).
    destruct (g (natToString i) x st) as [s'|e]; [|reflexivity].
    cbn [bind]. apply IH. intros child Hc. apply Hfg. right; exact Hc.
  - simpl in Hfg |- *. apply forOf_ext_in.
    intros [k x] Hin s. apply Hfg. apply in_map_iff. exists (k, x); auto.
Qed.

Lemma forEntries_or {St : Type} (deps : value)
  (f g : jsstring -> value -> St -> result St) :
  (forall child, In child (children deps) ->
                 forall k st, f k child st = g k child st
                              \/ f k child st = Throw RangeError) ->
  forall st, forEntries deps f st = forEntries deps g st
             \/ forEntries deps f st = Throw RangeError.
Proof.
  intros Hfg. destruct deps as [| | | | |items|fields]; try (left; reflexivity).
  - simpl in Hfg |- *. generalize 0%nat.
    induction items as [|x items IH]; intros i st; [left; reflexivity|].
    destruct (Hfg x (or_introl eq_refl) (natToString i) st) as [-> | ->];
      [|right; reflexivity].
    destruct (g (natToString i) x st) as [s'|e]; [|left; reflexivity].
    cbn [bind]. apply IH. intros child Hc. apply Hfg. right; exact Hc.
  - simpl in Hfg |- *. apply forOf_or.
    intros [k x] Hin s. apply Hfg. apply in_map_iff. exists (k, x); auto.
Qed.

Lemma withField_lookup {B : Type} (k : jsstring) (fields : list (jsstring * value))
  (absent : B) (present : value -> B) :
  withField k fields absent present
  = match lookup k fields with Some v => present v | None => absent end.
Proof.
  induction fields as [|[k' v] fields IH]; [reflexivity|].
  rewrite withField_cons. cbn [lookup]. destruct (str_eqb k k'); [reflexivity | exact IH].
Qed.

(** [visit] as the source has it, [deps] being [node.dependencies || {}]. *)
Lemma visit_deps (node inferredName : value) (st : FlattenState) :
  visit node inferredName st
  = if negb (ToBoolean node) || negb (isObjectType node) then Ok st
    else
      st1 <- record (orElse (get node (str "name")) inferredName)
               (get node (str "version")) st ;;
      let deps := orElse (get node (str "dependencies")) (JObj []) in
      if ToBoolean deps && isObjectType deps then
        forEntries deps (fun depName child => visit child (JStr depName)) st1
      else Ok st1.
Proof.
  destruct node as [| |b|n|s|items|fields]; try reflexivity.
  cbn [visit ToBoolean isObjectType typeof negb orb].
  destruct (record _ _ st) as [st1|e]; [|reflexivity]. cbn [bind].
  rewrite withField_lookup. cbn [get]. unfold orElse.
  destruct (lookup (str "dependencies") fields) as [deps|]; [|reflexivity].
  destruct (ToBoolean deps) eqn:Ed; cbv zeta; [rewrite Ed; reflexivity | reflexivity].
Qed.

Lemma deps_children (node child : value) :
  In child (children (orElse (get node (str "dependencies")) (JObj []))) ->
  (S (height child) < height node)%nat.
Proof.
  unfold orElse.
  destruct (ToBoolean (get node (str "dependencies"))) eqn:Ed; [|intros []].
  intros Hc. apply height_child in Hc.
  assert (Hd : In (get node (str "dependencies")) (children node)).
  { destruct node as [| | | | |items|fields]; try discriminate.
    cbn [get children] in *.
    induction fields as [|[k v] fields IH]; [discriminate|].
    cbn [lookup] in *. destruct (str_eqb (str "dependencies") k).
    - left; reflexivity.
    - right. apply IH; assumption. }
  apply height_child in Hd. lia.
Qed.

Lemma visitWithin_enough (stack : nat) :
  forall node inferredName st,
    (height node <= stack)%nat ->
    visitWithin stack node inferredName st = visit node inferredName st.
Proof.
  induction stack as [|stack IH]; intros node inferredName st Hh.
  - pose proof (height_pos node). lia.
  - rewrite visit_deps. cbn [visitWithin].
    destruct (negb (ToBoolean node) || negb (isObjectType node)); [reflexivity|].
    destruct (record _ _ st) as [st1|e]; [|reflexivity]. cbn [bind]. cbv zeta.
    destruct (ToBoolean _ && isObjectType _); [|reflexivity].
    apply forEntries_ext. intros child Hc k s.
    apply IH. apply deps_children in Hc. lia.
Qed.

Lemma visitWithin_or (stack : nat) :
  forall node inferredName st,
    visitWithin stack node inferredName st = visit node inferredName st
    \/ visitWithin stack node inferredName st = Throw RangeError.
Proof.
  induction stack as [|stack IH]; intros node inferredName st; [right; reflexivity|].
  rewrite visit_deps. cbn [visitWithin].
  destruct (negb (ToBoolean node) || negb (isObjectType node)); [left; reflexivity|].
  destruct (record _ _ st) as [st1|e]; [|left; reflexivity]. cbn [bind]. cbv zeta.
  destruct (ToBoolean _ && isObjectType _); [|left; reflexivity].
  apply forEntries_or. intros child _ k s. apply IH.
Qed.

Lemma flattenPackagesWithin_enough (stack : nat) (tree : value) :
  (height tree <= stack)%nat ->
  flattenPackagesWithin stack tree = flattenPackages tree.
Proof.
  intros Hh. unfold flattenPackagesWithin, flattenPackages.
  rewrite visitWithin_enough by exact Hh. reflexivity.
Qed.

Lemma flattenPackagesWithin_or (stack : nat) (tree : value) :
  flattenPackagesWithin stack tree = flattenPackages tree
  \/ flattenPackagesWithin stack tree = Throw RangeError.
Proof.
  unfold flattenPackagesWithin, flattenPackages.
  destruct (visitWithin_or stack tree (get tree (str "name")) ([], [])) as [-> | ->];
    [left | right]; reflexivity.
Qed.

Lemma walkObjectWithin_enough (stack : nat) :
  forall obj map,
    (height obj <= stack)%nat -> walkObjectWithin stack obj map = walkObject obj map.
Proof.
  induction stack as [|stack IH]; intros obj map Hh.
  - pose proof (height_pos obj). lia.
  - destruct obj as [| | | | |items|fields]; try reflexivity.
    cbn [walkObjectWithin walkObject]. apply forOf_ext_in.
    intros [k v] Hin m.
    destruct (Array_isArray v); [reflexivity|].
    destruct (ToBoolean v && isObjectType v); [|reflexivity].
    destruct (existsb (str_eqb k) containerKeys); [|reflexivity].
    apply IH.
    assert (Hv : In v (children (JObj fields))).
    { apply in_map_iff. exists (k, v); auto. }
    apply height_child in Hv. lia.
Qed.

Lemma walkObjectWithin_or (stack : nat) :
  forall obj map,
    walkObjectWithin stack obj map = walkObject obj map
    \/ walkObjectWithin stack obj map = Throw RangeError.
Proof.
  induction stack as [|stack IH]; intros obj map; [right; reflexivity|].
  destruct obj as [| | | | |items|fields]; try (left; reflexivity).
  cbn [walkObjectWithin walkObject]. apply forOf_or.
  intros [k v] Hin m.
  destruct (Array_isArray v); [left; reflexivity|].
  destruct (ToBoolean v && isObjectType v); [|left; reflexivity].
  destruct (existsb (str_eqb k) containerKeys); [|left; reflexivity].
  apply IH.
Qed.

Lemma normalizeMalwareListWithin_enough (stack : nat) (data : value) :
  (height data <= stack)%nat ->
  normalizeMalwareListWithin stack data = normalizeMalwareList data.
Proof.
  intros Hh. unfold normalizeMalwareListWithin, normalizeMalwareList.
  rewrite walkObjectWithin_enough by exact Hh. reflexivity.
Qed.

Lemma normalizeMalwareListWithin_or (stack : nat) (data : value) :
  normalizeMalwareListWithin stack data = normalizeMalwareList data
  \/ normalizeMalwareListWithin stack data = Throw RangeError.
Proof.
  unfold normalizeMalwareListWithin, normalizeMalwareList.
  destruct (Array_isArray data); [left; reflexivity|].
  destruct (ToBoolean data && isObjectType data); [|left; reflexivity].
  apply walkObjectWithin_or.
Qed.

End StackFacts.

(** ** [flattenPackages] on a stack *)

Section FlattenOnStack.
Context {H : Host}.

(** The run of [flattenPackages] on a stack with room. *)
Lemma flattenPackages_kept (tree : value) :
  Forall stringNamed (observedIn tree) ->
  exists results,
    flattenPackages tree = Ok results /\
    NoDup results /\
    NoDup (List.map keyOf results) /\
    (forall p, In p results -> In p (observedIn tree)) /\
    (forall p, In p (observedIn tree) ->
               exists q, In q results /\ keyOf q = keyOf p) /\
    (forall p, In p (observedIn tree) ->
               (forall q, In q (observedIn tree) -> keyOf q = keyOf p -> q = p) ->
               In p results) /\
    (ConsistentCollation H -> namesSeparated (observedIn tree) ->
     StronglySorted byNameThenVersion results).
Proof.
  intros Hnamed. unfold flattenPackages.
  rewrite visit_observed. fold (observedIn tree).
  assert (Hconv : Forall convertiblePackage (observedIn tree)).
  { eapply Forall_impl; [|exact Hnamed]. apply stringNamed_convertible. }
  destruct (forOf_recordPair (observedIn tree) (observed_truthy tree _) Hconv
              ([], []) (conj eq_refl (NoDup_nil _)))
    as ([seen kept] & -> & [Hkeys Hnd] & _ & Hnew & Hall).
  cbn [bind snd fst] in *.
  assert (Hkept : Forall (fun p => In p (observedIn tree)) kept).
  { apply Forall_forall. intros q Hq. destruct (Hnew q Hq) as [[]|]; assumption. }
  assert (Hin : forall p, In p (observedIn tree) -> stringNamed p).
  { apply Forall_forall. assumption. }
  assert (Hret : forall x y, In x (observedIn tree) -> In y (observedIn tree) ->
                             exists c, cmpPackage x y = Ok c).
  { intros x y Hx Hy.
    destruct (cmpPackage_order x y (Hin x Hx) (Hin y Hy)) as (c & Ec & _).
    exists c; exact Ec. }
  destruct (sort_returns cmpPackage (fun p => In p (observedIn tree)) Hret kept Hkept)
    as (results & Es & Hperm).
  exists results. split; [exact Es|].
  assert (Hsub : forall p, In p results -> In p (observedIn tree)).
  { intros p Hp. apply (Permutation_in _ (Permutation_sym Hperm)) in Hp.
    rewrite Forall_forall in Hkept. apply Hkept; assumption. }
  assert (Hndk : NoDup (List.map keyOf results)).
  { apply (Permutation_NoDup (Permutation_map keyOf Hperm)). rewrite <- Hkeys. exact Hnd. }
  assert (Hex : forall p, In p (observedIn tree) ->
                          exists q, In q results /\ keyOf q = keyOf p).
  { intros p Hp. specialize (Hall p Hp). rewrite Hkeys in Hall.
    apply in_map_iff in Hall as (q & Eq & Hq).
    exists q; split; [apply (Permutation_in _ Hperm); assumption | assumption]. }
  split; [apply (NoDup_map_inv keyOf); exact Hndk|].
  split; [exact Hndk|].
  split; [exact Hsub|].
  split; [exact Hex|].
  split.
  { intros p Hp Hinj. destruct (Hex p Hp) as (q & Hq & Eq).
    rewrite <- (Hinj q (Hsub q Hq) Eq). exact Hq. }
  intros HC Hsep.
  apply (StronglySorted_impl_in (notAfter cmpPackage)).
  { intros x y Hx Hy. apply (notAfter_byNameThenVersion (observedIn tree)); auto. }
  apply (sort_sorted cmpPackage (fun p => In p (observedIn tree))) with (l := kept);
    [exact Hret| | |exact Hkept|exact Es].
  - intros x y c c' Hx Hy Exy Eyx.
    destruct (cmpPackage_order x y (Hin x Hx) (Hin y Hy)) as (d & Ed & Hd).
    destruct (cmpPackage_order y x (Hin y Hy) (Hin x Hx)) as (d' & Ed' & Hd').
    rewrite Exy in Ed. rewrite Eyx in Ed'. injection Ed as <-. injection Ed' as <-.
    rewrite Hd, Hd'. apply packageOrder_antisym; auto.
  - intros x y z Hx Hy Hz Hxy Hyz.
    apply notAfter_cmpPackage in Hxy; auto. apply notAfter_cmpPackage in Hyz; auto.
    apply notAfter_cmpPackage; auto.
    apply (packageOrder_trans (observedIn tree) x y z); auto.
Qed.

End FlattenOnStack.

(** C3, as the code has it: on a dependency graph whose observed pairs have
    string names and versions that convert to strings there is one list
    that [flattenPackages] returns whenever the call stack has room for the
    nesting of the graph, a full stack being the only other outcome, a
    RangeError. That list is without duplicate pairs, and no two of its
    entries have the same key [name@version]; every entry is an observed
    pair and every observed pair has its key on exactly one entry, however
    many graph positions carry it, so that an observed pair whose key no
    other observed pair shares is an entry; and, the collation being
    consistent and telling the observed names apart, the list is sorted by
    name, and for one name by version under [cmpVer]. *)
Theorem flattenPackages_unique_sorted {H : Host} (tree : value) :
  Forall stringNamed (observedIn tree) ->
  exists results,
    (forall stack, (height tree <= stack)%nat ->
                   flattenPackagesWithin stack tree = Ok results) /\
    (forall stack, flattenPackagesWithin stack tree = Ok results
                   \/ flattenPackagesWithin stack tree = Throw RangeError) /\
    NoDup results /\
    NoDup (List.map keyOf results) /\
    (forall p, In p results -> In p (observedIn tree)) /\
    (forall p, In p (observedIn tree) ->
               exists q, In q results /\ keyOf q = keyOf p) /\
    (forall p, In p (observedIn tree) ->
               (forall q, In q (observedIn tree) -> keyOf q = keyOf p -> q = p) ->
               In p results) /\
    (ConsistentCollation H -> namesSeparated (observedIn tree) ->
     StronglySorted byNameThenVersion results).
Proof.
  intros Hnamed.
  destruct (flattenPackages_kept tree Hnamed) as (results & E & Hrest).
  exists results.
  split; [intros stack Hh; rewrite flattenPackagesWithin_enough by exact Hh; exact E|].
  split; [|exact Hrest].
  intros stack. destruct (flattenPackagesWithin_or stack tree) as [-> | ->]; auto.
Qed.

(** C3 at a tree in which [b@1.10.0] is reached twice, on a stack with room
    for eight activations of [visit]. *)
Lemma flattenPackages_unique_sorted_witness :
  Forall (@stringNamed codeUnitHost) (observedIn sampleTree) /\
  (height sampleTree <= 8)%nat /\
  exists results,
    @flattenPackagesWithin codeUnitHost 8 sampleTree = Ok results /\
    NoDup results /\
    StronglySorted (@byNameThenVersion codeUnitHost) results.
Proof.
  assert (Hn : Forall (@stringNamed codeUnitHost) (observedIn sampleTree)).
  { vm_compute. repeat constructor; eexists; reflexivity. }
  assert (Hh : (height sampleTree <= 8)%nat) by (vm_compute; lia).
  split; [exact Hn|]. split; [exact Hh|].
  destruct (@flattenPackages_unique_sorted codeUnitHost sampleTree Hn)
    as (results & E & _ & Hnd & _ & _ & _ & _ & Hsorted).
  exists results. split; [exact (E 8%nat Hh)|]. split; [exact Hnd|].
  apply Hsorted; [exact codeUnitHost_consistent|].
  intros p q an bn _ _ _ _. apply codeUnitHost_separating.
Defined.

(** ** When [normalizeMalwareList] returns *)

Section Conversions.
Context {H : Host}.

Lemma forOf_returns {A St : Type} (l : list A) (body : A -> St -> result St) :
  (forall x, In x l -> forall s, exists s', body x s = Ok s') ->
  forall s, exists s', forOf l body s = Ok s'.
Proof.
  induction l as [|x l IH]; intros Hb s; [eexists; reflexivity|].
  rewrite forOf_cons. destruct (Hb x (or_introl eq_refl) s) as [s1 ->]. cbn [bind].
  apply IH. intros y Hy. apply Hb. right; assumption.
Qed.

(** An additive step returns on a map exactly when it returns on the empty
    map. *)
Lemma additive_returns (step : AdvisoryMap -> result AdvisoryMap) (m : AdvisoryMap) :
  additive step ->
  ((exists m', step m = Ok m') <-> (exists m0, step [] = Ok m0)).
Proof.
  intros Ha. specialize (Ha m). destruct (step []) as [m0|e].
  - destruct Ha as (m1 & -> & _). split; intros _; eexists; reflexivity.
  - rewrite Ha. split; intros [x Hx]; discriminate.
Qed.

Lemma add_returns_iff (name version : value) (m : AdvisoryMap) :
  (exists m', add name version m = Ok m')
  <-> (ToBoolean name = true -> ToBoolean version = true ->
       convertible name /\ convertible version).
Proof.
  unfold add, convertible.
  destruct (ToBoolean name), (ToBoolean version); cbn [negb orb];
    try (split; [intros _ Hn Hv; discriminate | intros _; eexists; reflexivity]).
  destruct (ToString name) as [n|e].
  - destruct (ToString version) as [v|e]; cbn [bind].
    + split; [intros _ _ _; split; eexists; reflexivity | intros _; eexists; reflexivity].
    + split; [intros [x Hx]; discriminate|].
      intros Hc. destruct (Hc eq_refl eq_refl) as [_ [s Hs]]. discriminate.
  - cbn [bind]. split; [intros [x Hx]; discriminate|].
    intros Hc. destruct (Hc eq_refl eq_refl) as [[s Hs] _]. discriminate.
Qed.

Lemma when_addMany (name arr : value) (m : AdvisoryMap) :
  ToBoolean name = true ->
  when (Array_isArray arr) (addMany name arr) m
  = forOf (elements arr) (fun v => add name v) m.
Proof.
  intros Hn. unfold when, addMany. rewrite Hn.
  destruct arr; reflexivity.
Qed.

Lemma when_add (name v : value) (m : AdvisoryMap) :
  when (isStringType v) (add name v) m
  = forOf (if isStringType v then [v] else []) (fun x => add name x) m.
Proof.
  unfold when. destruct (isStringType v); [|reflexivity].
  cbn [forOf]. symmetry. apply bind_Ok_r.
Qed.

(** A record that is taken hands its candidate versions to [add], one
    after the other. *)
Lemma considerEntry_candidates (entry : value) (m : AdvisoryMap) :
  ToBoolean (entryName entry) = true ->
  (m1 <- when (Array_isArray (get entry (str "versions")))
           (addMany (entryName entry) (get entry (str "versions"))) m ;;
   m2 <- when (Array_isArray (get entry (str "affected_versions")))
           (addMany (entryName entry) (get entry (str "affected_versions"))) m1 ;;
   m3 <- when (Array_isArray (get entry (str "affected")))
           (addMany (entryName entry) (get entry (str "affected"))) m2 ;;
   m4 <- when (isStringType (get entry (str "version")))
           (add (entryName entry) (get entry (str "version"))) m3 ;;
   when (isStringType (get entry (str "affected_version")))
     (add (entryName entry) (get entry (str "affected_version"))) m4)
  = forOf (candidateVersions entry) (fun v => add (entryName entry) v) m.
Proof.
  intros Hn. unfold candidateVersions.
  rewrite forOf_app, (when_addMany _ _ _ Hn).
  destruct (forOf (elements (get entry (str "versions"))) _ m) as [m1|e];
    [|reflexivity].
  cbn [bind]. rewrite forOf_app, (when_addMany _ _ _ Hn).
  destruct (forOf (elements (get entry (str "affected_versions"))) _ m1) as [m2|e];
    [|reflexivity].
  cbn [bind]. rewrite forOf_app, (when_addMany _ _ _ Hn).
  destruct (forOf (elements (get entry (str "affected"))) _ m2) as [m3|e];
    [|reflexivity].
  cbn [bind]. rewrite forOf_app, when_add.
  destruct (forOf (if isStringType (get entry (str "version")) then _ else _) _ m3)
    as [m4|e]; [|reflexivity].
  cbn [bind]. apply when_add.
Qed.

Lemma forOf_add_returns_iff (name : value) (l : list value) (m : AdvisoryMap) :
  (exists m', forOf l (fun v => add name v) m = Ok m')
  <-> Forall (fun v => ToBoolean name = true -> ToBoolean v = true ->
                       convertible name /\ convertible v) l.
Proof.
  pose proof (forOf_additive l (fun v => add name v)
                (fun v _ => additive_add name v) m) as [Hif Honly].
  split.
  - intros [m' E]. destruct (Honly m' E) as [Hall _].
    eapply Forall_impl; [|exact Hall]. intros v Hv. apply (add_returns_iff name v []).
    exact Hv.
  - intros Hall. apply Hif.
    eapply Forall_impl; [|exact Hall]. intros v Hv. apply (add_returns_iff name v []).
    exact Hv.
Qed.

(** [considerEntry] returns exactly when its conversions succeed. *)
Lemma considerEntry_returns_iff (entry : value) (m : AdvisoryMap) :
  (exists m', considerEntry entry m = Ok m') <-> recordConverts entry.
Proof.
  unfold recordConverts, considerEntry, filteredOut, convertible.
  destruct (ToBoolean entry && isObjectType entry) eqn:Eobj.
  2: { assert (E : negb (ToBoolean entry) || negb (isObjectType entry) = true).
       { destruct (ToBoolean entry), (isObjectType entry); try reflexivity; discriminate. }
       rewrite E. split; [intros _ Hf; discriminate | intros _; eexists; reflexivity]. }
  assert (E : negb (ToBoolean entry) || negb (isObjectType entry) = false).
  { apply andb_true_iff in Eobj as [-> ->]. reflexivity. }
  rewrite E.
  assert (Htaken :
    ToBoolean (entryName entry) = true ->
    ((exists m',
         (m1 <- when (Array_isArray (get entry (str "versions")))
                  (addMany (entryName entry) (get entry (str "versions"))) m ;;
          m2 <- when (Array_isArray (get entry (str "affected_versions")))
                  (addMany (entryName entry) (get entry (str "affected_versions"))) m1 ;;
          m3 <- when (Array_isArray (get entry (str "affected")))
                  (addMany (entryName entry) (get entry (str "affected"))) m2 ;;
          m4 <- when (isStringType (get entry (str "version")))
                  (add (entryName entry) (get entry (str "version"))) m3 ;;
          when (isStringType (get entry (str "affected_version")))
            (add (entryName entry) (get entry (str "affected_version"))) m4) = Ok m')
     <-> Forall (fun v => ToBoolean v = true ->
                          (exists s, ToString (entryName entry) = Ok s)
                          /\ (exists s, ToString v = Ok s))
           (candidateVersions entry))).
  { intros Hn. rewrite (considerEntry_candidates entry m Hn), forOf_add_returns_iff.
    split; intros Hall; (eapply Forall_impl; [|exact Hall]); intros v Hv; auto. }
  destruct (hasProperty (str "ecosystem") entry).
  - destruct (ToString (get entry (str "ecosystem"))) as [e|e]; cbn [bind].
    + destruct (negb (str_eqb (toLowerCase e) (str "npm"))).
      * split; [|intros _; eexists; reflexivity].
        intros _ _. split; [intros _; eexists; reflexivity | intros Hf; discriminate].
      * cbv zeta. destruct (ToBoolean (entryName entry)) eqn:Hn.
        -- rewrite (Htaken eq_refl). split.
           ++ intros Hall _. split; [intros _; eexists; reflexivity | intros _ _; exact Hall].
           ++ intros Hc. apply (Hc eq_refl); reflexivity.
        -- split; [|intros _; eexists; reflexivity].
           intros _ _. split; [intros _; eexists; reflexivity | intros _ Hf; discriminate].
    + split; [intros [x Hx]; discriminate|].
      intros Hc. destruct (Hc eq_refl) as [Heco _].
      destruct (Heco eq_refl) as [s Hs]. discriminate.
  - cbn [bind]. cbv zeta. destruct (ToBoolean (entryName entry)) eqn:Hn.
    + rewrite (Htaken eq_refl). split.
      * intros Hall _. split; [intros Hf; discriminate | intros _ _; exact Hall].
      * intros Hc. apply (Hc eq_refl); reflexivity.
    + split; [|intros _; eexists; reflexivity].
      intros _ _. split; [intros Hf; discriminate | intros _ Hf; discriminate].
Qed.

Lemma semverish_convertible (v : value) : isSemverish v = true -> convertible v.
Proof. destruct v; try discriminate. intros _. eexists; reflexivity. Qed.

(** An array of versions under a key goes in without a throw. *)
Lemma addMany_versions_returns (k : jsstring) (v : value) (m : AdvisoryMap) :
  nonEmptyAllSemverish v = true -> exists m', addMany (JStr k) v m = Ok m'.
Proof.
  intros Hv. unfold addMany.
  destruct (negb (ToBoolean (JStr k)) || negb (Array_isArray v));
    [eexists; reflexivity|].
  apply forOf_returns. intros x Hx s. apply add_returns_iff. intros _ _.
  split; [eexists; reflexivity|]. apply semverish_convertible.
  unfold nonEmptyAllSemverish in Hv.
  destruct (elements v) as [|y l] eqn:El; [discriminate|].
  rewrite forallb_forall in Hv. apply Hv. exact Hx.
Qed.

Lemma nestedMapping_returns (v : value) (m : AdvisoryMap) :
  exists m', nestedMapping v m = Ok m'.
Proof.
  unfold nestedMapping. apply forOf_returns. intros [nk nv] _ s.
  destruct (Array_isArray nv && nonEmptyAllSemverish nv) eqn:E;
    [|eexists; reflexivity].
  apply andb_true_iff in E as [_ E]. apply addMany_versions_returns. exact E.
Qed.

Lemma forOf_considerEntry_returns_iff (l : list value) (m : AdvisoryMap) :
  (exists m', forOf l considerEntry m = Ok m') <-> Forall recordConverts l.
Proof.
  pose proof (forOf_additive l considerEntry
                (fun x _ => additive_considerEntry x) m) as [Hif Honly].
  split.
  - intros [m' E]. destruct (Honly m' E) as [Hall _].
    eapply Forall_impl; [|exact Hall]. intros x Hx.
    apply (considerEntry_returns_iff x []). exact Hx.
  - intros Hall. apply Hif.
    eapply Forall_impl; [|exact Hall]. intros x Hx.
    apply (considerEntry_returns_iff x []). exact Hx.
Qed.

(** [walkObject] returns exactly when the conversions of the records it
    reaches succeed. *)
Lemma walkObject_returns_iff (obj : value) :
  forall m, (exists m', walkObject obj m = Ok m')
            <-> Forall recordConverts (walkRecords obj).
Proof.
  induction obj as [| |b|n|s|items IH|fields IH] using value_ind; intros m;
    try (split; [intros _; constructor | intros _; eexists; reflexivity]).
  rewrite walkObject_entries.
  pose proof (forOf_additive fields (fun kv m0 => walkObject (JObj [kv]) m0)
                (fun kv _ => additive_walkObject (JObj [kv])) m) as [Hif Honly].
  assert (Hstep : forall kv, In kv fields ->
            ((exists m0, walkObject (JObj [kv]) [] = Ok m0)
             <-> Forall recordConverts (walkRecords (JObj [kv])))).
  { intros [k v] Hin. cbn [walkObject walkRecords forOf flat_map].
    rewrite bind_Ok_r, app_nil_r.
    destruct (Array_isArray v).
    - destruct (nonEmptyAllSemverish v) eqn:Ev.
      + split; [intros _; constructor | intros _; apply addMany_versions_returns; exact Ev].
      + apply forOf_considerEntry_returns_iff.
    - destruct (ToBoolean v && isObjectType v).
      + destruct (existsb (str_eqb k) containerKeys).
        * rewrite Forall_forall in IH. apply (IH (k, v) Hin).
        * split; [intros _; constructor | intros _; apply nestedMapping_returns].
      + split; [intros _; constructor|]. intros _.
        destruct (isStringType v && isSemverish v) eqn:Es; [|eexists; reflexivity].
        apply andb_true_iff in Es as [_ Es].
        apply add_returns_iff. intros _ _.
        split; [eexists; reflexivity | apply semverish_convertible; exact Es]. }
  assert (Hrec : Forall recordConverts (walkRecords (JObj fields))
                 <-> Forall (fun kv => Forall recordConverts (walkRecords (JObj [kv])))
                       fields).
  { cbn [walkRecords]. rewrite Forall_flat_map. split; intros Hall;
      (eapply Forall_impl; [|exact Hall]); intros [k v] Hkv;
      cbn [flat_map] in *; rewrite ?app_nil_r in *; exact Hkv. }
  rewrite Hrec. split.
  - intros [m' E]. destruct (Honly m' E) as [Hall _].
    rewrite Forall_forall in Hall |- *. intros kv Hkv.
    apply (Hstep kv Hkv). apply Hall. exact Hkv.
  - intros Hall. apply Hif.
    rewrite Forall_forall in Hall |- *. intros kv Hkv.
    apply (Hstep kv Hkv). apply Hall. exact Hkv.
Qed.

Lemma normalizeMalwareList_returns_iff (data : value) :
  (exists map, normalizeMalwareList data = Ok map)
  <-> Forall recordConverts (records data).
Proof.
  unfold normalizeMalwareList, records.
  destruct (Array_isArray data); [apply forOf_considerEntry_returns_iff|].
  destruct (ToBoolean data && isObjectType data); [apply walkObject_returns_iff|].
  split; [intros _; constructor | intros _; eexists; reflexivity].
Qed.

End Conversions.

(** ** When [flattenPackages] returns *)

Section SortDistinct.
Context {A : Type} (comparefn : A -> A -> result number).

Lemma insert_returns_each (x : A) (l : list A) :
  (forall y, In y l -> exists c, comparefn x y = Ok c) ->
  exists l', insert comparefn x l = Ok l'.
Proof.
  induction l as [|y l IH]; intros Hc; [eexists; reflexivity|].
  cbn [insert]. destruct (Hc y (or_introl eq_refl)) as [c ->]. cbn [bind].
  destruct (sign c <? 0); [eexists; reflexivity|].
  destruct IH as [r ->]; [intros z Hz; apply Hc; right; exact Hz|].
  eexists; reflexivity.
Qed.

(** The sort returns on a list without repetition when the comparator
    returns on every two different elements. *)
Lemma sortInto_returns_distinct (l : list A) :
  forall acc,
    NoDup (acc ++ l) ->
    (forall x y, In x (acc ++ l) -> In y (acc ++ l) -> x <> y ->
                 exists c, comparefn x y = Ok c) ->
    exists r, sortInto comparefn acc l = Ok r.
Proof.
  induction l as [|x l IH]; intros acc Hnd Hc; [eexists; reflexivity|].
  cbn [sortInto].
  assert (Hx : ~ In x acc).
  { apply NoDup_remove_2 in Hnd. intros Hin. apply Hnd.
    apply in_or_app. left; exact Hin. }
  destruct (insert_returns_each x acc) as [acc' E].
  { intros y Hy. apply Hc.
    - apply in_or_app. right; left; reflexivity.
    - apply in_or_app. left; exact Hy.
    - intros ->. contradiction. }
  rewrite E. cbn [bind].
  assert (Hperm : Permutation (acc ++ x :: l) (acc' ++ l)).
  { apply insert_Permutation in E. rewrite <- E.
    symmetry. apply Permutation_middle. }
  apply IH.
  - eapply Permutation_NoDup; eassumption.
  - intros a b Ha Hb. apply Hc; eapply Permutation_in;
      try (apply Permutation_sym; exact Hperm); assumption.
Qed.

Lemma sort_returns_distinct (l : list A) :
  NoDup l ->
  (forall x y, In x l -> In y l -> x <> y -> exists c, comparefn x y = Ok c) ->
  exists r, sort comparefn l = Ok r.
Proof. intros Hnd Hc. apply (sortInto_returns_distinct l []); assumption. Qed.

End SortDistinct.

Section FlattenReturns.
Context {H : Host}.

Lemma cmpPackage_returns (p q : InstalledPackage) :
  convertiblePackage p -> convertiblePackage q ->
  strictEquals p.(name) q.(name) = true \/ isStringType p.(name) = true ->
  exists c, cmpPackage p q = Ok c.
Proof.
  intros [_ Hpv] [[qn Hqn] Hqv] Hnames. unfold cmpPackage.
  destruct (strictEquals (name p) (name q)) eqn:Es.
  - apply cmpVer_convertible; assumption.
  - destruct Hnames as [Hf | Hs]; [discriminate|].
    destruct (name p); try discriminate. simpl. rewrite Hqn. eexists; reflexivity.
Qed.

Lemma flattenPackages_returns_if (tree : value) :
  Forall convertiblePackage (observedIn tree) ->
  comparableNames (observedIn tree) ->
  exists results, flattenPackages tree = Ok results.
Proof.
  intros Hconv Hcmp. unfold flattenPackages.
  rewrite visit_observed. fold (observedIn tree).
  destruct (forOf_recordPair (observedIn tree) (observed_truthy tree _) Hconv
              ([], []) (conj eq_refl (NoDup_nil _)))
    as ([seen kept] & -> & [Hkeys Hnd] & _ & Hnew & _).
  cbn [bind snd fst] in *.
  assert (Hkept : forall p, In p kept -> In p (observedIn tree)).
  { intros q Hq. destruct (Hnew q Hq) as [[]|]; assumption. }
  rewrite Forall_forall in Hconv.
  apply sort_returns_distinct.
  - apply (NoDup_map_inv keyOf). rewrite <- Hkeys. exact Hnd.
  - intros p q Hp Hq Hne. apply cmpPackage_returns; auto.
Qed.

Lemma record_returns_convertible (p : InstalledPackage) (st st' : FlattenState) :
  ToBoolean p.(name) && ToBoolean p.(version) = true ->
  recordPair p st = Ok st' -> convertiblePackage p.
Proof.
  intros Ht. unfold recordPair, record, packageKey. rewrite Ht.
  destruct (ToString (name p)) as [n|e] eqn:En; [|discriminate].
  destruct (ToString (version p)) as [v|e] eqn:Ev; [|discriminate].
  intros _. split; eexists; eassumption.
Qed.

Lemma forOf_recordPair_convertible (obs : list InstalledPackage) :
  Forall (fun p => ToBoolean p.(name) && ToBoolean p.(version) = true) obs ->
  forall st st', forOf obs recordPair st = Ok st' -> Forall convertiblePackage obs.
Proof.
  induction 1 as [|p obs Hp Hobs IH]; intros st st'; [constructor|].
  rewrite forOf_cons. destruct (recordPair p st) as [st1|e] eqn:E1; [|discriminate].
  cbn [bind]. intros E. constructor.
  - apply (record_returns_convertible p st st1); assumption.
  - apply (IH st1 st'). exact E.
Qed.

Lemma flattenPackages_returns_only_if (tree : value)
  (results : list InstalledPackage) :
  flattenPackages tree = Ok results -> Forall convertiblePackage (observedIn tree).
Proof.
  unfold flattenPackages. rewrite visit_observed. fold (observedIn tree).
  destruct (forOf (observedIn tree) recordPair ([], [])) as [st|e] eqn:E;
    [|discriminate].
  intros _. apply (forOf_recordPair_convertible _ (observed_truthy tree _) _ _ E).
Qed.

(** A value that is not an object gives the empty result. *)
Lemma not_object_empty (data : value) :
  ToBoolean data && isObjectType data = false ->
  normalizeMalwareList data = Ok [] /\ flattenPackages data = Ok [].
Proof.
  intros Hd.
  assert (Hv : forall inferredName st, visit data inferredName st = Ok st).
  { intros inferredName st. rewrite visit_deps.
    destruct (ToBoolean data), (isObjectType data); try reflexivity; discriminate. }
  split.
  - unfold normalizeMalwareList. rewrite Hd.
    destruct data; try reflexivity. discriminate.
  - unfold flattenPackages. rewrite Hv. reflexivity.
Qed.

End FlattenReturns.

(** ** What is thrown *)

Section OnlyTypeError.
Context {H : Host}.

(** Nothing is thrown but the TypeError of a conversion or of a call, as
    long as the stack has room. *)
Lemma ToString_throws (v : value) :
  forall e, ToString v = Throw e -> e = TypeError.
Proof.
  induction v as [| |b|n|s|items IH|fields IH] using value_ind; intros e;
    try discriminate.
  - cbn [ToString]. rewrite Forall_forall in IH. revert e.
    induction items as [|x items IHl]; intros e; [discriminate|].
    assert (Hx : forall e0, match x with
                            | Undefined | JNull => Ok []
                            | _ => ToString x
                            end = Throw e0 -> e0 = TypeError).
    { intros e0. destruct x; try discriminate; apply (IH _ (or_introl eq_refl)). }
    destruct (match x with Undefined | JNull => Ok [] | _ => ToString x end)
      as [sx|e0]; [|intros [= <-]; apply Hx; reflexivity].
    cbn [bind]. destruct items as [|y items']; [discriminate|].
    match goal with
    | |- context [bind ?j _] => destruct j as [r|e1] eqn:Ej
    end; [discriminate|].
    cbn [bind]. intros [= <-]. apply IHl; [|reflexivity].
    intros z Hz. apply IH. right; exact Hz.
  - cbn [ToString]. destruct (lookup (str "toString") fields); [|discriminate].
    intros [= <-]. reflexivity.
Qed.

Lemma forOf_throws {A St : Type} (l : list A) (body : A -> St -> result St) :
  (forall x s e, In x l -> body x s = Throw e -> e = TypeError) ->
  forall s e, forOf l body s = Throw e -> e = TypeError.
Proof.
  induction l as [|x l IH]; intros Hb s e; [discriminate|].
  rewrite forOf_cons. destruct (body x s) as [s1|e1] eqn:E1.
  - cbn [bind]. apply IH. intros y t e0 Hy. apply Hb. right; exact Hy.
  - cbn [bind]. intros [= <-]. apply (Hb x s e1 (or_introl eq_refl) E1).
Qed.

Lemma add_throws (name version : value) (m : AdvisoryMap) (e : exn) :
  add name version m = Throw e -> e = TypeError.
Proof.
  unfold add. destruct (negb (ToBoolean name) || negb (ToBoolean version));
    [discriminate|].
  destruct (ToString name) as [n|e1] eqn:En;
    [|cbn [bind]; intros [= <-]; apply (ToString_throws _ _ En)].
  destruct (ToString version) as [v|e1] eqn:Ev;
    [discriminate | cbn [bind]; intros [= <-]; apply (ToString_throws _ _ Ev)].
Qed.

Lemma addMany_throws (name arr : value) (m : AdvisoryMap) (e : exn) :
  addMany name arr m = Throw e -> e = TypeError.
Proof.
  unfold addMany. destruct (negb (ToBoolean name) || negb (Array_isArray arr));
    [discriminate|].
  apply forOf_throws. intros v s e0 _. apply add_throws.
Qed.

Lemma when_throws (cond : bool) (step : AdvisoryMap -> result AdvisoryMap)
  (m : AdvisoryMap) (e : exn) :
  (forall m0 e0, step m0 = Throw e0 -> e0 = TypeError) ->
  when cond step m = Throw e -> e = TypeError.
Proof. intros Hs. unfold when. destruct cond; [apply Hs | discriminate]. Qed.

Lemma considerEntry_throws (entry : value) (m : AdvisoryMap) (e : exn) :
  considerEntry entry m = Throw e -> e = TypeError.
Proof.
  unfold considerEntry.
  destruct (negb (ToBoolean entry) || negb (isObjectType entry)); [discriminate|].
  destruct (hasProperty (str "ecosystem") entry).
  - destruct (ToString (get entry (str "ecosystem"))) as [t|e1] eqn:Et;
      [|cbn [bind]; intros [= <-]; apply (ToString_throws _ _ Et)].
    cbn [bind]. destruct (negb (str_eqb (toLowerCase t) (str "npm"))); [discriminate|].
    cbv zeta. destruct (ToBoolean (entryName entry)) eqn:Hn; [|discriminate].
    rewrite (considerEntry_candidates entry m Hn).
    apply forOf_throws. intros v s e0 _. apply add_throws.
  - cbn [bind]. cbv zeta.
    destruct (ToBoolean (entryName entry)) eqn:Hn; [|discriminate].
    rewrite (considerEntry_candidates entry m Hn).
    apply forOf_throws. intros v s e0 _. apply add_throws.
Qed.

Lemma walkObject_throws (obj : value) :
  forall m e, walkObject obj m = Throw e -> e = TypeError.
Proof.
  induction obj as [| |b|n|s|items IH|fields IH] using value_ind; intros m e;
    try discriminate.
  cbn [walkObject]. apply forOf_throws. intros [k v] s e0 Hin.
  destruct (Array_isArray v).
  - destruct (nonEmptyAllSemverish v); [apply addMany_throws|].
    apply forOf_throws. intros x t e1 _. apply considerEntry_throws.
  - destruct (ToBoolean v && isObjectType v).
    + destruct (existsb (str_eqb k) containerKeys).
      * rewrite Forall_forall in IH. apply (IH (k, v) Hin).
      * unfold nestedMapping. apply forOf_throws. intros [nk nv] t e1 _.
        destruct (Array_isArray nv && nonEmptyAllSemverish nv);
          [apply addMany_throws | discriminate].
    + destruct (isStringType v && isSemverish v); [apply add_throws | discriminate].
Qed.

Lemma normalizeMalwareList_throws (data : value) (e : exn) :
  normalizeMalwareList data = Throw e -> e = TypeError.
Proof.
  unfold normalizeMalwareList. destruct (Array_isArray data).
  - apply forOf_throws. intros x s e0 _. apply considerEntry_throws.
  - destruct (ToBoolean data && isObjectType data);
      [apply walkObject_throws | discriminate].
Qed.

Lemma cmpVer_throws (a b : value) (e : exn) : cmpVer a b = Throw e -> e = TypeError.
Proof.
  unfold cmpVer. destruct (parseSemver a) as [pa|], (parseSemver b) as [pb|];
    try discriminate.
  - destruct (negb (major pa =? major pb)); [discriminate|].
    destruct (negb (minor pa =? minor pb)); discriminate.
  - destruct (ToString a) as [sa|e1] eqn:Ea;
      [|cbn [bind]; intros [= <-]; apply (ToString_throws _ _ Ea)].
    destruct (ToString b) as [sb|e1] eqn:Eb;
      [discriminate | cbn [bind]; intros [= <-]; apply (ToString_throws _ _ Eb)].
Qed.

Lemma cmpPackage_throws (p q : InstalledPackage) (e : exn) :
  cmpPackage p q = Throw e -> e = TypeError.
Proof.
  unfold cmpPackage. destruct (strictEquals (name p) (name q)); [apply cmpVer_throws|].
  unfold callLocaleCompare. destruct (name p); try (intros [= <-]; reflexivity).
  destruct (ToString (name q)) as [t|e1] eqn:Et;
    [discriminate | cbn [bind]; intros [= <-]; apply (ToString_throws _ _ Et)].
Qed.

Lemma sort_throws {A : Type} (comparefn : A -> A -> result number) (l : list A)
  (e : exn) :
  (forall x y e0, comparefn x y = Throw e0 -> e0 = TypeError) ->
  sort comparefn l = Throw e -> e = TypeError.
Proof.
  intros Hc.
  assert (Hi : forall x acc e0, insert comparefn x acc = Throw e0 -> e0 = TypeError).
  { intros x acc. induction acc as [|y acc IH]; intros e0; [discriminate|].
    cbn [insert]. destruct (comparefn x y) as [c|e1] eqn:Ec;
      [|cbn [bind]; intros [= <-]; apply (Hc x y e1 Ec)].
    cbn [bind]. destruct (sign c <? 0); [discriminate|].
    destruct (insert comparefn x acc) as [r|e1];
      [discriminate | cbn [bind]; intros [= <-]; apply IH; reflexivity]. }
  unfold sort. generalize (@nil A).
  induction l as [|x l IH]; intros acc; [discriminate|].
  cbn [sortInto]. destruct (insert comparefn x acc) as [acc'|e1] eqn:E1;
    [cbn [bind]; apply IH | cbn [bind]; intros [= <-]; apply (Hi x acc e1 E1)].
Qed.

Lemma flattenPackages_throws (tree : value) (e : exn) :
  flattenPackages tree = Throw e -> e = TypeError.
Proof.
  unfold flattenPackages. rewrite visit_observed.
  destruct (forOf _ recordPair ([], [])) as [st|e1] eqn:Ef.
  - cbn [bind]. apply sort_throws. intros x y e0. apply cmpPackage_throws.
  - cbn [bind]. intros [= <-]. revert Ef. apply forOf_throws.
    intros p s e0 _. unfold recordPair, record, packageKey.
    destruct (ToBoolean (name p) && ToBoolean (version p)); [|discriminate].
    destruct (ToString (name p)) as [n|e2] eqn:En;
      [|cbn [bind]; intros [= <-]; apply (ToString_throws _ _ En)].
    destruct (ToString (version p)) as [v|e2] eqn:Ev;
      [|cbn [bind]; intros [= <-]; apply (ToString_throws _ _ Ev)].
    cbn [bind]. destruct s as [seen results].
    destruct (negb (Set_has seen (JStr (n ++ str "@" ++ v)))); discriminate.
Qed.

End OnlyTypeError.

(** C4, as the code has it. [normalizeMalwareList], on a call stack with
    room for the nesting of its argument, returns exactly when every
    conversion to a string that [considerEntry] makes on the records it is
    handed succeeds, and on no stack does it return otherwise.
    [flattenPackages] returns only when the name and the version of every
    observed pair convert to strings; it returns, on a stack with room,
    when they do and the comparator of its sort finds a string wherever it
    calls [localeCompare]. On a value that is not an object or an array
    [normalizeMalwareList] returns the empty map on any stack, and
    [flattenPackages] the empty list as soon as the stack has room for the
    one call of [visit]. On any stack the outcome is that of a stack with
    room, or a RangeError; and on a stack with room nothing is thrown but
    a TypeError. *)
Theorem normalize_flatten_return {H : Host} (data : value) :
  (forall stack,
      (height data <= stack)%nat ->
      ((exists map, normalizeMalwareListWithin stack data = Ok map)
       <-> Forall recordConverts (records data))) /\
  (forall stack,
      (exists map, normalizeMalwareListWithin stack data = Ok map) ->
      Forall recordConverts (records data)) /\
  (forall stack,
      (height data <= stack)%nat ->
      Forall convertiblePackage (observedIn data) ->
      comparableNames (observedIn data) ->
      exists results, flattenPackagesWithin stack data = Ok results) /\
  (forall stack,
      (exists results, flattenPackagesWithin stack data = Ok results) ->
      Forall convertiblePackage (observedIn data)) /\
  (ToBoolean data && isObjectType data = false ->
   (forall stack, normalizeMalwareListWithin stack data = Ok []) /\
   (forall stack, (1 <= stack)%nat -> flattenPackagesWithin stack data = Ok [])) /\
  (forall stack,
      (normalizeMalwareListWithin stack data
       = normalizeMalwareListWithin (height data) data
       \/ normalizeMalwareListWithin stack data = Throw RangeError) /\
      (flattenPackagesWithin stack data = flattenPackagesWithin (height data) data
       \/ flattenPackagesWithin stack data = Throw RangeError)) /\
  (forall stack e,
      (height data <= stack)%nat ->
      (normalizeMalwareListWithin stack data = Throw e -> e = TypeError) /\
      (flattenPackagesWithin stack data = Throw e -> e = TypeError)).
Proof.
  assert (Hnorm : forall stack,
             (exists map, normalizeMalwareListWithin stack data = Ok map) ->
             Forall recordConverts (records data)).
  { intros stack [map E]. apply normalizeMalwareList_returns_iff.
    destruct (normalizeMalwareListWithin_or stack data) as [E' | E'];
      rewrite E' in E; [exists map; exact E | discriminate]. }
  assert (Hflat : forall stack,
             (exists results, flattenPackagesWithin stack data = Ok results) ->
             Forall convertiblePackage (observedIn data)).
  { intros stack [results E].
    destruct (flattenPackagesWithin_or stack data) as [E' | E'];
      rewrite E' in E; [|discriminate].
    apply (flattenPackages_returns_only_if data results E). }
  split.
  { intros stack Hh. split; [apply Hnorm|].
    rewrite normalizeMalwareListWithin_enough by exact Hh.
    apply normalizeMalwareList_returns_iff. }
  split; [exact Hnorm|].
  split.
  { intros stack Hh Hconv Hcmp.
    rewrite flattenPackagesWithin_enough by exact Hh.
    apply flattenPackages_returns_if; assumption. }
  split; [exact Hflat|].
  split.
  { intros Hd. destruct (not_object_empty data Hd) as [En Ef]. split.
    - intros stack. unfold normalizeMalwareListWithin. rewrite Hd.
      destruct data; try reflexivity. discriminate.
    - intros stack Hs. rewrite flattenPackagesWithin_enough; [exact Ef|].
      destruct data as [| |b|n|s|items|fields]; simpl in Hd |- *;
        try exact Hs; discriminate. }
  split.
  { intros stack.
    rewrite !(normalizeMalwareListWithin_enough (height data)),
      !(flattenPackagesWithin_enough (height data)) by apply le_n.
    split; [apply normalizeMalwareListWithin_or | apply flattenPackagesWithin_or]. }
  intros stack e Hh.
  rewrite normalizeMalwareListWithin_enough, flattenPackagesWithin_enough by exact Hh.
  split; [apply normalizeMalwareList_throws | apply flattenPackages_throws].
Qed.

(** C4 at a feed whose top-level object has a key [toString], and at a tree
    of one package whose name is a number: both return. *)
Lemma normalize_flatten_return_witness :
  (height toStringKeyFeed <= 3)%nat /\
  Forall (@recordConverts codeUnitHost) (records toStringKeyFeed) /\
  (exists map, @normalizeMalwareListWithin codeUnitHost 3 toStringKeyFeed = Ok map) /\
  (height numericNameTree <= 3)%nat /\
  Forall (@convertiblePackage codeUnitHost) (observedIn numericNameTree) /\
  comparableNames (observedIn numericNameTree) /\
  (exists results, @flattenPackagesWithin codeUnitHost 3 numericNameTree = Ok results).
Proof.
  assert (Hh : (height toStringKeyFeed <= 3)%nat) by (vm_compute; lia).
  assert (Hr : Forall (@recordConverts codeUnitHost) (records toStringKeyFeed))
    by (vm_compute; constructor).
  assert (Hh' : (height numericNameTree <= 3)%nat) by (vm_compute; lia).
  assert (Hc : Forall (@convertiblePackage codeUnitHost) (observedIn numericNameTree)).
  { vm_compute. repeat constructor; eexists; reflexivity. }
  assert (Hn : comparableNames (observedIn numericNameTree)).
  { intros p q Hp Hq Hne. vm_compute in Hp, Hq.
    destruct Hp as [<- | []]. destruct Hq as [<- | []]. contradiction. }
  split; [exact Hh|]. split; [exact Hr|].
  split.
  { apply (proj1 (@normalize_flatten_return codeUnitHost toStringKeyFeed) 3%nat Hh).
    exact Hr. }
  split; [exact Hh'|]. split; [exact Hc|]. split; [exact Hn|].
  exact (proj1 (proj2 (proj2 (@normalize_flatten_return codeUnitHost numericNameTree)))
           3%nat Hh' Hc Hn).
Defined.
